(** * Pexip transcription bot: audio chunking, resampling, speaker
      attribution and the conference session orchestrator

    A shallow embedding of the JavaScript sources

      - [utils/AudioBuffer.js]            (class [AudioBuffer]),
      - [utils/AudioResampler.js]         ([resampleAudio] and its helpers),
      - [services/ParticipantTracker.js]  (class [ParticipantTracker]),
      - [services/pexip/PexipConnection.js] (classes [PexipConnection] and
        [PexipApiClient]),

    together with the properties the design document states about them.

    Conventions of the embedding.
      - A JavaScript object with mutable fields is a record; a method is a
        function from the old object to the new one (and a result).
      - [Date.now()] is an input: every synchronous call receives the
        reading of the wall clock as its argument [now]; the clock does not
        tick inside one synchronous call.
      - [console.log] is not modelled unless a property is about it.
      - Sample values and array lengths are integers ([Z]); a typed
        [Int16Array] stores [toInt16 x].
      - JavaScript numbers that need not be integers (durations,
        confidences, the chunk length computed by the constructor of
        [AudioBuffer]) are binary64 floats ([PrimFloat]).  Where the
        program only takes the floor of a quotient of integers and that
        floor is the exact one (the lengths and indices of the resampler,
        the buffer of the refresh timer), the quotient is computed in
        [Z]; each such place says so. *)

From Stdlib Require Import ZArith QArith Qminmax Lia Floats Sorted.
From stdpp Require Import gmap strings list.

Set Warnings "-inexact-float".

Open Scope Z_scope.

(** ** JavaScript numbers *)

Module JS.

(** The binary64 float nearest to an integer (the value a JavaScript
    number holds for it; exact below 2^53). *)
Definition of_Z (z : Z) : float :=
  SF2Prim (binary_normalize prec emax z 0 false).

(** [Math.floor] of a finite float, as an integer.  Infinities and NaN
    have no integer floor; they do not arise from the integer inputs the
    program computes with, and are sent to 0. *)
Definition floor (x : float) : Z :=
  match Prim2SF x with
  | S754_finite s m e =>
      let v := if s then Z.neg m else Z.pos m in
      if 0 <=? e then v * 2 ^ e else v / 2 ^ (- e)
  | _ => 0
  end.

(** Conversion of a number to a 16-bit signed integer, as done by a store
    into an [Int16Array] (wrap-around modulo 2^16). *)
Definition toInt16 (x : Z) : Z := (x + 32768) mod 65536 - 32768.

Definition is_int16 (x : Z) : Prop := -32768 <= x < 32768.

(** [a || d] on numbers: 0 (like [undefined]) is falsy. *)
Definition num_or (a : option Z) (d : Z) : Z :=
  match a with
  | Some v => if v =? 0 then d else v
  | None => d
  end.

(** Truthiness of a string-or-null value: [null] and [""] are falsy. *)
Definition truthy (s : option string) : bool :=
  match s with
  | Some v => negb (String.eqb v "")
  | None => false
  end.

End JS.

(** ** utils/AudioBuffer.js

    Writing a chunk to a file ([saveChunkToFile], when [saveToFile] is
    set) changes neither the buffer nor the chunk and is left out. *)

Module AudioBuffer.

Record Config := {
  cfg_sampleRate : option Z;
  cfg_targetDurationMs : option Z;
  cfg_trackId : string;
  cfg_saveToFile : bool
}.

Record Stats := {
  totalSamples : Z;
  chunksCreated : Z;
  startTime : Z;
  lastChunkTime : option Z
}.

Record t := {
  sampleRate : Z;
  targetDurationMs : Z;
  targetSamples : Z;
  buffer : list Z;
  trackId : string;
  saveToFile : bool;
  stats : Stats
}.

(** The object handed to the chunk-ready callback.  [createChunk] builds
    it without an [isFinal] field ([undefined], falsy: [false] here);
    [flush] sets [isFinal: true]. *)
Record ChunkData := {
  samples : list Z;
  chunk_sampleRate : Z;
  duration : float;
  timestamp : Z;
  chunkNumber : Z;
  chunk_trackId : string;
  isFinal : bool
}.

(** [Math.floor(this.sampleRate * (this.targetDurationMs / 1000))] *)
Definition computeTargetSamples (rate ms : Z) : Z :=
  JS.floor (PrimFloat.mul (JS.of_Z rate)
              (PrimFloat.div (JS.of_Z ms) (JS.of_Z 1000))).

Definition new (now : Z) (config : Config) : t :=
  let rate := JS.num_or (cfg_sampleRate config) 48000 in
  let ms := JS.num_or (cfg_targetDurationMs config) 1000 in
  {| sampleRate := rate;
     targetDurationMs := ms;
     targetSamples := computeTargetSamples rate ms;
     buffer := [];
     trackId := cfg_trackId config;
     saveToFile := cfg_saveToFile config;
     stats := {| totalSamples := 0; chunksCreated := 0;
                 startTime := now; lastChunkTime := None |} |}.

Definition set_buffer (l : list Z) (b : t) : t :=
  {| sampleRate := sampleRate b; targetDurationMs := targetDurationMs b;
     targetSamples := targetSamples b; buffer := l; trackId := trackId b;
     saveToFile := saveToFile b; stats := stats b |}.

Definition set_stats (s : Stats) (b : t) : t :=
  {| sampleRate := sampleRate b; targetDurationMs := targetDurationMs b;
     targetSamples := targetSamples b; buffer := buffer b;
     trackId := trackId b; saveToFile := saveToFile b; stats := s |}.

(** [this.buffer.splice(0, this.targetSamples)]: the removed prefix and
    what stays.  A negative count removes nothing ([Z.to_nat]). *)
Definition splice0 (n : Z) (l : list Z) : list Z * list Z :=
  (take (Z.to_nat n) l, drop (Z.to_nat n) l).

Definition createChunk (now : Z) (b : t) : ChunkData * t :=
  let '(chunkSamples, rest) := splice0 (targetSamples b) (buffer b) in
  let chunk := map JS.toInt16 chunkSamples in
  let st := {| totalSamples := totalSamples (stats b);
               chunksCreated := chunksCreated (stats b) + 1;
               startTime := startTime (stats b);
               lastChunkTime := Some now |} in
  ({| samples := chunk;
      chunk_sampleRate := sampleRate b;
      duration := JS.of_Z (targetDurationMs b);
      timestamp := now;
      chunkNumber := chunksCreated st;
      chunk_trackId := trackId b;
      isFinal := false |},
   set_stats st (set_buffer rest b)).

Definition addSamples (now : Z) (new_samples : list Z) (b : t)
  : option ChunkData * t :=
  let st := {| totalSamples :=
                 totalSamples (stats b) + Z.of_nat (length new_samples);
               chunksCreated := chunksCreated (stats b);
               startTime := startTime (stats b);
               lastChunkTime := lastChunkTime (stats b) |} in
  let b1 := set_stats st (set_buffer (buffer b ++ new_samples) b) in
  if targetSamples b1 <=? Z.of_nat (length (buffer b1)) then
    let '(c, b2) := createChunk now b1 in (Some c, b2)
  else (None, b1).

Definition flush (now : Z) (b : t) : option ChunkData * t :=
  if 0 <? Z.of_nat (length (buffer b)) then
    let remainingSamples := map JS.toInt16 (buffer b) in
    (Some {| samples := remainingSamples;
             chunk_sampleRate := sampleRate b;
             duration :=
               PrimFloat.mul
                 (PrimFloat.div
                    (JS.of_Z (Z.of_nat (length remainingSamples)))
                    (JS.of_Z (sampleRate b)))
                 (JS.of_Z 1000);
             timestamp := now;
             chunkNumber := chunksCreated (stats b) + 1;
             chunk_trackId := trackId b;
             isFinal := true |},
     set_buffer [] b)
  else (None, b).

(** A stream of audio frames: [addSamples] is called once per frame, in
    order (as [AudioProcessor.processAudioData] does), and the chunks
    that are not [null] are collected. *)
Fixpoint addSamplesAll (frames : list (Z * list Z)) (b : t)
  : list ChunkData * t :=
  match frames with
  | [] => ([], b)
  | (now, f) :: rest =>
      let '(oc, b1) := addSamples now f b in
      let '(cs, b2) := addSamplesAll rest b1 in
      (match oc with Some c => c :: cs | None => cs end, b2)
  end.

End AudioBuffer.

(** ** utils/AudioResampler.js

    The resampler computes its output length and source indices with
    JavaScript numbers.  The quotients involved are [n / 3], [n / 2],
    [n * 1.5], [i / 1.5], [n / (fromRate / toRate)] and
    [i * (fromRate / toRate)] for array lengths and indices [n], [i].
    For the rates the bot resamples between (16000, 24000 and 48000 Hz)
    the floor of the binary64 result is the floor of the exact rational
    (the exact value is an integer or at least 1/3 away from one), so the
    embedding computes them in [Z] with [Z.div].  For other rates the last
    branch of [resampleAudio] can differ from the exact value by one (440
    samples against 441 for 480 samples from 48000 to 44100 Hz): there
    the embedding does not follow the code, and nothing is proved about
    it.  The definition [genericOutputLength_f64] is the binary64
    evaluation of the last branch's length, kept to compare the two on
    concrete inputs. *)

Module Resampler.

(** [samples[i]]: reading past the end gives [undefined], which an
    [Int16Array] stores as 0. *)
Definition sampleAt (l : list Z) (i : Z) : Z :=
  if i <? 0 then 0 else nth (Z.to_nat i) l 0.

(** [new Int16Array(n)] filled by [for (i = 0; i < n; i++) out[i] = f i]. *)
Definition fillInt16 (n : Z) (f : Z -> Z) : list Z :=
  map (fun i => JS.toInt16 (f (Z.of_nat i))) (seq 0 (Z.to_nat n)).

Definition len (l : list Z) : Z := Z.of_nat (length l).

Definition downsample48to16 (samples48k : list Z) : list Z :=
  let ratio := 3 in
  let outputLength := len samples48k / ratio in
  fillInt16 outputLength (fun i => sampleAt samples48k (i * ratio)).

Definition downsample48to24 (samples48k : list Z) : list Z :=
  let ratio := 2 in
  let outputLength := len samples48k / ratio in
  fillInt16 outputLength (fun i => sampleAt samples48k (i * ratio)).

(** [Math.round (a * (1 - fraction) + b * fraction)] where
    [fraction = i / 1.5 - floor (i / 1.5)] is [r / 3] with
    [r = (2 * i) mod 3]; [Math.round x] is [floor (x + 1/2)]. *)
Definition interpolate (a b r : Z) : Z :=
  (2 * (a * (3 - r) + b * r) + 3) / 6.

(** The 16 kHz to 24 kHz branch of [resampleAudio]. *)
Definition upsample16to24 (samples : list Z) : list Z :=
  let outputLength := (len samples * 3) / 2 in
  fillInt16 outputLength (fun i =>
    let index := (2 * i) / 3 in
    let r := (2 * i) mod 3 in
    if index <? len samples - 1 then
      interpolate (sampleAt samples index) (sampleAt samples (index + 1)) r
    else sampleAt samples (len samples - 1)).

(** [Math.floor(samples.length / (fromRate / toRate))] in exact
    arithmetic: the value the code computes when the rates are among
    16000, 24000 and 48000. *)
Definition genericOutputLength (n fromRate toRate : Z) : Z :=
  (n * toRate) / fromRate.

(** The same length as binary64 arithmetic computes it. *)
Definition genericOutputLength_f64 (n fromRate toRate : Z) : Z :=
  JS.floor (PrimFloat.div (JS.of_Z n)
              (PrimFloat.div (JS.of_Z fromRate) (JS.of_Z toRate))).

(** The last branch of [resampleAudio]: nearest-sample decimation by the
    ratio [fromRate / toRate]. *)
Definition resampleGeneric (samples : list Z) (fromRate toRate : Z)
  : list Z :=
  let outputLength := genericOutputLength (len samples) fromRate toRate in
  fillInt16 outputLength (fun i =>
    let sourceIndex := (i * fromRate) / toRate in
    sampleAt samples sourceIndex).

Definition resampleAudio (samples : list Z) (fromRate toRate : Z)
  : list Z :=
  if fromRate =? toRate then samples
  else if (fromRate =? 48000) && (toRate =? 16000) then
    downsample48to16 samples
  else if (fromRate =? 48000) && (toRate =? 24000) then
    downsample48to24 samples
  else if (fromRate =? 16000) && (toRate =? 24000) then
    upsample16to24 samples
  else resampleGeneric samples fromRate toRate.

(** The rate pairs the transcription providers use, in both directions:
    48000<->16000, 48000<->24000 and 16000<->24000. *)
Definition supported_pairs : list (Z * Z) :=
  [(48000, 16000); (16000, 48000);
   (48000, 24000); (24000, 48000);
   (16000, 24000); (24000, 16000)].

(** Resample to the target rate and back to the original rate. *)
Definition roundTrip (samples : list Z) (fromRate toRate : Z) : list Z :=
  resampleAudio (resampleAudio samples fromRate toRate) toRate fromRate.

End Resampler.

(** ** services/ParticipantTracker.js *)

Module ParticipantTracker.

Record Participant := {
  uuid : string;
  displayName : string;
  role : string;
  joinTime : Z;
  isSpeaking : bool;
  isMuted : option bool;
  lastSpokeAt : option Z;
  totalSpeakingTime : Z;
  speakingStartTime : option Z
}.

(** An element of [speakingHistory]; [endTime] is [null] while the
    interval is open. *)
Record HistoryEntry := {
  h_uuid : string;
  h_displayName : string;
  startTime : Z;
  endTime : option Z
}.

Record t := {
  participants : gmap string Participant;
  currentSpeaker : option string;
  speakingHistory : list HistoryEntry;
  lastSpeakerChange : Z
}.

(** The payload of a participant event.  [pd_uuid] is the value of
    [participantData.uuid || participantData.participant_uuid]; a field
    that the event does not carry is [None]. *)
Record ParticipantData := {
  pd_uuid : string;
  pd_display_name : option string;
  pd_role : option string;
  pd_vad : option Z;
  pd_is_muted : option bool
}.

Record StageParticipant := { sp_uuid : string; sp_vad : Z }.

Record SpeakerInfo := {
  s_uuid : string;
  s_displayName : string;
  confidence : float
}.

Definition new (now : Z) : t :=
  {| participants := ∅; currentSpeaker := None; speakingHistory := [];
     lastSpeakerChange := now |}.

(** Truthiness of a number-or-null field: [null] and 0 are falsy. *)
Definition truthy_num (o : option Z) : bool :=
  match o with
  | Some v => negb (v =? 0)
  | None => false
  end.

Definition str_or (a : option string) (d : string) : string :=
  if JS.truthy a then default d a else d.

Definition set_participant (p : Participant) (tr : t) : t :=
  {| participants := <[uuid p := p]> (participants tr);
     currentSpeaker := currentSpeaker tr;
     speakingHistory := speakingHistory tr;
     lastSpeakerChange := lastSpeakerChange tr |}.

Definition addParticipant (now : Z) (d : ParticipantData) (tr : t) : t :=
  set_participant
    {| uuid := pd_uuid d;
       displayName := str_or (pd_display_name d) "Unknown";
       role := str_or (pd_role d) "guest";
       joinTime := now;
       isSpeaking := false;
       isMuted := None;
       lastSpokeAt := None;
       totalSpeakingTime := 0;
       speakingStartTime := None |} tr.

(** [lastHistoryEntry.endTime = Date.now()] when the last entry belongs
    to [u] and its [endTime] is falsy. *)
Definition closeLastEntry (now : Z) (u : string)
  (h : list HistoryEntry) : list HistoryEntry :=
  match last h with
  | Some e =>
      if String.eqb (h_uuid e) u && negb (truthy_num (endTime e)) then
        removelast h ++
          [{| h_uuid := h_uuid e; h_displayName := h_displayName e;
              startTime := startTime e; endTime := Some now |}]
      else h
  | None => h
  end.

(** [onStopSpeaking(participant)].  Participant objects live in the map
    [participants], each under its own uuid ([addParticipant] is the only
    insertion), and every caller passes an object it has just read from
    the map: the argument is given by its key [u], and the mutation of
    the object is an update of the map at [u]. *)
Definition onStopSpeaking (now : Z) (u : string) (tr : t) : t :=
  match participants tr !! u with
  | None => tr
  | Some p =>
      if negb (isSpeaking p) then tr
      else
        let p' :=
          {| uuid := uuid p; displayName := displayName p; role := role p;
             joinTime := joinTime p;
             isSpeaking := false;
             isMuted := isMuted p;
             lastSpokeAt := lastSpokeAt p;
             totalSpeakingTime :=
               if truthy_num (speakingStartTime p)
               then totalSpeakingTime p
                    + (now - default 0 (speakingStartTime p))
               else totalSpeakingTime p;
             speakingStartTime :=
               if truthy_num (speakingStartTime p) then None
               else speakingStartTime p |} in
        {| participants := <[u := p']> (participants tr);
           currentSpeaker :=
             if decide (currentSpeaker tr = Some (uuid p)) then None
             else currentSpeaker tr;
           speakingHistory :=
             closeLastEntry now (uuid p) (speakingHistory tr);
           lastSpeakerChange := lastSpeakerChange tr |}
  end.

(** [onStartSpeaking(participant)], same convention. *)
Definition onStartSpeaking (now : Z) (u : string) (tr : t) : t :=
  match participants tr !! u with
  | None => tr
  | Some p =>
      let p' :=
        {| uuid := uuid p; displayName := displayName p; role := role p;
           joinTime := joinTime p;
           isSpeaking := true;
           isMuted := isMuted p;
           lastSpokeAt := Some now;
           totalSpeakingTime := totalSpeakingTime p;
           speakingStartTime := Some now |} in
      let previousSpeaker := currentSpeaker tr in
      let tr1 :=
        {| participants := <[u := p']> (participants tr);
           currentSpeaker := Some (uuid p);
           speakingHistory :=
             speakingHistory tr ++
               [{| h_uuid := uuid p; h_displayName := displayName p;
                   startTime := now; endTime := None |}];
           lastSpeakerChange := now |} in
      match previousSpeaker with
      | Some prev =>
          if JS.truthy previousSpeaker && negb (String.eqb prev (uuid p))
          then
            match participants tr1 !! prev with
            | Some prevParticipant =>
                if isSpeaking prevParticipant
                then onStopSpeaking now prev tr1
                else tr1
            | None => tr1
            end
          else tr1
      | None => tr1
      end
  end.

Definition set_displayName (n : string) (p : Participant) : Participant :=
  {| uuid := uuid p; displayName := n; role := role p;
     joinTime := joinTime p; isSpeaking := isSpeaking p;
     isMuted := isMuted p; lastSpokeAt := lastSpokeAt p;
     totalSpeakingTime := totalSpeakingTime p;
     speakingStartTime := speakingStartTime p |}.

Definition set_isMuted (m : bool) (p : Participant) : Participant :=
  {| uuid := uuid p; displayName := displayName p; role := role p;
     joinTime := joinTime p; isSpeaking := isSpeaking p;
     isMuted := Some m; lastSpokeAt := lastSpokeAt p;
     totalSpeakingTime := totalSpeakingTime p;
     speakingStartTime := speakingStartTime p |}.

Definition is_speaking (u : string) (tr : t) : bool :=
  match participants tr !! u with
  | Some p => isSpeaking p
  | None => false
  end.

Definition alter_participant (f : Participant -> Participant)
  (u : string) (tr : t) : t :=
  {| participants := alter f u (participants tr);
     currentSpeaker := currentSpeaker tr;
     speakingHistory := speakingHistory tr;
     lastSpeakerChange := lastSpeakerChange tr |}.

Definition updateParticipant (now : Z) (d : ParticipantData) (tr : t) : t :=
  let u := pd_uuid d in
  match participants tr !! u with
  | None => addParticipant now d tr
  | Some _ =>
      let tr1 :=
        if JS.truthy (pd_display_name d)
        then alter_participant
               (set_displayName (default "" (pd_display_name d))) u tr
        else tr in
      let tr2 :=
        match pd_vad d with
        | Some vad =>
            let wasSpeaking := is_speaking u tr1 in
            let isSpeakingNow := vad =? 100 in
            if negb wasSpeaking && isSpeakingNow
            then onStartSpeaking now u tr1
            else if wasSpeaking && negb isSpeakingNow
            then onStopSpeaking now u tr1
            else tr1
        | None => tr1
        end in
      match pd_is_muted d with
      | Some m =>
          let tr3 := alter_participant (set_isMuted m) u tr2 in
          if m && is_speaking u tr3 then onStopSpeaking now u tr3 else tr3
      | None => tr2
      end
  end.

Definition removeParticipant (now : Z) (d : ParticipantData) (tr : t) : t :=
  let u := pd_uuid d in
  match participants tr !! u with
  | Some p =>
      let tr1 := if isSpeaking p then onStopSpeaking now u tr else tr in
      {| participants := delete u (participants tr1);
         currentSpeaker := currentSpeaker tr1;
         speakingHistory := speakingHistory tr1;
         lastSpeakerChange := lastSpeakerChange tr1 |}
  | None => tr
  end.

Definition updateStage (now : Z) (stage : list StageParticipant) (tr : t)
  : t :=
  match stage with
  | [] => tr
  | activeSpeaker :: _ =>
      let tr1 :=
        if (0 <? sp_vad activeSpeaker)
           && bool_decide (is_Some (participants tr !! sp_uuid activeSpeaker))
           && negb (is_speaking (sp_uuid activeSpeaker) tr)
        then onStartSpeaking now (sp_uuid activeSpeaker) tr
        else tr in
      foldl (fun acc sp =>
               match participants acc !! sp_uuid sp with
               | Some p =>
                   let speaking := 0 <? sp_vad sp in
                   if speaking && negb (isSpeaking p)
                   then onStartSpeaking now (sp_uuid sp) acc
                   else if negb speaking && isSpeaking p
                   then onStopSpeaking now (sp_uuid sp) acc
                   else acc
               | None => acc
               end) tr1 stage
  end.

(** The participant events of the bridge, as [index.js] routes them. *)
Inductive Event :=
| ParticipantJoined (d : ParticipantData)
| ParticipantUpdated (d : ParticipantData)
| ParticipantLeft (d : ParticipantData)
| StageUpdate (stage : list StageParticipant).

Definition handleEvent (tr : t) (ev : Z * Event) : t :=
  let '(now, e) := ev in
  match e with
  | ParticipantJoined d => addParticipant now d tr
  | ParticipantUpdated d => updateParticipant now d tr
  | ParticipantLeft d => removeParticipant now d tr
  | StageUpdate s => updateStage now s tr
  end.

(** A tracker created at time [t0] that has processed the timed events
    [evs] in order. *)
Definition run (t0 : Z) (evs : list (Z * Event)) : t :=
  foldl handleEvent (new t0) evs.

(** The test of the history scan:
    [entry.startTime <= timestamp &&
     (!entry.endTime || entry.endTime >= timestamp)]. *)
Definition entryMatches (timestamp : Z) (e : HistoryEntry) : bool :=
  (startTime e <=? timestamp)
  && (negb (truthy_num (endTime e))
      || (timestamp <=? default 0 (endTime e))).

Definition unknownSpeaker : SpeakerInfo :=
  {| s_uuid := "unknown"; s_displayName := "Unknown Speaker";
     confidence := 0%float |}.

Definition getSpeakerAtTime (timestamp : Z) (tr : t) : SpeakerInfo :=
  match find (entryMatches timestamp) (rev (speakingHistory tr)) with
  | Some entry =>
      {| s_uuid := h_uuid entry; s_displayName := h_displayName entry;
         confidence := 0.9%float |}
  | None =>
      match (if JS.truthy (currentSpeaker tr)
             then currentSpeaker tr ≫= (fun u => participants tr !! u)
             else None) with
      | Some participant =>
          {| s_uuid := uuid participant;
             s_displayName := displayName participant;
             confidence := 0.5%float |}
      | None => unknownSpeaker
      end
  end.

(** The intervals of the history that are still open ([endTime] null). *)
Definition openIntervals (tr : t) : list HistoryEntry :=
  filter (fun e => endTime e = None) (speakingHistory tr).

(** [timestamp] lies in the closed interval [[start, end)] of [e]. *)
Definition inClosedInterval (timestamp : Z) (e : HistoryEntry) : Prop :=
  exists en, endTime e = Some en /\ startTime e <= timestamp < en.

End ParticipantTracker.

(** ** services/pexip/PexipConnection.js

    [PexipApiClient] talks to the bridge over HTTP and [PexipConnection]
    orchestrates one session.  What the bridge answers is an input
    ([HttpOutcome]); what the program does to the outside world (requests,
    timers, the media session, the console) is recorded, in order, in the
    list [effects] of the session. *)

Module Pexip.

Record Candidate := {
  candidate : string;
  sdpMid : string;
  usernameFragment : string
}.

(** What a request to the bridge comes back with: a response with a
    status code, or no response at all (network failure, timeout). *)
Inductive HttpOutcome :=
| Status (code : Z)
| NoResponse.

(** The error [axios] rejects with; [response_status] is
    [error.response?.status]. *)
Record Error := { message : string; response_status : option Z }.

(** The two places that call [api.sendIceCandidate]: the ICE candidate
    handler, and the loop of [connect] that sends the queued ones. *)
Inductive CallSite := FromHandler | FromQueue.

Inductive Timer := TokenRefreshTimer | EventPollTimeout.

Inductive Effect :=
| PostNewCandidate (site : CallSite) (call : option string) (c : Candidate)
| PostDisconnect (call : option string)
| PostReleaseToken
| SetTimeout (t : Timer) (delay_ms : Z)
| ClearTimeout (t : Timer)
| WebrtcDisconnect
| Sleep (ms : Z)
| ConsoleLog (msg : string)
| ConsoleError (msg : string).

Record ApiClient := {
  token : option string;
  participantUuid : option string
}.

(** [tokenRefreshTimer] holds the delay the pending timer was armed with;
    [eventPollTimeout] tells whether a timer handle is stored;
    [flushCursor] is the position of the iterator of the loop over
    [pendingIceCandidates] while [connect] is suspended in it. *)
Record Connection := {
  api : ApiClient;
  callUuid : option string;
  eventPollTimeout : bool;
  isRunning : bool;
  pendingIceCandidates : list Candidate;
  tokenRefreshTimer : option Z;
  flushCursor : option nat;
  effects : list Effect
}.

Inductive Completion (A : Type) :=
| Return (a : A)
| Throw (e : Error).
Arguments Return {A} a.
Arguments Throw {A} e.

(** Computations over a session that may throw. *)
Definition M (A : Type) : Type := Connection -> Completion A * Connection.

Definition ret {A} (a : A) : M A := fun w => (Return a, w).

Definition bind {A B} (m : M A) (k : A -> M B) : M B :=
  fun w =>
    match m w with
    | (Return a, w') => k a w'
    | (Throw e, w') => (Throw e, w')
    end.

Notation "x <- m ;; k" := (bind m (fun x => k))
  (at level 100, m at next level, right associativity).
Notation "m ;;; k" := (bind m (fun _ => k))
  (at level 100, right associativity).

Definition throw {A} (e : Error) : M A := fun w => (Throw e, w).

(** [try { body } catch (error) { handler error }] *)
Definition tryCatch {A} (body : M A) (handler : Error -> M A) : M A :=
  fun w =>
    match body w with
    | (Throw e, w') => handler e w'
    | r => r
    end.

Definition modify (f : Connection -> Connection) : M unit :=
  fun w => (Return tt, f w).

Definition gets {A} (f : Connection -> A) : M A :=
  fun w => (Return (f w), w).

Definition when (b : bool) (m : M unit) : M unit :=
  if b then m else ret tt.

Definition set_api (a : ApiClient) (w : Connection) : Connection :=
  {| api := a; callUuid := callUuid w;
     eventPollTimeout := eventPollTimeout w; isRunning := isRunning w;
     pendingIceCandidates := pendingIceCandidates w;
     tokenRefreshTimer := tokenRefreshTimer w;
     flushCursor := flushCursor w; effects := effects w |}.

Definition set_callUuid (c : option string) (w : Connection) : Connection :=
  {| api := api w; callUuid := c;
     eventPollTimeout := eventPollTimeout w; isRunning := isRunning w;
     pendingIceCandidates := pendingIceCandidates w;
     tokenRefreshTimer := tokenRefreshTimer w;
     flushCursor := flushCursor w; effects := effects w |}.

Definition set_eventPollTimeout (b : bool) (w : Connection) : Connection :=
  {| api := api w; callUuid := callUuid w;
     eventPollTimeout := b; isRunning := isRunning w;
     pendingIceCandidates := pendingIceCandidates w;
     tokenRefreshTimer := tokenRefreshTimer w;
     flushCursor := flushCursor w; effects := effects w |}.

Definition set_isRunning (b : bool) (w : Connection) : Connection :=
  {| api := api w; callUuid := callUuid w;
     eventPollTimeout := eventPollTimeout w; isRunning := b;
     pendingIceCandidates := pendingIceCandidates w;
     tokenRefreshTimer := tokenRefreshTimer w;
     flushCursor := flushCursor w; effects := effects w |}.

Definition set_pending (l : list Candidate) (w : Connection) : Connection :=
  {| api := api w; callUuid := callUuid w;
     eventPollTimeout := eventPollTimeout w; isRunning := isRunning w;
     pendingIceCandidates := l;
     tokenRefreshTimer := tokenRefreshTimer w;
     flushCursor := flushCursor w; effects := effects w |}.

Definition set_tokenRefreshTimer (t : option Z) (w : Connection)
  : Connection :=
  {| api := api w; callUuid := callUuid w;
     eventPollTimeout := eventPollTimeout w; isRunning := isRunning w;
     pendingIceCandidates := pendingIceCandidates w;
     tokenRefreshTimer := t;
     flushCursor := flushCursor w; effects := effects w |}.

Definition set_flushCursor (c : option nat) (w : Connection) : Connection :=
  {| api := api w; callUuid := callUuid w;
     eventPollTimeout := eventPollTimeout w; isRunning := isRunning w;
     pendingIceCandidates := pendingIceCandidates w;
     tokenRefreshTimer := tokenRefreshTimer w;
     flushCursor := c; effects := effects w |}.

(** The session after it has done [es], in that order. *)
Definition add_effects (es : list Effect) (w : Connection) : Connection :=
  {| api := api w; callUuid := callUuid w;
     eventPollTimeout := eventPollTimeout w; isRunning := isRunning w;
     pendingIceCandidates := pendingIceCandidates w;
     tokenRefreshTimer := tokenRefreshTimer w;
     flushCursor := flushCursor w; effects := effects w ++ es |}.

Definition emit (e : Effect) : M unit := modify (add_effects [e]).

(** [await axios.post(url, ...)] with the default [validateStatus]: the
    request [req] goes out, and the promise rejects unless the status is
    2xx. *)
Definition axiosPost (req : Effect) (o : HttpOutcome) : M Z :=
  emit req ;;;
  match o with
  | Status c =>
      if (200 <=? c) && (c <? 300) then ret c
      else throw {| message := "Request failed with status code";
                    response_status := Some c |}
  | NoResponse =>
      throw {| message := "Network Error"; response_status := None |}
  end.

(** *** class PexipApiClient *)

Definition sendIceCandidate (site : CallSite) (call : option string)
  (c : Candidate) (o : HttpOutcome) : M unit :=
  tryCatch
    (axiosPost (PostNewCandidate site call c) o ;;; ret tt)
    (fun error => emit (ConsoleError "Failed to send ICE candidate:")).

Definition disconnectCall (call : option string) (o : HttpOutcome)
  : M unit :=
  tok <- gets (fun w => token (api w)) ;;
  if negb (JS.truthy call) || negb (JS.truthy tok) then ret tt
  else
    tryCatch
      (axiosPost (PostDisconnect call) o ;;;
       emit (ConsoleLog "Call disconnected successfully"))
      (fun error =>
         if bool_decide (response_status error = Some 403)
         then emit (ConsoleLog "Call already disconnected")
         else emit (ConsoleError "Disconnect error:")).

Definition releaseToken (o : HttpOutcome) : M unit :=
  tok <- gets (fun w => token (api w)) ;;
  if negb (JS.truthy tok) then ret tt
  else
    tryCatch
      (axiosPost PostReleaseToken o ;;;
       emit (ConsoleLog "Token released successfully"))
      (fun error =>
         if bool_decide (response_status error = Some 403)
         then emit (ConsoleLog "Token already released")
         else emit (ConsoleError "Token release error:")) ;;;
    modify (fun w =>
      set_api {| token := None;
                 participantUuid := participantUuid (api w) |} w).

(** *** class PexipConnection *)

Definition new : Connection :=
  {| api := {| token := None; participantUuid := None |};
     callUuid := None;
     eventPollTimeout := false;
     isRunning := false;
     pendingIceCandidates := [];
     tokenRefreshTimer := None;
     flushCursor := None;
     effects := [] |}.

(** [Math.min(30, Math.floor(expiresInSeconds * 0.25))]; scaling by 0.25
    is exact in binary64, so the floor is [e / 4] rounded down. *)
Definition refreshBuffer (expiresInSeconds : Z) : Z :=
  Z.min 30 (expiresInSeconds / 4).

(** The delay, in milliseconds, given to [setTimeout]. *)
Definition refreshInterval (expiresInSeconds : Z) : Z :=
  (expiresInSeconds - refreshBuffer expiresInSeconds) * 1000.

Definition startTokenRefresh (expiresInSeconds : Z) : M unit :=
  t <- gets tokenRefreshTimer ;;
  when (bool_decide (is_Some t)) (emit (ClearTimeout TokenRefreshTimer)) ;;;
  emit (SetTimeout TokenRefreshTimer (refreshInterval expiresInSeconds)) ;;;
  modify (set_tokenRefreshTimer (Some (refreshInterval expiresInSeconds))).

Definition stopTokenRefresh : M unit :=
  t <- gets tokenRefreshTimer ;;
  when (bool_decide (is_Some t))
    (emit (ClearTimeout TokenRefreshTimer) ;;;
     modify (set_tokenRefreshTimer None)).

(** The handler [connect] installs with [setIceCandidateHandler]; the
    media layer calls it once per locally gathered candidate. *)
Definition iceCandidateHandler (c : Candidate) (o : HttpOutcome) : M unit :=
  call <- gets callUuid ;;
  if negb (JS.truthy call) then
    modify (fun w => set_pending (pendingIceCandidates w ++ [c]) w)
  else sendIceCandidate FromHandler call c o.

(** One turn of [for (const candidate of this.pendingIceCandidates)]
    in [connect]: the iterator at position [i] either yields the [i]-th
    element of the array as it is now, which is sent (and [connect]
    suspends on the [await]), or it is exhausted, and the statement after
    the loop, [this.pendingIceCandidates = []], runs. *)
Definition connect_flushTurn (i : nat) (o : HttpOutcome) : M unit :=
  pending <- gets pendingIceCandidates ;;
  call <- gets callUuid ;;
  match pending !! i with
  | Some c =>
      sendIceCandidate FromQueue call c o ;;;
      modify (set_flushCursor (Some (S i)))
  | None =>
      modify (set_pending []) ;;;
      modify (set_flushCursor None)
  end.

(** [connect] resumes after [await this.api.joinCall(offer.sdp)]:
    it stores the call UUID and, if candidates are queued, enters the
    loop that sends them. *)
Definition connect_joined (call : string) (o : HttpOutcome) : M unit :=
  modify (set_callUuid (Some call)) ;;;
  pending <- gets pendingIceCandidates ;;
  if 0 <? Z.of_nat (length pending) then
    emit (ConsoleLog "Sending queued ICE candidates...") ;;;
    connect_flushTurn 0 o
  else ret tt.

(** [connect] resumes after an awaited [sendIceCandidate] of the loop. *)
Definition connect_sendReturned (o : HttpOutcome) : M unit :=
  cur <- gets flushCursor ;;
  match cur with
  | Some i => connect_flushTurn i o
  | None => ret tt
  end.

(** What can happen to a session between the installation of the ICE
    candidate handler and the end of the loop over the queue; [o] is the
    outcome of the request the step sends, if it sends one. *)
Inductive SetupEvent :=
| LocalCandidate (c : Candidate) (o : HttpOutcome)
| JoinCallReturned (call : string) (o : HttpOutcome)
| SendReturned (o : HttpOutcome).

Definition setupStep (w : Connection) (ev : SetupEvent) : Connection :=
  snd (match ev with
       | LocalCandidate c o => iceCandidateHandler c o w
       | JoinCallReturned call o => connect_joined call o w
       | SendReturned o => connect_sendReturned o w
       end).

Definition setupRun (evs : list SetupEvent) (w : Connection) : Connection :=
  foldl setupStep w evs.

(** The media layer generates the candidates [cs] while the call UUID is
    not known yet. *)
Definition generatedEarly (cs : list (Candidate * HttpOutcome))
  : list SetupEvent :=
  map (fun co => LocalCandidate (fst co) (snd co)) cs.

(** The requests [new_candidate] of a call site among some effects, in
    order, each with the call UUID it was sent for. *)
Definition sentBy (site : CallSite) (e : Effect)
  : option (option string * Candidate) :=
  match e with
  | PostNewCandidate s call c =>
      match site, s with
      | FromHandler, FromHandler | FromQueue, FromQueue => Some (call, c)
      | _, _ => None
      end
  | _ => None
  end.

Definition candidatesSent (site : CallSite) (es : list Effect)
  : list (option string * Candidate) :=
  omap (sentBy site) es.

(** The candidates the media layer generates in a run of events. *)
Definition candidatesOf (evs : list SetupEvent) : list Candidate :=
  omap (fun ev =>
          match ev with
          | LocalCandidate c _ => Some c
          | _ => None
          end) evs.

Definition isSendReturned (ev : SetupEvent) : bool :=
  match ev with
  | SendReturned _ => true
  | _ => false
  end.

Definition isJoinCallReturned (ev : SetupEvent) : bool :=
  match ev with
  | JoinCallReturned _ _ => true
  | _ => false
  end.

(** [disconnect] up to its [await] of the 100 ms delay: the guard, and
    the synchronous part of the teardown.  The result tells whether the
    teardown was started ([false]: the call returned at the guard). *)
Definition disconnect_begin : M bool :=
  running <- gets isRunning ;;
  if negb running then
    emit (ConsoleLog "Already disconnected") ;;; ret false
  else
    emit (ConsoleLog "Disconnecting from Pexip") ;;;
    modify (set_isRunning false) ;;;
    stopTokenRefresh ;;;
    poll <- gets eventPollTimeout ;;
    when poll
      (emit (ClearTimeout EventPollTimeout) ;;;
       modify (set_eventPollTimeout false)) ;;;
    emit WebrtcDisconnect ;;;
    emit (Sleep 100) ;;;
    ret true.

(** [disconnect] after the delay: the two cleanup requests. *)
Definition disconnect_finish (o1 o2 : HttpOutcome) : M unit :=
  tryCatch
    (call <- gets callUuid ;;
     disconnectCall call o1 ;;;
     releaseToken o2)
    (fun error => ret tt) ;;;
  emit (ConsoleLog "Disconnected from Pexip").

Definition disconnect (o1 o2 : HttpOutcome) : M unit :=
  started <- disconnect_begin ;;
  if started then disconnect_finish o1 o2 else ret tt.

(** The steps of the teardown among the effects of a session. *)
Definition isTeardownEffect (e : Effect) : bool :=
  match e with
  | ClearTimeout _ | WebrtcDisconnect | Sleep _
  | PostDisconnect _ | PostReleaseToken => true
  | _ => false
  end.

(** The teardown of a session in state [w], step by step: stop the
    token refresh, stop the event polling, close the media session, wait,
    and tell the bridge (disconnect the call, release the token). *)
Definition teardownOf (w : Connection) : list Effect :=
  (if bool_decide (is_Some (tokenRefreshTimer w))
   then [ClearTimeout TokenRefreshTimer] else [])
  ++ (if eventPollTimeout w then [ClearTimeout EventPollTimeout] else [])
  ++ [WebrtcDisconnect; Sleep 100]
  ++ (if JS.truthy (callUuid w) && JS.truthy (token (api w))
      then [PostDisconnect (callUuid w)] else [])
  ++ (if JS.truthy (token (api w)) then [PostReleaseToken] else []).

Definition isConsoleError (e : Effect) : bool :=
  match e with
  | ConsoleError _ => true
  | _ => false
  end.

(** The time, in seconds, at which the design document has the refresh
    timer fire: [expiresInSec - min(30, 0.25 * expiresInSec)]. *)
Definition documentedRefreshSeconds (expiresInSec : Z) : Q :=
  (inject_Z expiresInSec
   - Qmin (inject_Z 30) ((1 # 4) * inject_Z expiresInSec))%Q.

End Pexip.

(** ** Scenarios

    Concrete inputs for the examples of the second part. *)

Module Scenario.

Import ParticipantTracker.

Definition joined (u name : string) : Event :=
  ParticipantJoined
    {| pd_uuid := u; pd_display_name := Some name; pd_role := None;
       pd_vad := None; pd_is_muted := None |}.

Definition vad (u : string) (v : Z) : Event :=
  ParticipantUpdated
    {| pd_uuid := u; pd_display_name := None; pd_role := None;
       pd_vad := Some v; pd_is_muted := None |}.

(** A session in the middle of a conference: token and call UUID held,
    both timers armed. *)
Definition connected : Pexip.Connection :=
  {| Pexip.api := {| Pexip.token := Some "token-1";
                     Pexip.participantUuid := Some "participant-1" |};
     Pexip.callUuid := Some "call-1";
     Pexip.eventPollTimeout := true;
     Pexip.isRunning := true;
     Pexip.pendingIceCandidates := [];
     Pexip.tokenRefreshTimer := Some 90000;
     Pexip.flushCursor := None;
     Pexip.effects := [] |}.

Definition cand (s : string) : Pexip.Candidate :=
  {| Pexip.candidate := s; Pexip.sdpMid := "0";
     Pexip.usernameFragment := "ufrag" |}.

(** Alice joins and starts to speak at time 10. *)
Definition oneSpeaker : list (Z * Event) :=
  [(1, joined "A" "Alice"); (10, vad "A" 100)].

(** ... and stops at time 20. *)
Definition oneSpeakerStopped : list (Z * Event) :=
  oneSpeaker ++ [(20, vad "A" 0)].

(** Alice and Bob join; Alice starts to speak at time 10, and Bob at
    time 20 while Alice is still speaking. *)
Definition twoSpeakers : list (Z * Event) :=
  [(1, joined "A" "Alice"); (2, joined "B" "Bob");
   (10, vad "A" 100); (20, vad "B" 100)].

End Scenario.

(** ** utils/AudioResampler.js, the source index in binary64 *)

Module ResamplerF64.

(** [Math.floor(i * ratio)] with [ratio = fromRate / toRate], as binary64
    arithmetic computes it; [Resampler.resampleGeneric] uses the exact
    [(i * fromRate) / toRate]. *)
Definition genericSourceIndex_f64 (i fromRate toRate : Z) : Z :=
  JS.floor (PrimFloat.mul (JS.of_Z i)
              (PrimFloat.div (JS.of_Z fromRate) (JS.of_Z toRate))).

End ResamplerF64.

(** ** utils/AudioValidator.js *)

Module AudioValidator.

(** [Math.max(...l)]; of no argument it is [-Infinity] ([None]). *)
Definition mathMax (l : list Z) : option Z :=
  match l with
  | [] => None
  | x :: rest => Some (foldl Z.max x rest)
  end.

(** [validateAudio(samples, expectedRate, location)]; [samples] is
    [None] when the argument is [null] or [undefined].  The rate and the
    location only appear in the console lines, which are left out, as is
    the average amplitude, computed for them alone. *)
Definition validateAudio (samples : option (list Z)) : bool :=
  match samples with
  | None => false
  | Some s =>
      if Z.of_nat (length s) =? 0 then false
      else
        let maxAmplitude :=
          mathMax
            (map Z.abs
               (take (Z.to_nat (Z.min 1000 (Z.of_nat (length s)))) s)) in
        let isSilence :=
          match maxAmplitude with
          | Some m => m <? 10
          | None => true
          end in
        negb isSilence
  end.

End AudioValidator.

(** ** services/ParticipantTracker.js, what the tracker keeps true *)

Module TrackerFacts.

Import ParticipantTracker.

(** The uuid an event files a participant under, when it can add one. *)
Definition addedUuid (ev : Z * Event) : option string :=
  match snd ev with
  | ParticipantJoined d | ParticipantUpdated d => Some (pd_uuid d)
  | _ => None
  end.

(** No event adds a participant under the empty uuid. *)
Definition uuidsNotEmpty (evs : list (Z * Event)) : Prop :=
  Forall (fun ev => addedUuid ev <> Some "") evs.

(** Every participant object is filed under its own uuid, which is not
    empty. *)
Definition keyed (tr : t) : Prop :=
  forall u p, participants tr !! u = Some p -> uuid p = u /\ u <> "".

(** Whoever is marked as speaking is the current speaker. *)
Definition speakerIsCurrent (tr : t) : Prop :=
  forall u p,
    participants tr !! u = Some p -> isSpeaking p = true ->
    currentSpeaker tr = Some u.

Definition trackerInv (tr : t) : Prop := keyed tr /\ speakerIsCurrent tr.

(** What identifies an interval of the history once it is opened. *)
Definition opening (e : HistoryEntry) : string * string * Z :=
  (h_uuid e, h_displayName e, startTime e).

(** The history [h'] continues [h]: it has the intervals of [h] at the
    same places, opened as they were; those that were closed are
    unchanged. *)
Definition continues (h h' : list HistoryEntry) : Prop :=
  forall i e,
    h !! i = Some e ->
    exists e',
      h' !! i = Some e'
      /\ opening e' = opening e
      /\ (truthy_num (endTime e) = true -> e' = e).

End TrackerFacts.

(** ** services/AudioProcessor.js

    The processor keeps one [AudioBuffer] per track in a [Map], which
    iterates in insertion order: an association list with one entry per
    key.  The speaker tracker is an object shared with the code that
    feeds it events; a call receives the tracker as it is at that time
    ([None] while [participantTracker] is [null]).  The calls of the
    callback [onChunkReady] are recorded, in order, in [delivered].
    Writing WAV files and the console lines are left out. *)

Module AudioProcessor.

Record Config := {
  cfg_saveRawPCM : bool;
  cfg_chunkDurationMs : option Z;
  cfg_onChunkReady : bool
}.

(** What the media layer hands to [processAudioData]. *)
Record AudioData := {
  trackId : string;
  samples : list Z;
  sampleRate : Z
}.

(** A chunk as the callback receives it: [speaker] is the field
    [processAudioData] adds when there is a tracker. *)
Record Delivered := {
  chunk : AudioBuffer.ChunkData;
  speaker : option ParticipantTracker.SpeakerInfo
}.

Record Stats := {
  totalDataReceived : Z;
  totalChunksCreated : Z;
  activeTracks : list string;
  startTime : Z
}.

Record t := {
  buffers : list (string * AudioBuffer.t);
  saveRawPCM : bool;
  chunkDurationMs : Z;
  onChunkReady : bool;
  stats : Stats;
  delivered : list Delivered
}.

Definition new (now : Z) (config : Config) : t :=
  {| buffers := [];
     saveRawPCM := cfg_saveRawPCM config;
     chunkDurationMs := JS.num_or (cfg_chunkDurationMs config) 1000;
     onChunkReady := cfg_onChunkReady config;
     stats := {| totalDataReceived := 0; totalChunksCreated := 0;
                 activeTracks := []; startTime := now |};
     delivered := [] |}.

(** [Map.prototype.get], [set] and [delete] on the association list. *)
Fixpoint mapGet {A} (k : string) (m : list (string * A)) : option A :=
  match m with
  | [] => None
  | (k', v) :: rest => if String.eqb k' k then Some v else mapGet k rest
  end.

Fixpoint mapSet {A} (k : string) (v : A) (m : list (string * A))
  : list (string * A) :=
  match m with
  | [] => [(k, v)]
  | (k', v') :: rest =>
      if String.eqb k' k then (k', v) :: rest
      else (k', v') :: mapSet k v rest
  end.

Definition mapDelete {A} (k : string) (m : list (string * A))
  : list (string * A) :=
  List.filter (fun kv => negb (String.eqb (fst kv) k)) m.

(** [Set.prototype.add] and [delete] on the list of active tracks. *)
Definition setAdd (k : string) (s : list string) : list string :=
  if existsb (String.eqb k) s then s else s ++ [k].

Definition setDelete (k : string) (s : list string) : list string :=
  List.filter (fun k' => negb (String.eqb k' k)) s.

Definition deliver (d : Delivered) (p : t) : t :=
  {| buffers := buffers p; saveRawPCM := saveRawPCM p;
     chunkDurationMs := chunkDurationMs p; onChunkReady := onChunkReady p;
     stats := stats p;
     delivered := if onChunkReady p then delivered p ++ [d]
                  else delivered p |}.

Definition processAudioData (now : Z)
  (tracker : option ParticipantTracker.t) (audioData : AudioData) (p : t)
  : t :=
  let id := trackId audioData in
  (* get or create the buffer of this track *)
  let '(buffer, tracks) :=
    match mapGet id (buffers p) with
    | Some b => (b, activeTracks (stats p))
    | None =>
        (AudioBuffer.new now
           {| AudioBuffer.cfg_sampleRate := Some (sampleRate audioData);
              AudioBuffer.cfg_targetDurationMs := Some (chunkDurationMs p);
              AudioBuffer.cfg_trackId := id;
              AudioBuffer.cfg_saveToFile := saveRawPCM p |},
         setAdd id (activeTracks (stats p)))
    end in
  let '(oc, buffer') := AudioBuffer.addSamples now (samples audioData) buffer in
  let p1 :=
    {| buffers := mapSet id buffer' (buffers p);
       saveRawPCM := saveRawPCM p; chunkDurationMs := chunkDurationMs p;
       onChunkReady := onChunkReady p;
       stats :=
         {| totalDataReceived :=
              totalDataReceived (stats p)
              + Z.of_nat (length (samples audioData)) * 2;
            totalChunksCreated :=
              match oc with
              | Some _ => totalChunksCreated (stats p) + 1
              | None => totalChunksCreated (stats p)
              end;
            activeTracks := tracks;
            startTime := startTime (stats p) |};
       delivered := delivered p |} in
  match oc with
  | Some c =>
      deliver
        {| chunk := c;
           speaker :=
             match tracker with
             | Some tr =>
                 Some (ParticipantTracker.getSpeakerAtTime
                         (AudioBuffer.timestamp c) tr)
             | None => None
             end |} p1
  | None => p1
  end.

Definition stopTrack (now : Z) (id : string) (p : t) : t :=
  match mapGet id (buffers p) with
  | Some buffer =>
      let '(finalChunk, _) := AudioBuffer.flush now buffer in
      let p1 :=
        match finalChunk with
        | Some c => deliver {| chunk := c; speaker := None |} p
        | None => p
        end in
      {| buffers := mapDelete id (buffers p1);
         saveRawPCM := saveRawPCM p1; chunkDurationMs := chunkDurationMs p1;
         onChunkReady := onChunkReady p1;
         stats :=
           {| totalDataReceived := totalDataReceived (stats p1);
              totalChunksCreated := totalChunksCreated (stats p1);
              activeTracks := setDelete id (activeTracks (stats p1));
              startTime := startTime (stats p1) |};
         delivered := delivered p1 |}
  | None => p
  end.

(** [stop]: [for (const trackId of this.buffers.keys())
    this.stopTrack(trackId)].  [stopTrack] deletes the entry the
    iterator stands on, which does not disturb the entries still to
    come: the loop visits the keys the map had when it started. *)
Definition stop (now : Z) (p : t) : t :=
  foldl (fun acc id => stopTrack now id acc) p (map fst (buffers p)).

(** The frames of a session, each with the time of the call and the
    tracker as it is then, processed in order. *)
Definition processAll
  (frames : list (Z * option ParticipantTracker.t * AudioData)) (p : t)
  : t :=
  foldl (fun acc f => processAudioData (fst (fst f)) (snd (fst f)) (snd f) acc)
    p frames.

(** The frames of one track, as the calls of [addSamples] they cause. *)
Definition framesOf (id : string)
  (frames : list (Z * option ParticipantTracker.t * AudioData))
  : list (Z * list Z) :=
  omap (fun f =>
          if String.eqb (trackId (snd f)) id
          then Some (fst (fst f), samples (snd f)) else None) frames.

(** The buffer [processAudioData] creates for a track at its first
    frame. *)
Definition bufferFor (p : t) (id : string)
  (frames : list (Z * option ParticipantTracker.t * AudioData))
  : option AudioBuffer.t :=
  match List.filter (fun f => String.eqb (trackId (snd f)) id) frames with
  | [] => None
  | f :: _ =>
      Some (AudioBuffer.new (fst (fst f))
              {| AudioBuffer.cfg_sampleRate := Some (sampleRate (snd f));
                 AudioBuffer.cfg_targetDurationMs := Some (chunkDurationMs p);
                 AudioBuffer.cfg_trackId := id;
                 AudioBuffer.cfg_saveToFile := saveRawPCM p |})
  end.

(** The chunks delivered for one track. *)
Definition deliveredFor (id : string) (p : t) : list AudioBuffer.ChunkData :=
  List.filter (fun c => String.eqb (AudioBuffer.chunk_trackId c) id)
    (map chunk (delivered p)).

(** Every buffer of the processor is the buffer of the track it is filed
    under, and the callback is set. *)
Definition processorInv (p : t) : Prop :=
  onChunkReady p = true
  /\ forall k b, mapGet k (buffers p) = Some b -> AudioBuffer.trackId b = k.

End AudioProcessor.

(** ** More scenarios *)

Module Inputs.

(** An empty buffer with a chunk length of 2 samples. *)
Definition buffer2 : AudioBuffer.t :=
  AudioBuffer.new 0
    {| AudioBuffer.cfg_sampleRate := Some 2;
       AudioBuffer.cfg_targetDurationMs := Some 1000;
       AudioBuffer.cfg_trackId := "track";
       AudioBuffer.cfg_saveToFile := false |}.

(** One frame of five samples, then an empty one. *)
Definition frames5 : list (Z * list Z) := [(1, [1; 2; 3; 4; 5]); (2, [])].

(** Alice speaks since time 10; Bob has joined at time 2 and is silent. *)
Definition oneSpeakerAndBob : list (Z * ParticipantTracker.Event) :=
  [(1, Scenario.joined "A" "Alice"); (2, Scenario.joined "B" "Bob");
   (10, Scenario.vad "A" 100)].

(** Bob's participant object in that run. *)
Definition bob : ParticipantTracker.Participant :=
  {| ParticipantTracker.uuid := "B";
     ParticipantTracker.displayName := "Bob";
     ParticipantTracker.role := "guest";
     ParticipantTracker.joinTime := 2;
     ParticipantTracker.isSpeaking := false;
     ParticipantTracker.isMuted := None;
     ParticipantTracker.lastSpokeAt := None;
     ParticipantTracker.totalSpeakingTime := 0;
     ParticipantTracker.speakingStartTime := None |}.

(** Alice's interval, opened at time 10. *)
Definition aliceOpen : ParticipantTracker.HistoryEntry :=
  {| ParticipantTracker.h_uuid := "A";
     ParticipantTracker.h_displayName := "Alice";
     ParticipantTracker.startTime := 10;
     ParticipantTracker.endTime := None |}.

(** Four and seven 16-bit samples. *)
Definition samples4 : list Z := [0; 30; -60; 90].

Definition samples7 : list Z := [10; 11; 12; 13; 14; 15; 16].

(** A chunk that no call returns, for [default]. *)
Definition noChunk : AudioBuffer.ChunkData :=
  {| AudioBuffer.samples := []; AudioBuffer.chunk_sampleRate := 0;
     AudioBuffer.duration := 0%float; AudioBuffer.timestamp := 0;
     AudioBuffer.chunkNumber := 0; AudioBuffer.chunk_trackId := "";
     AudioBuffer.isFinal := false |}.

(** A processor configuration with a callback, and frames of two tracks
    at 2 samples per second: three samples and two more for track [a],
    one sample for track [b] in between. *)
Definition withCallback : AudioProcessor.Config :=
  {| AudioProcessor.cfg_saveRawPCM := false;
     AudioProcessor.cfg_chunkDurationMs := Some 1000;
     AudioProcessor.cfg_onChunkReady := true |}.

Definition twoTracks
  : list (Z * option ParticipantTracker.t * AudioProcessor.AudioData) :=
  [(1, None, {| AudioProcessor.trackId := "a";
                AudioProcessor.samples := [1; 2; 3];
                AudioProcessor.sampleRate := 2 |});
   (2, None, {| AudioProcessor.trackId := "b";
                AudioProcessor.samples := [7];
                AudioProcessor.sampleRate := 2 |});
   (3, None, {| AudioProcessor.trackId := "a";
                AudioProcessor.samples := [4; 5];
                AudioProcessor.sampleRate := 2 |})].

(** The buffer the processor creates for track [a] at time 1. *)
Definition bufferA : AudioBuffer.t :=
  AudioBuffer.new 1
    {| AudioBuffer.cfg_sampleRate := Some 2;
       AudioBuffer.cfg_targetDurationMs := Some 1000;
       AudioBuffer.cfg_trackId := "a";
       AudioBuffer.cfg_saveToFile := false |}.

End Inputs.

(** ** utils/AudioBuffer.js, [pcmToWav]

    A Node [Buffer] is a list of bytes, each an integer from 0 to 255. *)

Module Wav.

(** [buffer.writeUInt16LE(v, offset)] and [buffer.writeUInt32LE(v, offset)]
    store these bytes; they throw a [RangeError] when [v] is outside the
    range of the type. *)
Definition uint16LE (v : Z) : list Z :=
  [Z.land v 255; Z.land (Z.shiftr v 8) 255].

Definition uint32LE (v : Z) : list Z :=
  [Z.land v 255; Z.land (Z.shiftr v 8) 255;
   Z.land (Z.shiftr v 16) 255; Z.land (Z.shiftr v 24) 255].

Definition fitsUInt16 (v : Z) : bool := (0 <=? v) && (v <=? 65535).

Definition fitsUInt32 (v : Z) : bool := (0 <=? v) && (v <=? 4294967295).

(** [buffer.write(s, offset)] for the four tags of the header. *)
Definition tag (s : string) : list Z :=
  map (fun a => Z.of_N (Ascii.N_of_ascii a)) (String.list_ascii_of_string s).

(** [Buffer.from(pcmData.buffer)]: the memory of an [Int16Array], two
    bytes per element in two's complement, the low byte first (the byte
    order of the machines Node runs on). *)
Definition int16Bytes (x : Z) : list Z :=
  [Z.land x 255; Z.land (Z.shiftr x 8) 255].

Definition pcmBuffer (pcmData : list Z) : list Z :=
  concat (map int16Bytes pcmData).

(** [pcmToWav(pcmData, sampleRate)], with [bitsPerSample] and [channels]
    at their defaults 16 and 1, as [saveChunkAsWav] calls it.  [None]
    when one of the writes of the header throws. *)
Definition pcmToWav (pcmData : list Z) (sampleRate : Z) : option (list Z) :=
  let bitsPerSample := 16 in
  let channels := 1 in
  let bytesPerSample := bitsPerSample / 8 in
  let blockAlign := channels * bytesPerSample in
  let byteRate := sampleRate * blockAlign in
  let dataSize := Z.of_nat (length pcmData) * bytesPerSample in
  let bufferSize := 44 + dataSize in
  if fitsUInt32 (bufferSize - 8) && fitsUInt16 channels
     && fitsUInt32 sampleRate && fitsUInt32 byteRate
     && fitsUInt16 blockAlign && fitsUInt16 bitsPerSample
     && fitsUInt32 dataSize
  then
    Some (tag "RIFF" ++ uint32LE (bufferSize - 8) ++ tag "WAVE"
          ++ tag "fmt " ++ uint32LE 16 ++ uint16LE 1 ++ uint16LE channels
          ++ uint32LE sampleRate ++ uint32LE byteRate
          ++ uint16LE blockAlign ++ uint16LE bitsPerSample
          ++ tag "data" ++ uint32LE dataSize
          ++ take (Z.to_nat dataSize) (pcmBuffer pcmData))
  else None.

(** Reading a buffer back: [readUInt16LE], [readUInt32LE] and
    [readInt16LE] of Node at an offset, [None] past the end. *)
Definition readUInt16LE (b : list Z) (offset : nat) : option Z :=
  match b !! offset, b !! S offset with
  | Some b0, Some b1 => Some (b0 + 256 * b1)
  | _, _ => None
  end.

Definition readUInt32LE (b : list Z) (offset : nat) : option Z :=
  match b !! offset, b !! (offset + 1)%nat,
        b !! (offset + 2)%nat, b !! (offset + 3)%nat with
  | Some b0, Some b1, Some b2, Some b3 =>
      Some (b0 + 256 * b1 + 65536 * b2 + 16777216 * b3)
  | _, _, _, _ => None
  end.

Definition readInt16LE (b : list Z) (offset : nat) : option Z :=
  match readUInt16LE b offset with
  | Some v => Some (if 32768 <=? v then v - 65536 else v)
  | None => None
  end.

(** The 16-bit samples a buffer holds from an offset on. *)
Fixpoint int16sFrom (b : list Z) : list Z :=
  match b with
  | b0 :: b1 :: rest =>
      (let v := b0 + 256 * b1 in if 32768 <=? v then v - 65536 else v)
      :: int16sFrom rest
  | _ => []
  end.

Definition isByte (x : Z) : Prop := 0 <= x <= 255.

End Wav.

(** ** services/webrtc/WebRTCHandler.js, the life of the audio sinks

    The handler object, and the callbacks it installs on the peer
    connection, on the audio sinks and on the tracks.  What the media
    library does is an input: a callback is given the value of
    [pc.iceConnectionState] it reads, and whether [new RTCAudioSink]
    returns or throws.  Sinks are named by the order of their creation.
    The data callback of a sink, which hands the frames to [onAudioData],
    and the calls that only forward to the peer connection are left
    out. *)

Module WebRTCHandler.

Record Track := { kind : string; id : string }.

Inductive Effect :=
| NewAudioSink (sink : nat) (trackId : string)
| SinkStop (sink : nat)
| PcClose
| ConsoleLog (msg : string)
| ConsoleWarn (msg : string)
| ConsoleError (msg : string).

(** [pc] tells whether [this.pc] is a peer connection or [null];
    [audioSinks] is the [Map] from track id to sink, in insertion order;
    [sinksMade] counts the sinks constructed so far. *)
Record t := {
  pc : bool;
  audioSinks : list (string * nat);
  pendingAudioTrack : option Track;
  sinksMade : nat;
  effects : list Effect
}.

Definition new : t :=
  {| pc := false; audioSinks := []; pendingAudioTrack := None;
     sinksMade := 0; effects := [] |}.

Definition log (es : list Effect) (h : t) : t :=
  {| pc := pc h; audioSinks := audioSinks h;
     pendingAudioTrack := pendingAudioTrack h;
     sinksMade := sinksMade h; effects := effects h ++ es |}.

Definition set_pendingAudioTrack (p : option Track) (h : t) : t :=
  {| pc := pc h; audioSinks := audioSinks h;
     pendingAudioTrack := p;
     sinksMade := sinksMade h; effects := effects h |}.

Definition set_pc (b : bool) (h : t) : t :=
  {| pc := b; audioSinks := audioSinks h;
     pendingAudioTrack := pendingAudioTrack h;
     sinksMade := sinksMade h; effects := effects h |}.

Definition set_audioSinks (m : list (string * nat)) (h : t) : t :=
  {| pc := pc h; audioSinks := m;
     pendingAudioTrack := pendingAudioTrack h;
     sinksMade := sinksMade h; effects := effects h |}.

(** [createPeerConnection(iceServers)]: a new peer connection takes the
    place of [this.pc]. *)
Definition createPeerConnection (h : t) : t :=
  log [ConsoleLog "WebRTC: Added audio transceiver (receive-only)"]
    (set_pc true h).

(** [isConnected()]; [state] is [this.pc.iceConnectionState], read when
    [this.pc] is not [null]. *)
Definition isConnected (state : string) (h : t) : bool :=
  pc h && (String.eqb state "connected" || String.eqb state "completed").

(** [attachAudioSink(track)]; [sinkOk] tells whether
    [new RTCAudioSink(track)] returns. *)
Definition attachAudioSink (track : Track) (sinkOk : bool) (h : t) : t :=
  let h1 := log [ConsoleLog "WebRTC: Attaching audio sink to track"] h in
  if sinkOk then
    log [ConsoleLog "WebRTC: Audio sink attached successfully"]
      {| pc := pc h1;
         audioSinks :=
           AudioProcessor.mapSet (id track) (sinksMade h1) (audioSinks h1);
         pendingAudioTrack := pendingAudioTrack h1;
         sinksMade := S (sinksMade h1);
         effects := effects h1 ++ [NewAudioSink (sinksMade h1) (id track)] |}
  else log [ConsoleError "WebRTC: Failed to attach audio sink:"] h1.

(** The callback [pc.ontrack]. *)
Definition ontrack (track : Track) (state : string) (sinkOk : bool) (h : t)
  : t :=
  if String.eqb (kind track) "audio" then
    let h1 := log [ConsoleLog "WebRTC: Received audio track"] h in
    if isConnected state h1 then attachAudioSink track sinkOk h1
    else
      set_pendingAudioTrack (Some track)
        (log [ConsoleLog "WebRTC: Waiting for ICE connection..."] h1)
  else h.

(** The callback [pc.oniceconnectionstatechange]. *)
Definition oniceconnectionstatechange (state : string) (sinkOk : bool)
  (h : t) : t :=
  if negb (pc h) then h
  else
    let h1 := log [ConsoleLog "WebRTC: ICE state changed to"] h in
    if String.eqb state "checking" then
      log [ConsoleLog "Establishing connection to Pexip media server..."] h1
    else if String.eqb state "connected" || String.eqb state "completed"
    then
      let h2 :=
        log [ConsoleLog "WebRTC: Media connection established"] h1 in
      match pendingAudioTrack h2 with
      | Some track =>
          set_pendingAudioTrack None
            (attachAudioSink track sinkOk
               (log [ConsoleLog "WebRTC: Attaching pending audio sink"] h2))
      | None => h2
      end
    else if String.eqb state "failed" then
      log [ConsoleError "WebRTC: Connection failed";
           ConsoleError "  Try: 1) Check firewall settings";
           ConsoleError "       2) Ensure UDP ports are open";
           ConsoleError "       3) Try a different network"] h1
    else if String.eqb state "disconnected" then
      log [ConsoleWarn "WebRTC: Connection lost - may reconnect..."] h1
    else h1.

(** [cleanup(trackId)]; without an argument [trackId] is [null]. *)
Definition cleanup (trackId : option string) (h : t) : t :=
  if JS.truthy trackId then
    match AudioProcessor.mapGet (default "" trackId) (audioSinks h) with
    | Some sink =>
        set_audioSinks
          (AudioProcessor.mapDelete (default "" trackId) (audioSinks h))
          (log [SinkStop sink] h)
    | None => h
    end
  else
    set_audioSinks []
      (log (map (fun kv => SinkStop (snd kv)) (audioSinks h)) h).

(** The callback [track.onended] that [attachAudioSink] installs. *)
Definition onended (trackId : string) (h : t) : t :=
  cleanup (Some trackId)
    (log [ConsoleLog "WebRTC: Track ended"] h).

(** [disconnect()]; [closeOk] tells whether [pc.close()] returns. *)
Definition disconnect (closeOk : bool) (h : t) : t :=
  let h1 := cleanup None (log [ConsoleLog "WebRTC: Disconnecting..."] h) in
  if pc h1 then
    set_pc false
      (if closeOk
       then log [PcClose; ConsoleLog "WebRTC: Peer connection closed"] h1
       else log [ConsoleError "WebRTC: Error closing connection:"] h1)
  else h1.

(** The calls a handler object receives: from its owner, and of its
    callbacks by the media library. *)
Inductive Call :=
| CreatePeerConnection
| OnTrack (track : Track) (state : string) (sinkOk : bool)
| OnIceConnectionStateChange (state : string) (sinkOk : bool)
| OnEnded (trackId : string)
| Disconnect (closeOk : bool).

Definition step (h : t) (c : Call) : t :=
  match c with
  | CreatePeerConnection => createPeerConnection h
  | OnTrack track state sinkOk => ontrack track state sinkOk h
  | OnIceConnectionStateChange state sinkOk =>
      oniceconnectionstatechange state sinkOk h
  | OnEnded trackId => onended trackId h
  | Disconnect closeOk => disconnect closeOk h
  end.

Definition run (cs : list Call) (h : t) : t := foldl step h cs.

(** The sinks stopped, and the sinks made, among some effects. *)
Definition stopped (es : list Effect) : list nat :=
  omap (fun e => match e with SinkStop n => Some n | _ => None end) es.

Definition made (es : list Effect) : list (nat * string) :=
  omap (fun e =>
          match e with
          | NewAudioSink n trackId => Some (n, trackId)
          | _ => None
          end) es.

(** The sinks the map holds. *)
Definition sinksHeld (h : t) : list nat := snd <$> audioSinks h.

(** An audio track that arrives while the connection is not
    established. *)
Definition arrivesEarly (a : Track * string * bool) : Call :=
  OnTrack (fst (fst a)) (snd (fst a)) (snd a).

Definition early (a : Track * string * bool) : Prop :=
  kind (fst (fst a)) = "audio"
  /\ (String.eqb (snd (fst a)) "connected"
      || String.eqb (snd (fst a)) "completed") = false.

(** A sink that has been made, is not in the map, and has not been
    stopped. *)
Definition lost (n : nat) (h : t) : Prop :=
  (n < sinksMade h)%nat /\ (n ∉ sinksHeld h) /\ (n ∉ stopped (effects h)).

(** What holds of a handler object at all times: the sinks of the map
    are distinct, have been made and not been stopped, and no sink has
    been stopped twice. *)
Definition sinksInv (h : t) : Prop :=
  NoDup (sinksHeld h)
  /\ NoDup (stopped (effects h))
  /\ (forall n, n ∈ sinksHeld h ->
                (n < sinksMade h)%nat /\ (n ∉ stopped (effects h)))
  /\ (forall n, n ∈ stopped (effects h) -> (n < sinksMade h)%nat).

End WebRTCHandler.

(** ** Scenarios of the media layer *)

Module Media.

Definition audioTrack (id : string) : WebRTCHandler.Track :=
  {| WebRTCHandler.kind := "audio"; WebRTCHandler.id := id |}.

(** A peer connection is created, and the track [a] arrives on the
    established connection. *)
Definition trackOnConnected : list WebRTCHandler.Call :=
  [WebRTCHandler.CreatePeerConnection;
   WebRTCHandler.OnTrack (audioTrack "a") "connected" true].

(** A handler object with a peer connection and nothing else. *)
Definition created : WebRTCHandler.t :=
  WebRTCHandler.run [WebRTCHandler.CreatePeerConnection] WebRTCHandler.new.

End Media.

(** ** services/pexip/PexipConnection.js, token refresh and event polling

    An [async] function runs up to its first [await] when it is called,
    and resumes when the awaited request settles: each has a part up to
    the request, which tells whether the request is sent, and a part that
    is given how the request settles. *)

Module PexipSession.

Import Pexip.

(** How an awaited [axios] request settles, with the default
    [validateStatus]. *)
Definition settled (o : HttpOutcome) : M Z :=
  match o with
  | Status c =>
      if (200 <=? c) && (c <? 300) then ret c
      else throw {| message := "Request failed with status code";
                    response_status := Some c |}
  | NoResponse =>
      throw {| message := "Network Error"; response_status := None |}
  end.

(** [response.data.result] of an answer to [refresh_token].  [r_expires]
    is [None] when [result.expires] is falsy, and otherwise the integer
    that [parseInt] reads from it. *)
Record RefreshResult := {
  r_token : option string;
  r_expires : option Z
}.

(** [PexipApiClient.refreshToken()] up to its request. *)
Definition refreshToken_begin : M unit :=
  tok <- gets (fun w => token (api w)) ;;
  if negb (JS.truthy tok)
  then throw {| message := "No token to refresh"; response_status := None |}
  else emit (ConsoleLog "Refreshing Pexip token...").

(** [refreshToken()] from the moment its request settles; it returns
    [expires]. *)
Definition refreshToken_returned (o : HttpOutcome) (result : RefreshResult)
  : M Z :=
  tryCatch
    (status <- settled o ;;
     if negb (status =? 200)
     then throw {| message := "Token refresh failed: status";
                   response_status := None |}
     else
       modify (fun w =>
         set_api {| token := r_token result;
                    participantUuid := participantUuid (api w) |} w) ;;;
       emit (ConsoleLog "Token refreshed, expires in:") ;;;
       ret (default 120 (r_expires result)))
    (fun error => emit (ConsoleError "Token refresh failed:") ;;; throw error).

(** The callback that [startTokenRefresh] gives to [setTimeout], up to
    the request of [refreshToken]; the result tells whether the request
    is sent. *)
Definition refreshTimer_fired : M bool :=
  running <- gets isRunning ;;
  if negb running then ret false
  else
    tryCatch
      (refreshToken_begin ;;; ret true)
      (fun error => emit (ConsoleError "Token refresh failed:") ;;; ret false).

(** The callback from the moment the request settles. *)
Definition refreshTimer_returned (o : HttpOutcome) (result : RefreshResult)
  : M unit :=
  tryCatch
    (expires <- refreshToken_returned o result ;;
     emit (ConsoleLog "Token refreshed successfully") ;;;
     startTokenRefresh expires)
    (fun error => emit (ConsoleError "Token refresh failed:")).

(** [pollEvents], the function [startEventPolling] defines, up to its
    request [getEvents]; the result tells whether the request is sent. *)
Definition pollEvents_begin : M bool := gets isRunning.

(** The end of [pollEvents], after the [try] statement. *)
Definition pollEvents_end : M unit :=
  running <- gets isRunning ;;
  when running
    (emit (SetTimeout EventPollTimeout 100) ;;;
     modify (set_eventPollTimeout true)).

Definition startEventPolling : M bool := pollEvents_begin.

(** [response.data.result] of an answer to [request_token].
    [t_expires] is [None] when [result.expires] is falsy, and otherwise
    the integer that [parseInt] reads from it. *)
Record TokenResult := {
  t_token : option string;
  t_participant_uuid : option string;
  t_expires : option Z
}.

(** [PexipApiClient.handleTokenResponse(response)], with which
    [requestToken] ends; it returns [expires].  The TURN servers, which
    go to the peer connection, and the console line about them are left
    out. *)
Definition handleTokenResponse (result : TokenResult) : M Z :=
  modify (set_api {| token := t_token result;
                     participantUuid := t_participant_uuid result |}) ;;;
  emit (ConsoleLog "Token obtained, participant UUID:") ;;;
  ret (default 120 (t_expires result)).

(** [connect] from the moment the request of [requestToken] is answered
    with the token: the client stores it, and [connect] resumes and sets
    the refresh timer. *)
Definition connect_tokenReturned (result : TokenResult) : M unit :=
  expires <- handleTokenResponse result ;;
  startTokenRefresh expires.

(** [connect] resumes after [await this.api.sendAck(callUuid)]; the
    result tells whether a request [getEvents] is under way.  The timer
    of 5 seconds it sets only writes to the console. *)
Definition connect_acked : M bool :=
  polling <- startEventPolling ;;
  modify (set_isRunning true) ;;;
  emit (ConsoleLog "Successfully connected to conference") ;;;
  ret polling.

Definition isPollTimer (e : Effect) : bool :=
  match e with
  | SetTimeout EventPollTimeout _ => true
  | _ => false
  end.

Definition isRefreshTimer (e : Effect) : bool :=
  match e with
  | SetTimeout TokenRefreshTimer _ => true
  | _ => false
  end.

End PexipSession.

(** ** services/AudioProcessor.js, the calls a processor receives *)

Module ProcessorRun.

Import AudioProcessor.

Inductive Call :=
| ProcessAudioData (now : Z) (tracker : option ParticipantTracker.t)
    (audioData : AudioData)
| StopTrack (now : Z) (id : string)
| Stop (now : Z).

Definition step (p : t) (c : Call) : t :=
  match c with
  | ProcessAudioData now tracker audioData =>
      processAudioData now tracker audioData p
  | StopTrack now id => stopTrack now id p
  | Stop now => stop now p
  end.

Definition run (cs : list Call) (p : t) : t := foldl step p cs.

(** Two bytes for every sample handed to [processAudioData]. *)
Definition bytesReceived (cs : list Call) : Z :=
  foldr (fun c acc =>
           match c with
           | ProcessAudioData _ _ audioData =>
               Z.of_nat (length (samples audioData)) * 2 + acc
           | _ => acc
           end) 0 cs.

(** The chunks of full length among those the callback has received. *)
Definition fullChunks (p : t) : list Delivered :=
  List.filter (fun d => negb (AudioBuffer.isFinal (chunk d))) (delivered p).

End ProcessorRun.

(** ** services/ParticipantTracker.js, the speaking time *)

Module TrackerTime.

Import ParticipantTracker.

(** The clock does not go back: each event is handled at a time that is
    not before the time [t] of what came before it. *)
Fixpoint clockAdvances (t : Z) (evs : list (Z * Event)) : Prop :=
  match evs with
  | [] => True
  | ev :: rest => t <= fst ev /\ clockAdvances (fst ev) rest
  end.

(** The time of the last event. *)
Definition lastTime (t : Z) (evs : list (Z * Event)) : Z :=
  default t (last (map fst evs)).

(** At time [now], the speaking time of a participant is accounted for:
    it is not negative and not more than the time since the participant
    has joined; and the same held when the participant started to speak,
    which was not after [now]. *)
Definition accounted (now : Z) (p : Participant) : Prop :=
  0 <= totalSpeakingTime p <= now - joinTime p
  /\ forall s, speakingStartTime p = Some s ->
               s <= now /\ totalSpeakingTime p <= s - joinTime p.

Definition allAccounted (now : Z) (tr : t) : Prop :=
  forall u p, participants tr !! u = Some p -> accounted now p.

End TrackerTime.

(** ** A participant of the scenarios *)

Module Speakers.

(** Alice in [Scenario.oneSpeakerStopped]: she joined at time 1 and has
    spoken from 10 to 20. *)
Definition aliceAfterTalk : ParticipantTracker.Participant :=
  {| ParticipantTracker.uuid := "A";
     ParticipantTracker.displayName := "Alice";
     ParticipantTracker.role := "guest";
     ParticipantTracker.joinTime := 1;
     ParticipantTracker.isSpeaking := false;
     ParticipantTracker.isMuted := None;
     ParticipantTracker.lastSpokeAt := Some 10;
     ParticipantTracker.totalSpeakingTime := 10;
     ParticipantTracker.speakingStartTime := None |}.

End Speakers.

(** * Properties *)

(** *** Sanity checks of the AudioBuffer model *)

Example new_default_targetSamples :
AudioBuffer.targetSamples
  (AudioBuffer.new 0 {| AudioBuffer.cfg_sampleRate := None;
                        AudioBuffer.cfg_targetDurationMs := None;
                        AudioBuffer.cfg_trackId := "t";
                        AudioBuffer.cfg_saveToFile := false |}) = 48000.
Proof. vm_compute. reflexivity. Qed.

Example new_16k_100ms_targetSamples :
AudioBuffer.computeTargetSamples 16000 100 = 1600.
Proof. vm_compute. reflexivity. Qed.

(** The chunk length is the floor of a binary64 product, and can be one
    less than the floor of the exact [sampleRate * targetDurationMs / 1000]:
    72 ms at 48000 Hz are 3456 samples, and the chunk length is 3455;
    290 ms are 13920 samples, and the chunk length is 13919. *)
Example computeTargetSamples_below_exact :
AudioBuffer.computeTargetSamples 48000 72 = 3455
/\ 48000 * 72 / 1000 = 3456
/\ AudioBuffer.computeTargetSamples 48000 290 = 13919
/\ 48000 * 290 / 1000 = 13920.
Proof. vm_compute. repeat split; reflexivity. Qed.

(** ** Properties of the audio buffer *)

Section AudioBufferFacts.

Import AudioBuffer.

Local Abbreviation len l := (Z.of_nat (length l)).

Lemma toInt16_id (x : Z) : JS.is_int16 x -> JS.toInt16 x = x.
Proof.
  unfold JS.is_int16, JS.toInt16. intros H.
  rewrite Z.mod_small by lia. lia.
Qed.

Lemma map_toInt16_id (l : list Z) :
  Forall JS.is_int16 l -> map JS.toInt16 l = l.
Proof.
  induction 1 as [|x l Hx _ IH]; simpl; [done|].
  by rewrite toInt16_id, IH.
Qed.

(** The two outcomes of [addSamples], by the test on the buffer length. *)
Lemma addSamples_chunk now f b :
  targetSamples b <= len (buffer b ++ f) ->
  exists c b',
    addSamples now f b = (Some c, b')
    /\ samples c =
         map JS.toInt16 (take (Z.to_nat (targetSamples b)) (buffer b ++ f))
    /\ chunkNumber c = chunksCreated (stats b) + 1
    /\ isFinal c = false
    /\ buffer b' = drop (Z.to_nat (targetSamples b)) (buffer b ++ f)
    /\ targetSamples b' = targetSamples b
    /\ chunksCreated (stats b') = chunksCreated (stats b) + 1.
Proof.
  intros H. unfold addSamples. simpl.
  destruct (Z.leb_spec (targetSamples b) (len (buffer b ++ f))); [|lia].
  unfold createChunk, splice0. simpl. eauto 10.
Qed.

Lemma addSamples_none now f b :
  len (buffer b ++ f) < targetSamples b ->
  exists b',
    addSamples now f b = (None, b')
    /\ buffer b' = buffer b ++ f
    /\ targetSamples b' = targetSamples b
    /\ chunksCreated (stats b') = chunksCreated (stats b).
Proof.
  intros H. unfold addSamples. simpl.
  destruct (Z.leb_spec (targetSamples b) (len (buffer b ++ f))); [lia|].
  eauto 10.
Qed.

Lemma length_concat_chunks (cs : list ChunkData) (T : Z) :
  Forall (fun c => len (samples c) = T) cs ->
  len (concat (map samples cs)) = len cs * T.
Proof.
  induction 1 as [|c cs Hc _ IH]; simpl; [lia|].
  rewrite length_app. lia.
Qed.

(** What a run of [addSamples] over frames that each bring at most one
    chunk length keeps true. *)
Lemma addSamplesAll_invariant (frames : list (Z * list Z)) :
  forall (b : t) (T : Z),
    targetSamples b = T -> 0 < T -> len (buffer b) < T ->
    Forall (fun f => len (snd f) <= T) frames ->
    forall cs b', addSamplesAll frames b = (cs, b') ->
      targetSamples b' = T
      /\ len (buffer b') < T
      /\ Forall (fun c => len (samples c) = T) cs
      /\ concat (map samples cs) ++ map JS.toInt16 (buffer b')
         = map JS.toInt16 (buffer b ++ concat (map snd frames))
      /\ map chunkNumber cs
         = map (fun i => chunksCreated (stats b) + 1 + Z.of_nat i)
             (seq 0 (length cs))
      /\ chunksCreated (stats b') = chunksCreated (stats b) + len cs.
Proof.
  induction frames as [|[now f] frames IH]; intros b T HT Hpos Hlt Hall cs b' Hrun.
  - simpl in Hrun. injection Hrun as <- <-. simpl.
    rewrite app_nil_r. repeat split; auto; lia.
  - apply Forall_cons in Hall as [Hf Hall]. simpl in Hf.
    simpl in Hrun.
    destruct (Z.le_gt_cases T (len (buffer b ++ f))) as [Hge|Hless].
    + destruct (addSamples_chunk now f b) as (c & b1 & E & Hs & Hn & _ & Hb & Ht & Hc);
        [lia|].
      rewrite E in Hrun.
      destruct (addSamplesAll frames b1) as [cs1 b2] eqn:E1.
      injection Hrun as <- <-.
      rewrite length_app in Hge.
      assert (Hlen1 : len (buffer b1) < T).
      { rewrite Hb, length_drop, length_app. lia. }
      destruct (IH b1 T) with (cs := cs1) (b' := b2)
        as (H1 & H2 & H3 & H4 & H5 & H6); auto; [lia|].
      assert (Hlc : len (samples c) = T).
      { rewrite Hs, length_map, length_take, length_app. lia. }
      repeat split; auto.
      * simpl. rewrite <- app_assoc, H4, Hs, Hb, HT.
        rewrite <- map_app, (app_assoc (take _ _)), take_drop.
        by rewrite <- app_assoc.
      * simpl. f_equal; [lia|].
        rewrite H5, <- seq_shift, map_map.
        apply map_ext. intros i. lia.
      * simpl length. lia.
    + destruct (addSamples_none now f b) as (b1 & E & Hb & Ht & Hc); [lia|].
      rewrite E in Hrun.
      destruct (addSamplesAll frames b1) as [cs1 b2] eqn:E1.
      injection Hrun as <- <-.
      destruct (IH b1 T) with (cs := cs1) (b' := b2)
        as (H1 & H2 & H3 & H4 & H5 & H6); auto; try lia.
      { rewrite Hb. lia. }
      repeat split; auto.
      * rewrite H4, Hb. simpl. by rewrite <- app_assoc.
      * rewrite H5, Hc. done.
      * lia.
Qed.

End AudioBufferFacts.

Section AudioBufferClaims.

Import AudioBuffer.

Local Abbreviation len l := (Z.of_nat (length l)).

Lemma consecutive_sorted (c : Z) (n : nat) :
  StronglySorted Z.lt (map (fun i => c + 1 + Z.of_nat i) (seq 0 n)).
Proof.
  generalize 0%nat as k.
  induction n as [|n IH]; intros k; simpl; constructor; [apply IH|].
  apply List.Forall_forall. intros x Hx.
  apply in_map_iff in Hx as (i & <- & Hi).
  apply in_seq in Hi. lia.
Qed.

(** C3, as amended.  When every call of [addSamples] brings at most
    [targetSamples] samples and the calls bring [N * targetSamples]
    samples in total to a buffer that starts empty, exactly [N] chunks
    come out; each holds [targetSamples] samples; put end to end the
    chunks are the input, in order, nothing lost and nothing repeated
    (each sample stored as a 16-bit integer, so unchanged when it is
    one); the chunk numbers are consecutive, hence strictly increasing;
    and nothing stays in the buffer. *)
Theorem C3_small_frames_give_exactly_N_chunks
  (b : t) (frames : list (Z * list Z)) (N : nat) :
  0 < targetSamples b ->
  buffer b = [] ->
  Forall (fun f => len (snd f) <= targetSamples b) frames ->
  len (concat (map snd frames)) = Z.of_nat N * targetSamples b ->
  exists cs b',
    addSamplesAll frames b = (cs, b')
    /\ length cs = N
    /\ Forall (fun c => len (samples c) = targetSamples b) cs
    /\ concat (map samples cs) = map JS.toInt16 (concat (map snd frames))
    /\ (Forall JS.is_int16 (concat (map snd frames)) ->
        concat (map samples cs) = concat (map snd frames))
    /\ map chunkNumber cs
       = map (fun i => chunksCreated (stats b) + 1 + Z.of_nat i) (seq 0 N)
    /\ StronglySorted Z.lt (map chunkNumber cs)
    /\ buffer b' = [].
Proof.
  intros Hpos Hempty Hsmall Htotal.
  destruct (addSamplesAll frames b) as [cs b'] eqn:Hrun.
  destruct (addSamplesAll_invariant frames b (targetSamples b))
    with (cs := cs) (b' := b')
    as (HT & Hlt & Hlen & Hcat & Hnum & Hcnt); auto.
  { rewrite Hempty. simpl. lia. }
  rewrite Hempty in Hcat. simpl in Hcat.
  assert (Hsizes : len cs * targetSamples b + len (buffer b')
                   = Z.of_nat N * targetSamples b).
  { rewrite <- Htotal, <- (length_concat_chunks cs _ Hlen).
    rewrite <- (length_map JS.toInt16 (concat (map snd frames))), <- Hcat.
    rewrite length_app, length_map. lia. }
  assert (HN : length cs = N) by nia.
  assert (Hnil : buffer b' = []).
  { apply length_zero_iff_nil. nia. }
  rewrite Hnil in Hcat. simpl in Hcat. rewrite app_nil_r in Hcat.
  exists cs, b'. subst N.
  repeat split; auto.
  - intros Hint. rewrite Hcat. by apply map_toInt16_id.
  - rewrite Hnum. apply consecutive_sorted.
Qed.

(** C3, as amended, on a run of three frames for a chunk length of 2. *)
Lemma C3_small_frames_witness :
  exists cs b',
    addSamplesAll [(1, [10; 20]); (2, [30]); (3, [40])]
      (new 0 {| cfg_sampleRate := Some 2;
                cfg_targetDurationMs := Some 1000;
                cfg_trackId := "track"; cfg_saveToFile := false |})
    = (cs, b')
    /\ length cs = 2%nat
    /\ Forall (fun c => len (samples c) = 2) cs
    /\ concat (map samples cs) = map JS.toInt16 [10; 20; 30; 40]
    /\ (Forall JS.is_int16 [10; 20; 30; 40] ->
        concat (map samples cs) = [10; 20; 30; 40])
    /\ map chunkNumber cs = [1; 2]
    /\ StronglySorted Z.lt (map chunkNumber cs)
    /\ buffer b' = [].
Proof.
  apply (C3_small_frames_give_exactly_N_chunks
           (new 0 {| cfg_sampleRate := Some 2;
                     cfg_targetDurationMs := Some 1000;
                     cfg_trackId := "track"; cfg_saveToFile := false |})
           [(1, [10; 20]); (2, [30]); (3, [40])] 2).
  - vm_compute. reflexivity.
  - reflexivity.
  - repeat constructor; vm_compute; discriminate.
  - vm_compute. reflexivity.
Defined.

(** C3, counterexample.  With a chunk length of 2 samples, feeding
    2 x 2 = 4 samples in one call of [addSamples] produces one chunk, not
    two: the other two samples stay in the buffer. *)
Lemma C3_counterexample_one_large_frame :
  targetSamples
    (new 0 {| cfg_sampleRate := Some 2; cfg_targetDurationMs := Some 1000;
              cfg_trackId := "track"; cfg_saveToFile := false |}) = 2
  /\ len (concat (map snd [(1, [10; 20; 30; 40])])) = 2 * 2
  /\ map samples
       (fst (addSamplesAll [(1, [10; 20; 30; 40])]
               (new 0 {| cfg_sampleRate := Some 2;
                         cfg_targetDurationMs := Some 1000;
                         cfg_trackId := "track";
                         cfg_saveToFile := false |})))
     = [[10; 20]]
  /\ buffer
       (snd (addSamplesAll [(1, [10; 20; 30; 40])]
               (new 0 {| cfg_sampleRate := Some 2;
                         cfg_targetDurationMs := Some 1000;
                         cfg_trackId := "track";
                         cfg_saveToFile := false |})))
     = [30; 40].
Proof. vm_compute. auto. Qed.

(** C10.  One call of [addSamples] returns one chunk or [null], never
    more.  It returns a chunk exactly when the buffer, after the new
    samples are appended, holds at least [targetSamples] samples; the
    chunk is the first [targetSamples] of them and all the others stay
    in the buffer.  When the buffer held two chunk lengths or more, at
    least one chunk length stays behind, and it is the next call (even
    one that adds nothing) that emits the next chunk. *)
Theorem C10_addSamples_emits_at_most_one_chunk
  (now : Z) (f : list Z) (b : t) :
  match addSamples now f b with
  | (Some c, b') =>
      targetSamples b <= len (buffer b ++ f)
      /\ samples c
         = map JS.toInt16 (take (Z.to_nat (targetSamples b)) (buffer b ++ f))
      /\ buffer b' = drop (Z.to_nat (targetSamples b)) (buffer b ++ f)
      /\ (2 * targetSamples b <= len (buffer b ++ f) ->
          targetSamples b <= len (buffer b')
          /\ forall now', exists c2 b2,
               addSamples now' [] b' = (Some c2, b2)
               /\ samples c2
                  = map JS.toInt16
                      (take (Z.to_nat (targetSamples b))
                         (drop (Z.to_nat (targetSamples b))
                            (buffer b ++ f))))
  | (None, b') =>
      len (buffer b ++ f) < targetSamples b
      /\ buffer b' = buffer b ++ f
  end.
Proof.
  destruct (Z.le_gt_cases (targetSamples b) (len (buffer b ++ f)))
    as [Hge|Hlt].
  - destruct (addSamples_chunk now f b Hge)
      as (c & b' & -> & Hs & _ & _ & Hb & Ht & _).
    repeat split; auto.
    + rewrite Hb, length_drop. lia.
    + intros now'.
      destruct (addSamples_chunk now' [] b')
        as (c2 & b2 & E & Hs2 & _); [|exists c2, b2; split; [done|]].
      * rewrite app_nil_r, Ht, Hb, length_drop. lia.
      * by rewrite Hs2, app_nil_r, Ht, Hb.
  - destruct (addSamples_none now f b) as (b' & -> & Hb & _); [lia|].
    split; [lia|done].
Qed.

(** C6.  With [K] samples in the buffer, [0 < K < targetSamples],
    [flush] returns one chunk: it holds those [K] samples and is marked
    [isFinal].  The buffer is empty afterwards, so that neither another
    [flush] nor an [addSamples] that adds nothing returns a chunk.  On
    any empty buffer [flush] returns [null] and changes nothing. *)
Theorem C6_flush_emits_the_remainder_once
  (now : Z) (b : t) (K : Z) :
  0 < K -> K < targetSamples b -> len (buffer b) = K ->
  exists c b',
    flush now b = (Some c, b')
    /\ samples c = map JS.toInt16 (buffer b)
    /\ len (samples c) = K
    /\ isFinal c = true
    /\ buffer b' = []
    /\ (forall now', flush now' b' = (None, b'))
    /\ (forall now', addSamples now' [] b' = (None, b'))
    /\ (forall now' b0, buffer b0 = [] -> flush now' b0 = (None, b0)).
Proof.
  intros HK HT Hlen. unfold flush.
  destruct (Z.ltb_spec 0 (len (buffer b))); [|lia].
  eexists _, _. split; [reflexivity|]. simpl.
  repeat split.
  - rewrite length_map. lia.
  - intros now'. destruct b as [? ? T ? ? ? []]. simpl in *.
    unfold addSamples, set_stats, set_buffer. simpl.
    destruct (Z.leb_spec T (Z.of_nat 0)); [lia|].
    by rewrite Z.add_0_r.
  - intros now' b0 ->. reflexivity.
Qed.

(** C6 on a buffer of chunk length 5 that holds three samples. *)
Lemma C6_flush_witness :
  exists c b',
    flush 9 (snd (addSamples 1 [7; 8; 9]
                    (new 0 {| cfg_sampleRate := Some 5;
                              cfg_targetDurationMs := Some 1000;
                              cfg_trackId := "track";
                              cfg_saveToFile := false |})))
    = (Some c, b')
    /\ samples c = map JS.toInt16 [7; 8; 9]
    /\ len (samples c) = 3
    /\ isFinal c = true
    /\ buffer b' = []
    /\ (forall now', flush now' b' = (None, b'))
    /\ (forall now', addSamples now' [] b' = (None, b'))
    /\ (forall now' b0, buffer b0 = [] -> flush now' b0 = (None, b0)).
Proof.
  apply (C6_flush_emits_the_remainder_once 9
           (snd (addSamples 1 [7; 8; 9]
                   (new 0 {| cfg_sampleRate := Some 5;
                             cfg_targetDurationMs := Some 1000;
                             cfg_trackId := "track";
                             cfg_saveToFile := false |}))) 3).
  - lia.
  - vm_compute. reflexivity.
  - vm_compute. reflexivity.
Defined.

End AudioBufferClaims.

(** ** Properties of the resampler *)

Section ResamplerClaims.

Import Resampler.

Lemma len_nonneg (l : list Z) : 0 <= len l.
Proof. unfold len. lia. Qed.

Lemma len_fillInt16 (n : Z) (f : Z -> Z) : len (fillInt16 n f) = Z.max 0 n.
Proof. unfold len, fillInt16. rewrite length_map, length_seq. lia. Qed.

Lemma len_48_16 l : len (resampleAudio l 48000 16000) = len l / 3.
Proof.
  change (resampleAudio l 48000 16000) with (downsample48to16 l).
  unfold downsample48to16. rewrite len_fillInt16.
  pose proof (len_nonneg l). pose proof (Z.div_pos (len l) 3). lia.
Qed.

Lemma len_48_24 l : len (resampleAudio l 48000 24000) = len l / 2.
Proof.
  change (resampleAudio l 48000 24000) with (downsample48to24 l).
  unfold downsample48to24. rewrite len_fillInt16.
  pose proof (len_nonneg l). pose proof (Z.div_pos (len l) 2). lia.
Qed.

Lemma len_16_24 l : len (resampleAudio l 16000 24000) = len l * 3 / 2.
Proof.
  change (resampleAudio l 16000 24000) with (upsample16to24 l).
  unfold upsample16to24. rewrite len_fillInt16.
  pose proof (len_nonneg l). pose proof (Z.div_pos (len l * 3) 2). lia.
Qed.

Lemma len_16_48 l : len (resampleAudio l 16000 48000) = 3 * len l.
Proof.
  change (resampleAudio l 16000 48000) with (resampleGeneric l 16000 48000).
  unfold resampleGeneric, genericOutputLength. rewrite len_fillInt16.
  pose proof (len_nonneg l).
  replace (len l * 48000) with (3 * len l * 16000) by lia.
  rewrite Z.div_mul by lia. lia.
Qed.

Lemma len_24_48 l : len (resampleAudio l 24000 48000) = 2 * len l.
Proof.
  change (resampleAudio l 24000 48000) with (resampleGeneric l 24000 48000).
  unfold resampleGeneric, genericOutputLength. rewrite len_fillInt16.
  pose proof (len_nonneg l).
  replace (len l * 48000) with (2 * len l * 24000) by lia.
  rewrite Z.div_mul by lia. lia.
Qed.

Lemma len_24_16 l : len (resampleAudio l 24000 16000) = 2 * len l / 3.
Proof.
  change (resampleAudio l 24000 16000) with (resampleGeneric l 24000 16000).
  unfold resampleGeneric, genericOutputLength. rewrite len_fillInt16.
  pose proof (len_nonneg l).
  replace (len l * 16000) with (2 * len l * 8000) by lia.
  change 24000 with (3 * 8000).
  rewrite Z.div_mul_cancel_r by lia.
  pose proof (Z.div_pos (2 * len l) 3). lia.
Qed.

(** C7, as amended.  For each of the six supported directions, resampling
    to the target rate and back never yields more samples than the input
    had, and loses at most 2 of them; it loses at most 1 in every
    direction but 48000 -> 16000 -> 48000, where the result has
    [3 * floor (N / 3)] samples. *)
Theorem C7_round_trip_length
  (samples : list Z) (fromRate toRate : Z) :
  In (fromRate, toRate) supported_pairs ->
  len (roundTrip samples fromRate toRate) <= len samples
  /\ len samples - len (roundTrip samples fromRate toRate) <= 2
  /\ ((fromRate, toRate) <> (48000, 16000) ->
      len samples - len (roundTrip samples fromRate toRate) <= 1)
  /\ len (roundTrip samples 48000 16000) = 3 * (len samples / 3).
Proof.
  intros Hin. pose proof (len_nonneg samples) as Hn.
  assert (H3 : len (roundTrip samples 48000 16000) = 3 * (len samples / 3)).
  { unfold roundTrip. by rewrite len_16_48, len_48_16. }
  unfold supported_pairs in Hin. simpl in Hin.
  destruct Hin as [E|[E|[E|[E|[E|[E|[]]]]]]]; injection E as <- <-;
    unfold roundTrip in *;
    repeat (rewrite len_16_48 in * || rewrite len_48_16 in *
            || rewrite len_24_48 in * || rewrite len_48_24 in *
            || rewrite len_16_24 in * || rewrite len_24_16 in * );
    (split; [|split; [|split; [intros Hne; try congruence|assumption]]]).
  all: clear H3; revert Hn; generalize (len samples); intros n Hn.
  all: Z.to_euclidean_division_equations; lia.
Qed.

(** C7, as amended, on seven samples from 16000 Hz to 24000 Hz and back. *)
Lemma C7_round_trip_witness :
  len (roundTrip [1; 2; 3; 4; 5; 6; 7] 16000 24000) <= len [1; 2; 3; 4; 5; 6; 7]
  /\ len [1; 2; 3; 4; 5; 6; 7]
     - len (roundTrip [1; 2; 3; 4; 5; 6; 7] 16000 24000) <= 2
  /\ ((16000, 24000) <> (48000, 16000) ->
      len [1; 2; 3; 4; 5; 6; 7]
      - len (roundTrip [1; 2; 3; 4; 5; 6; 7] 16000 24000) <= 1)
  /\ len (roundTrip [1; 2; 3; 4; 5; 6; 7] 48000 16000)
     = 3 * (len [1; 2; 3; 4; 5; 6; 7] / 3).
Proof.
  apply (C7_round_trip_length [1; 2; 3; 4; 5; 6; 7] 16000 24000).
  vm_compute. tauto.
Defined.

(** C7, counterexample.  Five samples at 48000 Hz become one sample at
    16000 Hz and three samples back at 48000 Hz: the count differs from
    the original by 2.  (The length of the way back, computed in binary64
    as the program does, is 3 as well.) *)
Lemma C7_counterexample_48_16_48 :
  In (48000, 16000) supported_pairs
  /\ resampleAudio [11; 12; 13; 14; 15] 48000 16000 = [11]
  /\ roundTrip [11; 12; 13; 14; 15] 48000 16000 = [11; 11; 11]
  /\ genericOutputLength_f64 1 16000 48000 = 3
  /\ Z.abs (len (roundTrip [11; 12; 13; 14; 15] 48000 16000)
            - len [11; 12; 13; 14; 15]) = 2.
Proof. vm_compute. tauto. Qed.

(** The exact lengths of the last branch agree with their binary64
    evaluation on every array length up to 4096, in the three directions
    that take that branch. *)
Example genericOutputLength_f64_agrees :
  forallb (fun n =>
             (genericOutputLength_f64 n 16000 48000
              =? genericOutputLength n 16000 48000)
             && (genericOutputLength_f64 n 24000 48000
                 =? genericOutputLength n 24000 48000)
             && (genericOutputLength_f64 n 24000 16000
                 =? genericOutputLength n 24000 16000))
    (map Z.of_nat (seq 0 4097)) = true.
Proof. vm_compute. reflexivity. Qed.

(** For other rates the two can differ: 480 samples from 48000 Hz to
    44100 Hz give 440 samples in binary64, and 441 exactly. *)
Example genericOutputLength_f64_differs :
  genericOutputLength_f64 480 48000 44100 = 440
  /\ genericOutputLength 480 48000 44100 = 441.
Proof. vm_compute. split; reflexivity. Qed.

End ResamplerClaims.

(** ** Properties of the participant tracker *)

Section TrackerClaims.

Import ParticipantTracker.

Lemma find_app_skip {A} (P : A -> bool) (l1 l2 : list A) :
  Forall (fun x => P x = false) l1 -> find P (l1 ++ l2) = find P l2.
Proof.
  induction 1 as [|x l1 Hx _ IH]; simpl; [done|]. by rewrite Hx.
Qed.

Lemma find_none_of_Forall {A} (P : A -> bool) (l : list A) :
  Forall (fun x => P x = false) l -> find P l = None.
Proof.
  intros H. rewrite <- (app_nil_r l). by rewrite find_app_skip.
Qed.

(** The scan from the newest entry stops at the newest entry that passes
    the test. *)
Lemma find_newest {A} (P : A -> bool) (older newer : list A) (e : A) :
  P e = true -> Forall (fun x => P x = false) newer ->
  find P (rev (older ++ e :: newer)) = Some e.
Proof.
  intros He Hnewer.
  rewrite rev_app_distr. simpl. rewrite <- app_assoc.
  rewrite find_app_skip by (by apply List.Forall_rev).
  simpl. by rewrite He.
Qed.

Lemma entryMatches_spec (timestamp : Z) (e : HistoryEntry) :
  entryMatches timestamp e = true <->
  startTime e <= timestamp
  /\ (endTime e = None \/ endTime e = Some 0
      \/ exists en, endTime e = Some en /\ timestamp <= en).
Proof.
  unfold entryMatches, truthy_num.
  rewrite andb_true_iff, orb_true_iff, Z.leb_le.
  destruct (endTime e) as [en|]; simpl.
  - rewrite negb_true_iff, negb_false_iff, Z.eqb_eq, Z.leb_le.
    split.
    + intros [Hs [->|Hle]]; eauto 10.
    + intros [Hs [H|[H|(en' & H & Hle)]]]; try discriminate.
      * injection H as ->. auto.
      * injection H as ->. auto.
  - split; [intros [Hs _]; auto | intros [Hs _]; auto].
Qed.

(** C4, as amended.  An interval of the history contains [timestamp]
    when it starts at or before it and either is still open or ends at or
    after it (both ends count; an end time of 0 counts as open).  If some
    interval contains [timestamp], the lookup returns the participant of
    the newest such interval, with confidence 0.9; in particular it
    returns with confidence 0.9 whenever [timestamp] lies in a closed
    interval [[start, end)].  If no interval, closed or open, contains
    [timestamp] and the current speaker is set and still a participant,
    it returns the current speaker with confidence 0.5.  Otherwise it
    returns the identity "unknown" with confidence 0. *)
Theorem C4_getSpeakerAtTime_cases (tr : t) (timestamp : Z) :
  (forall e, inClosedInterval timestamp e ->
             entryMatches timestamp e = true)
  /\ (forall older e newer,
        speakingHistory tr = older ++ e :: newer ->
        entryMatches timestamp e = true ->
        Forall (fun x => entryMatches timestamp x = false) newer ->
        getSpeakerAtTime timestamp tr
        = {| s_uuid := h_uuid e; s_displayName := h_displayName e;
             confidence := 0.9%float |})
  /\ (forall e, In e (speakingHistory tr) ->
                entryMatches timestamp e = true ->
                confidence (getSpeakerAtTime timestamp tr) = 0.9%float)
  /\ (Forall (fun x => entryMatches timestamp x = false)
        (speakingHistory tr) ->
      forall u p,
        currentSpeaker tr = Some u -> u <> "" ->
        participants tr !! u = Some p ->
        getSpeakerAtTime timestamp tr
        = {| s_uuid := uuid p; s_displayName := displayName p;
             confidence := 0.5%float |})
  /\ (Forall (fun x => entryMatches timestamp x = false)
        (speakingHistory tr) ->
      currentSpeaker tr = None \/ currentSpeaker tr = Some ""
      \/ (exists u, currentSpeaker tr = Some u
                    /\ participants tr !! u = None) ->
      getSpeakerAtTime timestamp tr = unknownSpeaker).
Proof.
  repeat split.
  - intros e (en & Hen & Hs & He). apply entryMatches_spec.
    split; [done|]. right. right. exists en. split; [done | lia].
  - intros older e newer Hh He Hnewer. unfold getSpeakerAtTime.
    by rewrite Hh, (find_newest _ _ _ _ He Hnewer).
  - intros e Hin He. unfold getSpeakerAtTime.
    destruct (find _ _) as [e'|] eqn:Hfind; [done|].
    exfalso.
    pose proof (find_none _ _ Hfind e) as Hnone.
    rewrite Hnone in He; [discriminate|].
    by apply in_rev in Hin.
  - intros Hnone u p Hcur Hu Hp. unfold getSpeakerAtTime.
    rewrite find_none_of_Forall by (by apply List.Forall_rev).
    rewrite Hcur. simpl.
    destruct (String.eqb_spec u ""); [done|]. simpl. by rewrite Hp.
  - intros Hnone Hcur. unfold getSpeakerAtTime.
    rewrite find_none_of_Forall by (by apply List.Forall_rev).
    destruct Hcur as [->|[->|(u & -> & Hu)]]; simpl; try done.
    destruct (String.eqb u ""); simpl; [done|]. by rewrite Hu.
Qed.

(** C4, counterexample.  Alice has been speaking since time 10 and her
    interval is open.  No closed interval contains time 15 and a speaker
    is currently open, yet the lookup at 15 returns Alice with confidence
    0.9, not 0.5: the open interval itself is matched.  After she stops
    at time 20 the only interval is [[10, 20]]; time 20 is outside
    [[10, 20)] and nobody is speaking, yet the lookup at 20 returns Alice
    with confidence 0.9, not the unknown speaker: the end time is
    included. *)
Lemma C4_counterexample_open_interval_and_end_time :
  (currentSpeaker (run 0 Scenario.oneSpeaker) = Some "A"
   /\ speakingHistory (run 0 Scenario.oneSpeaker)
      = [{| h_uuid := "A"; h_displayName := "Alice";
            startTime := 10; endTime := None |}]
   /\ Forall (fun e => ~ inClosedInterval 15 e)
        (speakingHistory (run 0 Scenario.oneSpeaker))
   /\ getSpeakerAtTime 15 (run 0 Scenario.oneSpeaker)
      = {| s_uuid := "A"; s_displayName := "Alice";
           confidence := 0.9%float |}
   /\ PrimFloat.eqb 0.9%float 0.5%float = false)
  /\ (currentSpeaker (run 0 Scenario.oneSpeakerStopped) = None
      /\ speakingHistory (run 0 Scenario.oneSpeakerStopped)
         = [{| h_uuid := "A"; h_displayName := "Alice";
               startTime := 10; endTime := Some 20 |}]
      /\ Forall (fun e => ~ inClosedInterval 20 e)
           (speakingHistory (run 0 Scenario.oneSpeakerStopped))
      /\ getSpeakerAtTime 20 (run 0 Scenario.oneSpeakerStopped)
         = {| s_uuid := "A"; s_displayName := "Alice";
              confidence := 0.9%float |}
      /\ PrimFloat.eqb 0.9%float 0%float = false).
Proof.
  assert (H1 : speakingHistory (run 0 Scenario.oneSpeaker)
               = [{| h_uuid := "A"; h_displayName := "Alice";
                     startTime := 10; endTime := None |}])
    by (vm_compute; reflexivity).
  assert (H2 : speakingHistory (run 0 Scenario.oneSpeakerStopped)
               = [{| h_uuid := "A"; h_displayName := "Alice";
                     startTime := 10; endTime := Some 20 |}])
    by (vm_compute; reflexivity).
  split; (split; [vm_compute; reflexivity|]); (split; [assumption|]).
  - rewrite H1. split; [|split; vm_compute; reflexivity].
    constructor; [|constructor].
    intros (en & Hen & _). discriminate.
  - rewrite H2. split; [|split; vm_compute; reflexivity].
    constructor; [|constructor].
    intros (en & Hen & _ & Hlt). simpl in Hen. injection Hen as <-. lia.
Qed.

(** C2, the run on which the tracker breaks it.  Bob starts to speak
    while Alice's interval is open.  Bob's interval is appended first;
    [onStopSpeaking] then looks for Alice's interval in the last entry of
    the history, finds Bob's, and leaves Alice's without an end time.
    Two intervals are open after the event. *)
Theorem C2_two_open_intervals_after_overlap :
  speakingHistory (run 0 Scenario.twoSpeakers)
  = [{| h_uuid := "A"; h_displayName := "Alice";
        startTime := 10; endTime := None |};
     {| h_uuid := "B"; h_displayName := "Bob";
        startTime := 20; endTime := None |}]
  /\ length (openIntervals (run 0 Scenario.twoSpeakers)) = 2%nat
  /\ currentSpeaker (run 0 Scenario.twoSpeakers) = Some "B"
  /\ is_speaking "A" (run 0 Scenario.twoSpeakers) = false.
Proof. vm_compute. auto. Qed.

End TrackerClaims.

(** ** Properties of the session orchestrator *)

Section PexipClaims.

Import Pexip.

Lemma refreshInterval_120 : refreshInterval 120 = 90000.
Proof. reflexivity. Qed.

Lemma refreshInterval_40 : refreshInterval 40 = 30000.
Proof. reflexivity. Qed.

(** Where the floor does nothing, the delay is the documented one. *)
Lemma refreshInterval_documented (e : Z) :
  e mod 4 = 0 \/ 120 <= e ->
  (inject_Z (refreshInterval e)
   == inject_Z 1000 * documentedRefreshSeconds e)%Q.
Proof.
  intros H. unfold refreshInterval, refreshBuffer, documentedRefreshSeconds.
  assert (Hmin : (Qmin (inject_Z 30) ((1 # 4) * inject_Z e)
                  == inject_Z (Z.min 30 (e / 4)))%Q).
  { destruct (Z.le_gt_cases 120 e) as [Hbig|Hsmall].
    - rewrite Z.min_l by (Z.to_euclidean_division_equations; lia).
      apply Q.min_l. unfold Qle, Qmult, inject_Z. simpl. lia.
    - destruct H as [Hdiv|]; [|lia].
      rewrite Z.min_r by (Z.to_euclidean_division_equations; lia).
      rewrite Q.min_r by (unfold Qle, Qmult, inject_Z; simpl; lia).
      unfold Qeq, Qmult, inject_Z. simpl.
      Z.to_euclidean_division_equations. lia. }
  rewrite Hmin. rewrite inject_Z_mult.
  unfold Zminus. rewrite inject_Z_plus, inject_Z_opp. ring.
Qed.

(** C5, as amended.  [startTokenRefresh] arms the refresh timer with a
    delay of [expiresInSec - min(30, floor(0.25 * expiresInSec))]
    seconds (in milliseconds), replacing any timer already armed.  That
    is 90 seconds for 120 and 30 seconds for 40; and it is the documented
    [expiresInSec - min(30, 0.25 * expiresInSec)] whenever [expiresInSec]
    is a multiple of 4 or at least 120. *)
Theorem C5_refresh_timer_delay (expiresInSec : Z) (w : Connection) :
  fst (startTokenRefresh expiresInSec w) = Return tt
  /\ tokenRefreshTimer (snd (startTokenRefresh expiresInSec w))
     = Some ((expiresInSec - Z.min 30 (expiresInSec / 4)) * 1000)
  /\ last (effects (snd (startTokenRefresh expiresInSec w)))
     = Some (SetTimeout TokenRefreshTimer
               ((expiresInSec - Z.min 30 (expiresInSec / 4)) * 1000))
  /\ refreshInterval 120 = 90 * 1000
  /\ refreshInterval 40 = 30 * 1000
  /\ (expiresInSec mod 4 = 0 \/ 120 <= expiresInSec ->
      (inject_Z (refreshInterval expiresInSec)
       == inject_Z 1000 * documentedRefreshSeconds expiresInSec)%Q).
Proof.
  unfold startTokenRefresh, bind, gets, when, emit, modify, ret.
  destruct (bool_decide (is_Some (tokenRefreshTimer w))); simpl;
    rewrite ?last_snoc, ?app_assoc, ?last_snoc;
    repeat split; auto using refreshInterval_documented.
Qed.

(** C5, counterexample.  For an expiry of 41 seconds the timer is armed
    with 31000 ms, while the documented formula gives
    41 - min(30, 10.25) = 30.75 seconds. *)
Lemma C5_counterexample_expiry_41 :
  tokenRefreshTimer (snd (startTokenRefresh 41 Pexip.new)) = Some 31000
  /\ (documentedRefreshSeconds 41 == 123 # 4)%Q
  /\ Qeq_bool (inject_Z (refreshInterval 41))
       (inject_Z 1000 * documentedRefreshSeconds 41) = false.
Proof. vm_compute. auto. Qed.

Lemma add_effects_add_effects es1 es2 w :
  add_effects es2 (add_effects es1 w) = add_effects (es1 ++ es2) w.
Proof. unfold add_effects. simpl. by rewrite app_assoc. Qed.

Lemma add_effects_nil w : add_effects [] w = w.
Proof. destruct w. unfold add_effects. simpl. by rewrite app_nil_r. Qed.

(** A request answered with 403 makes [axios.post] reject. *)
Example axiosPost_403_throws (req : Effect) (w : Connection) :
  fst (axiosPost req (Status 403) w)
  = Throw {| message := "Request failed with status code";
             response_status := Some 403 |}.
Proof. reflexivity. Qed.

(** [disconnectCall] never throws and touches nothing but the outside
    world: it sends its request when there are a call UUID and a token,
    and reports the outcome on the console. *)
Lemma disconnectCall_spec (call : option string) (o : HttpOutcome)
  (w : Connection) :
  exists es,
    disconnectCall call o w = (Return tt, add_effects es w)
    /\ List.filter isTeardownEffect es
       = (if JS.truthy call && JS.truthy (token (api w))
          then [PostDisconnect call] else [])
    /\ (o = Status 403 -> List.filter isConsoleError es = []).
Proof.
  unfold disconnectCall, bind, gets, tryCatch, axiosPost, emit, modify,
    ret, throw.
  destruct (JS.truthy call), (JS.truthy (token (api w))); simpl;
    try (exists []; rewrite add_effects_nil; by auto).
  destruct o as [c|]; simpl.
  - destruct ((200 <=? c) && (c <? 300)) eqn:E2xx; simpl.
    + eexists. rewrite add_effects_add_effects. split; [done|].
      split; [done|]. intros [= ->]. discriminate.
    + destruct (bool_decide _) eqn:E403; simpl;
        eexists; rewrite add_effects_add_effects; (split; [done|]);
        (split; [done|]).
      * done.
      * intros [= ->]. discriminate.
  - eexists. rewrite add_effects_add_effects. split; [done|].
    split; [done|]. discriminate.
Qed.

(** [releaseToken] never throws either; it forgets the token whatever
    the bridge answers. *)
Lemma releaseToken_spec (o : HttpOutcome) (w : Connection) :
  exists es,
    releaseToken o w
    = (Return tt,
       if JS.truthy (token (api w))
       then set_api {| token := None;
                       participantUuid := participantUuid (api w) |}
              (add_effects es w)
       else add_effects es w)
    /\ List.filter isTeardownEffect es
       = (if JS.truthy (token (api w)) then [PostReleaseToken] else [])
    /\ (o = Status 403 -> List.filter isConsoleError es = []).
Proof.
  unfold releaseToken, bind, gets, tryCatch, axiosPost, emit, modify,
    ret, throw.
  destruct (JS.truthy (token (api w))); simpl;
    try (exists []; rewrite add_effects_nil; by auto).
  destruct o as [c|]; simpl.
  - destruct ((200 <=? c) && (c <? 300)) eqn:E2xx; simpl.
    + eexists. rewrite add_effects_add_effects. split; [done|].
      split; [done|]. intros [= ->]. discriminate.
    + destruct (bool_decide _) eqn:E403; simpl;
        eexists; rewrite add_effects_add_effects; (split; [done|]);
        (split; [done|]).
      * done.
      * intros [= ->]. discriminate.
  - eexists. rewrite add_effects_add_effects. split; [done|].
    split; [done|]. discriminate.
Qed.

(** The first part of a teardown that starts. *)
Lemma disconnect_begin_running (w : Connection) :
  isRunning w = true ->
  exists es,
    disconnect_begin w
    = (Return true,
       {| api := api w; callUuid := callUuid w;
          eventPollTimeout := false; isRunning := false;
          pendingIceCandidates := pendingIceCandidates w;
          tokenRefreshTimer := None;
          flushCursor := flushCursor w;
          effects := effects w ++ es |})
    /\ List.filter isTeardownEffect es
       = (if bool_decide (is_Some (tokenRefreshTimer w))
          then [ClearTimeout TokenRefreshTimer] else [])
         ++ (if eventPollTimeout w
             then [ClearTimeout EventPollTimeout] else [])
         ++ [WebrtcDisconnect; Sleep 100]
    /\ List.filter isConsoleError es = [].
Proof.
  destruct w as [a call poll run pend timer cur effs].
  cbn [isRunning]. intros ->.
  unfold disconnect_begin, stopTokenRefresh, bind, gets, when, emit,
    modify, ret.
  destruct timer as [d|], poll;
    cbv [add_effects set_isRunning set_tokenRefreshTimer
         set_eventPollTimeout bool_decide decide_rel is_Some_dec negb
         isRunning tokenRefreshTimer eventPollTimeout api callUuid
         pendingIceCandidates flushCursor effects];
    rewrite <- !app_assoc;
    eexists; (split; [reflexivity|split; reflexivity]).
Qed.

(** A call of [disconnect] on a session that is not running only writes
    to the console. *)
Lemma disconnect_not_running (o1 o2 : HttpOutcome) (w : Connection) :
  isRunning w = false ->
  disconnect o1 o2 w
  = (Return tt, add_effects [ConsoleLog "Already disconnected"] w).
Proof.
  intros H. unfold disconnect, disconnect_begin, bind, gets, emit, modify,
    ret. by rewrite H.
Qed.

Lemma disconnect_finish_spec (o1 o2 : HttpOutcome) (w : Connection) :
  exists es,
    disconnect_finish o1 o2 w
    = (Return tt,
       if JS.truthy (token (api w))
       then set_api {| token := None;
                       participantUuid := participantUuid (api w) |}
              (add_effects es w)
       else add_effects es w)
    /\ List.filter isTeardownEffect es
       = (if JS.truthy (callUuid w) && JS.truthy (token (api w))
          then [PostDisconnect (callUuid w)] else [])
         ++ (if JS.truthy (token (api w)) then [PostReleaseToken] else [])
    /\ (o1 = Status 403 -> o2 = Status 403 ->
        List.filter isConsoleError es = []).
Proof.
  destruct (disconnectCall_spec (callUuid w) o1 w) as (es1 & E1 & F1 & C1).
  destruct (releaseToken_spec o2 (add_effects es1 w)) as (es2 & E2 & F2 & C2).
  unfold disconnect_finish, bind, tryCatch, gets, emit, modify, ret.
  simpl. rewrite E1, E2. simpl in *.
  exists (es1 ++ es2 ++ [ConsoleLog "Disconnected from Pexip"]).
  split; [|split].
  - destruct (JS.truthy (token (api w))); simpl;
      unfold add_effects, set_api; simpl; by rewrite <- ?app_assoc.
  - rewrite !List.filter_app, F1, F2. simpl. by rewrite app_nil_r.
  - intros H1 H2. rewrite !List.filter_app, C1, C2 by done. done.
Qed.

Lemma disconnect_finish_effects (o1 o2 : HttpOutcome) (w : Connection) :
  exists es,
    effects (snd (disconnect_finish o1 o2 w)) = effects w ++ es
    /\ List.filter isTeardownEffect es
       = (if JS.truthy (callUuid w) && JS.truthy (token (api w))
          then [PostDisconnect (callUuid w)] else [])
         ++ (if JS.truthy (token (api w)) then [PostReleaseToken] else []).
Proof.
  destruct (disconnect_finish_spec o1 o2 w) as (es & E & F & _).
  exists es. rewrite E. split; [|done].
  by destruct (JS.truthy (token (api w))).
Qed.

(** A teardown that starts runs to its end: what [disconnect] does on a
    running session. *)
Lemma disconnect_running (o1 o2 : HttpOutcome) (w : Connection) :
  isRunning w = true ->
  exists wb es1 es2,
    disconnect_begin w = (Return true, wb)
    /\ disconnect o1 o2 w = disconnect_finish o1 o2 wb
    /\ effects wb = effects w ++ es1
    /\ isRunning wb = false
    /\ api wb = api w /\ callUuid wb = callUuid w
    /\ fst (disconnect_finish o1 o2 wb) = Return tt
    /\ effects (snd (disconnect_finish o1 o2 wb)) = effects wb ++ es2
    /\ isRunning (snd (disconnect_finish o1 o2 wb)) = false
    /\ List.filter isTeardownEffect (es1 ++ es2) = teardownOf w
    /\ (o1 = Status 403 -> o2 = Status 403 ->
        List.filter isConsoleError (es1 ++ es2) = [])
    /\ JS.truthy (token (api (snd (disconnect_finish o1 o2 wb)))) = false.
Proof.
  intros Hrun.
  destruct (disconnect_begin_running w Hrun) as (es1 & Eb & F1 & C1).
  set (wb := {| api := api w; callUuid := callUuid w;
                eventPollTimeout := false; isRunning := false;
                pendingIceCandidates := pendingIceCandidates w;
                tokenRefreshTimer := None; flushCursor := flushCursor w;
                effects := effects w ++ es1 |}) in *.
  destruct (disconnect_finish_spec o1 o2 wb) as (es2 & Ef & F2 & C2).
  exists wb, es1, es2.
  split; [done|]. split.
  { unfold disconnect, bind. by rewrite Eb. }
  rewrite Ef. change (api wb) with (api w) in *.
  change (callUuid wb) with (callUuid w) in *.
  repeat split; try done.
  - by destruct (JS.truthy (token (api w))).
  - by destruct (JS.truthy (token (api w))).
  - rewrite List.filter_app, F1, F2. unfold teardownOf.
    by rewrite <- !app_assoc.
  - intros H1 H2. by rewrite List.filter_app, C1, (C2 H1 H2).
  - by destruct (JS.truthy (token (api w))) eqn:Et.
Qed.

(** C8.  On a running session, the first [disconnect] performs the
    teardown (stop the token refresh, stop the event polling, close the
    media session, call the bridge's disconnect and release), each step
    once and in that order, and leaves the session not running.  A second
    [disconnect] then finds the session not running and returns: it
    writes one line to the console and changes nothing else.  The same
    holds when the second call arrives while the first one is waiting
    between closing the media session and calling the bridge. *)
Theorem C8_second_disconnect_is_a_noop
  (w : Connection) (o1 o2 o3 o4 : HttpOutcome) :
  isRunning w = true ->
  exists es,
    fst (disconnect o1 o2 w) = Return tt
    /\ effects (snd (disconnect o1 o2 w)) = effects w ++ es
    /\ List.filter isTeardownEffect es = teardownOf w
    /\ isRunning (snd (disconnect o1 o2 w)) = false
    /\ disconnect o3 o4 (snd (disconnect o1 o2 w))
       = (Return tt,
          add_effects [ConsoleLog "Already disconnected"]
            (snd (disconnect o1 o2 w)))
    /\ List.filter isTeardownEffect [ConsoleLog "Already disconnected"] = []
    /\ disconnect o3 o4 (snd (disconnect_begin w))
       = (Return tt,
          add_effects [ConsoleLog "Already disconnected"]
            (snd (disconnect_begin w)))
    /\ List.filter isTeardownEffect
         (drop (length (effects w))
            (effects
               (snd (disconnect_finish o1 o2
                       (snd (disconnect o3 o4
                               (snd (disconnect_begin w))))))))
       = teardownOf w.
Proof.
  intros Hrun.
  destruct (disconnect_running o1 o2 w Hrun)
    as (wb & es1 & es2 & Eb & Ed & Heb & Hrb & Hapi & Hcall & Hret & Hef
        & Hrf & Hfilter & _ & _).
  exists (es1 ++ es2). rewrite Ed, Eb. simpl.
  split; [done|]. split; [by rewrite Hef, Heb, app_assoc|].
  split; [done|]. split; [done|].
  split; [by apply disconnect_not_running|].
  split; [done|].
  rewrite (disconnect_not_running o3 o4 wb Hrb). split; [done|].
  cbn [snd].
  destruct (disconnect_finish_effects o1 o2
              (add_effects [ConsoleLog "Already disconnected"] wb))
    as (es3 & -> & F3).
  cbn [add_effects effects callUuid api] in *.
  rewrite Heb, <- !app_assoc, drop_app_length.
  rewrite !List.filter_app, F3. cbn [List.filter isTeardownEffect app].
  rewrite Hapi, Hcall.
  destruct (disconnect_finish_effects o1 o2 wb) as (es2' & Hef' & F2).
  assert (es2' = es2) as ->.
  { apply (app_inv_head (effects wb)). by rewrite <- Hef, <- Hef'. }
  rewrite Hapi, Hcall in F2.
  rewrite List.filter_app, F2 in Hfilter. exact Hfilter.
Qed.

(** C8 on the connected session of the scenarios. *)
Lemma C8_second_disconnect_witness :
  exists es,
    fst (disconnect (Status 200) (Status 200)
           Scenario.connected) = Return tt
    /\ effects (snd (disconnect (Status 200) (Status 200)
                       Scenario.connected))
       = effects Scenario.connected ++ es
    /\ List.filter isTeardownEffect es
       = teardownOf Scenario.connected
    /\ isRunning (snd (disconnect (Status 200) (Status 200)
                         Scenario.connected)) = false
    /\ disconnect (Status 200) (Status 200)
         (snd (disconnect (Status 200) (Status 200)
                 Scenario.connected))
       = (Return tt,
          add_effects [ConsoleLog "Already disconnected"]
            (snd (disconnect (Status 200) (Status 200)
                    Scenario.connected)))
    /\ List.filter isTeardownEffect [ConsoleLog "Already disconnected"] = []
    /\ disconnect (Status 200) (Status 200)
         (snd (disconnect_begin Scenario.connected))
       = (Return tt,
          add_effects [ConsoleLog "Already disconnected"]
            (snd (disconnect_begin Scenario.connected)))
    /\ List.filter isTeardownEffect
         (drop (length (effects Scenario.connected))
            (effects
               (snd (disconnect_finish (Status 200) (Status 200)
                       (snd (disconnect (Status 200) (Status 200)
                               (snd (disconnect_begin
                                       Scenario.connected))))))))
       = teardownOf Scenario.connected.
Proof.
  apply (C8_second_disconnect_is_a_noop Scenario.connected
           (Status 200) (Status 200) (Status 200) (Status 200)).
  reflexivity.
Defined.

(** C9.  When the bridge answers [disconnectCall] or [releaseToken] with
    403, [axios] rejects, the method catches the error, writes an
    ordinary console line ("already disconnected", "already released"),
    no error line, and returns normally; [releaseToken] has forgotten
    the token.  A whole [disconnect] whose two requests are answered 403
    returns normally as well, reports no error and leaves no token. *)
Theorem C9_403_is_successful_cleanup
  (w : Connection) (call : option string) :
  (exists es,
     disconnectCall call (Status 403) w = (Return tt, add_effects es w)
     /\ List.filter isConsoleError es = []
     /\ (JS.truthy call && JS.truthy (token (api w)) = true ->
         es = [PostDisconnect call;
               ConsoleLog "Call already disconnected"]))
  /\ (exists es,
        fst (releaseToken (Status 403) w) = Return tt
        /\ effects (snd (releaseToken (Status 403) w)) = effects w ++ es
        /\ List.filter isConsoleError es = []
        /\ JS.truthy (token (api (snd (releaseToken (Status 403) w))))
           = false
        /\ (JS.truthy (token (api w)) = true ->
            token (api (snd (releaseToken (Status 403) w))) = None
            /\ es = [PostReleaseToken;
                     ConsoleLog "Token already released"]))
  /\ (isRunning w = true ->
      exists es,
        fst (disconnect (Status 403) (Status 403) w) = Return tt
        /\ effects (snd (disconnect (Status 403) (Status 403) w))
           = effects w ++ es
        /\ List.filter isConsoleError es = []
        /\ JS.truthy
             (token (api (snd (disconnect (Status 403) (Status 403) w))))
           = false).
Proof.
  split; [|split].
  - unfold disconnectCall, bind, gets, tryCatch, axiosPost, emit, modify,
      ret, throw.
    destruct (JS.truthy call), (JS.truthy (token (api w)));
      cbn [negb orb andb Z.leb Z.ltb Z.compare Pos.compare
           Pos.compare_cont];
      try (exists []; rewrite add_effects_nil; by auto).
    exists [PostDisconnect call; ConsoleLog "Call already disconnected"].
    cbv [bind emit modify]. cbn.
    rewrite bool_decide_eq_true_2 by done.
    by rewrite add_effects_add_effects.
  - unfold releaseToken, bind, gets, tryCatch, axiosPost, emit, modify,
      ret, throw.
    destruct (JS.truthy (token (api w))) eqn:Et;
      cbn [negb orb andb].
    + exists [PostReleaseToken; ConsoleLog "Token already released"].
      cbv [bind emit modify]. cbn.
      rewrite bool_decide_eq_true_2 by done. cbn.
      rewrite <- app_assoc. by repeat split.
    + exists []. cbn. rewrite app_nil_r. by repeat split.
  - intros Hrun.
    destruct (disconnect_running (Status 403) (Status 403) w Hrun)
      as (wb & es1 & es2 & Eb & Ed & Heb & Hrb & Hapi & Hcall & Hret & Hef
          & Hrf & Hfilter & Herr & Htok).
    exists (es1 ++ es2). rewrite Ed.
    split; [done|]. split; [by rewrite Hef, Heb, app_assoc|].
    split; [by apply Herr | done].
Qed.

(** [sendIceCandidate] sends its request and never throws; a failure
    only adds a line on the console. *)
Lemma sendIceCandidate_spec (site : CallSite) (call : option string)
  (c : Candidate) (o : HttpOutcome) (w : Connection) :
  exists errs,
    sendIceCandidate site call c o w
    = (Return tt, add_effects (PostNewCandidate site call c :: errs) w)
    /\ forall s, candidatesSent s errs = [].
Proof.
  cbv [sendIceCandidate tryCatch axiosPost bind emit modify ret throw].
  destruct o as [code|].
  - destruct ((200 <=? code) && (code <? 300)).
    + exists []. by split.
    + exists [ConsoleError "Failed to send ICE candidate:"].
      split; [|done]. by rewrite add_effects_add_effects.
  - exists [ConsoleError "Failed to send ICE candidate:"].
    split; [|done]. by rewrite add_effects_add_effects.
Qed.

Lemma candidatesSent_app (s : CallSite) (es1 es2 : list Effect) :
  candidatesSent s (es1 ++ es2)
  = candidatesSent s es1 ++ candidatesSent s es2.
Proof. apply omap_app. Qed.

Lemma truthy_Some (call : string) :
  call <> "" -> JS.truthy (Some call) = true.
Proof.
  intros H. unfold JS.truthy. by destruct (String.eqb_spec call "").
Qed.

Lemma setupRun_cons (ev : SetupEvent) (evs : list SetupEvent) w :
  setupRun (ev :: evs) w = setupRun evs (setupStep w ev).
Proof. reflexivity. Qed.

(** Before the call UUID is known, every candidate goes to the queue and
    nothing is sent. *)
Lemma setupRun_queues (cs : list (Candidate * HttpOutcome)) :
  forall w,
    JS.truthy (callUuid w) = false ->
    setupRun (generatedEarly cs) w
    = set_pending (pendingIceCandidates w ++ map fst cs) w.
Proof.
  induction cs as [|[c o] cs IH]; intros w Hw.
  - cbn. rewrite app_nil_r. by destruct w.
  - unfold generatedEarly. cbn [map fst snd]. rewrite setupRun_cons.
    fold (generatedEarly cs).
    assert (E : setupStep w (LocalCandidate c o)
                = set_pending (pendingIceCandidates w ++ [c]) w).
    { cbv [setupStep iceCandidateHandler bind gets modify ret].
      cbn [snd]. rewrite Hw. reflexivity. }
    rewrite E, IH by done.
    unfold set_pending. cbn. by rewrite <- app_assoc.
Qed.

(** Once the call UUID is known: every new candidate is sent at once by
    the handler, every return of an awaited send moves the loop over the
    queue one element forward, and the loop ends by emptying the queue. *)
Lemma setupRun_after_join (call : string) (later : list SetupEvent) :
  call <> "" ->
  forall w,
    callUuid w = Some call ->
    forallb (fun ev => negb (isJoinCallReturned ev)) later = true ->
    match flushCursor w with
    | Some i =>
        (i <= length (pendingIceCandidates w))%nat
        /\ (length (pendingIceCandidates w) - i
            < length (List.filter isSendReturned later))%nat
    | None => pendingIceCandidates w = []
    end ->
    exists es,
      effects (setupRun later w) = effects w ++ es
      /\ candidatesSent FromQueue es
         = map (fun c => (Some call, c))
             (match flushCursor w with
              | Some i => drop i (pendingIceCandidates w)
              | None => []
              end)
      /\ candidatesSent FromHandler es
         = map (fun c => (Some call, c)) (candidatesOf later)
      /\ pendingIceCandidates (setupRun later w) = []
      /\ flushCursor (setupRun later w) = None
      /\ callUuid (setupRun later w) = Some call.
Proof.
  intros Hcall.
  induction later as [|ev later IH]; intros w Hw Hnojoin Hcur.
  - exists []. cbn. rewrite app_nil_r.
    destruct (flushCursor w) as [i|]; [cbn in Hcur; lia|].
    by repeat split.
  - cbn [forallb] in Hnojoin. apply andb_true_iff in Hnojoin as [Hev Hrest].
    rewrite setupRun_cons.
    destruct ev as [c o|call' o|o]; [| discriminate |].
    + (* a new local candidate: the handler sends it *)
      destruct (sendIceCandidate_spec FromHandler (Some call) c o w)
        as (errs & Esend & Herrs).
      assert (E : setupStep w (LocalCandidate c o)
                  = add_effects
                      (PostNewCandidate FromHandler (Some call) c :: errs)
                      w).
      { cbv [setupStep iceCandidateHandler bind gets].
        rewrite Hw, (truthy_Some call Hcall). cbn [negb].
        by rewrite Esend. }
      rewrite E.
      destruct (IH (add_effects
                      (PostNewCandidate FromHandler (Some call) c :: errs)
                      w))
        as (es & He & Hq & Hh & Hp & Hc & Hu); [done|done|done|].
      eexists. split; [rewrite He; cbn [add_effects effects];
                       by rewrite <- app_assoc|].
      cbn [add_effects flushCursor pendingIceCandidates] in Hq.
      rewrite !candidatesSent_app.
      change (candidatesSent FromQueue (_ :: errs))
        with (candidatesSent FromQueue errs).
      change (candidatesSent FromHandler (_ :: errs))
        with ((Some call, c) :: candidatesSent FromHandler errs).
      rewrite !Herrs, Hq, Hh. by repeat split.
    + (* an awaited send of the loop returns *)
      destruct (flushCursor w) as [i|] eqn:Ecur.
      * destruct Hcur as [Hi Hcount]. cbn [List.filter isSendReturned] in Hcount.
        cbn [length] in Hcount.
        destruct (pendingIceCandidates w !! i) as [c|] eqn:Elook.
        -- destruct (sendIceCandidate_spec FromQueue (Some call) c o w)
             as (errs & Esend & Herrs).
           assert (E : setupStep w (SendReturned o)
                       = set_flushCursor (Some (S i))
                           (add_effects
                              (PostNewCandidate FromQueue (Some call) c
                                 :: errs) w)).
           { cbv [setupStep connect_sendReturned connect_flushTurn bind
                  gets modify ret].
             rewrite Ecur, Elook, Hw. by rewrite Esend. }
           rewrite E.
           pose proof (lookup_lt_Some _ _ _ Elook) as Hlt.
           destruct (IH (set_flushCursor (Some (S i))
                           (add_effects
                              (PostNewCandidate FromQueue (Some call) c
                                 :: errs) w)))
             as (es & He & Hq & Hh & Hp & Hc & Hu);
             [done|done|cbn; lia|].
           eexists. split; [rewrite He; cbn [add_effects set_flushCursor
                                             effects];
                            by rewrite <- app_assoc|].
           cbn [add_effects set_flushCursor flushCursor
                pendingIceCandidates] in Hq.
           rewrite !candidatesSent_app.
           change (candidatesSent FromHandler (_ :: errs))
             with (candidatesSent FromHandler errs).
           change (candidatesSent FromQueue (_ :: errs))
             with ((Some call, c) :: candidatesSent FromQueue errs).
           rewrite !Herrs, Hq, Hh.
           rewrite (drop_S _ _ _ Elook). by repeat split.
        -- assert (E : setupStep w (SendReturned o)
                       = set_flushCursor None (set_pending [] w)).
           { cbv [setupStep connect_sendReturned connect_flushTurn bind
                  gets modify ret].
             by rewrite Ecur, Elook. }
           rewrite E.
           destruct (IH (set_flushCursor None (set_pending [] w)))
             as (es & He & Hq & Hh & Hp & Hc & Hu); [done|done|done|].
           exists es. split; [done|].
           apply lookup_ge_None in Elook.
           rewrite drop_ge by lia. by repeat split.
      * assert (E : setupStep w (SendReturned o) = w).
        { cbv [setupStep connect_sendReturned bind gets ret].
          by rewrite Ecur. }
        rewrite E.
        destruct (IH w) as (es & He & Hq & Hh & Hp & Hc & Hu);
          [done|done|by rewrite Ecur|].
        rewrite Ecur in Hq. exists es. by repeat split.
Qed.

(** [connect] resumes after [joinCall] with a queue that is not empty:
    the first queued candidate is sent and the loop waits for it. *)
Lemma connect_joined_nonempty (call : string) (o : HttpOutcome)
  (w : Connection) (c0 : Candidate) (rest : list Candidate) :
  pendingIceCandidates w = c0 :: rest ->
  exists errs,
    connect_joined call o w
    = (Return tt,
       set_flushCursor (Some 1%nat)
         (add_effects
            (ConsoleLog "Sending queued ICE candidates..."
               :: PostNewCandidate FromQueue (Some call) c0 :: errs)
            (set_callUuid (Some call) w)))
    /\ forall s, candidatesSent s errs = [].
Proof.
  intros Hpend.
  cbv [connect_joined connect_flushTurn bind gets modify ret emit].
  cbn [set_callUuid add_effects pendingIceCandidates callUuid].
  rewrite Hpend. change (0 <? Z.of_nat (length (c0 :: rest))) with true.
  cbn [set_callUuid add_effects pendingIceCandidates callUuid].
  rewrite Hpend. cbn [lookup list_lookup].
  match goal with
  | |- context [sendIceCandidate ?s ?cl ?c ?oo ?ww] =>
      destruct (sendIceCandidate_spec s cl c oo ww)
        as (errs & Esend & Herrs); rewrite Esend
  end.
  exists errs. split; [|done].
  by rewrite add_effects_add_effects.
Qed.

(** C1.  Let the media layer deliver the candidates [cs] while no call
    UUID is known: they are queued, in order, and nothing is sent.  Let
    then [joinCall] return the call UUID [call], and let anything follow
    ([later]: further candidates, and returns of the awaited sends of the
    loop, enough of them for the loop to end).  Then the loop of
    [connect] has sent exactly the queued candidates, each once, in the
    order they were generated, for the call [call]; the queue is empty;
    and every candidate generated after [joinCall] returned was sent at
    once by the handler, never queued. *)
Theorem C1_queued_candidates_sent_once_in_order
  (w : Connection) (cs : list (Candidate * HttpOutcome))
  (call : string) (o : HttpOutcome) (later : list SetupEvent) :
  JS.truthy (callUuid w) = false ->
  pendingIceCandidates w = [] ->
  flushCursor w = None ->
  call <> "" ->
  forallb (fun ev => negb (isJoinCallReturned ev)) later = true ->
  (length cs <= length (List.filter isSendReturned later))%nat ->
  pendingIceCandidates (setupRun (generatedEarly cs) w) = map fst cs
  /\ effects (setupRun (generatedEarly cs) w) = effects w
  /\ exists es,
       effects
         (setupRun (generatedEarly cs ++ JoinCallReturned call o :: later) w)
       = effects w ++ es
       /\ candidatesSent FromQueue es
          = map (fun c => (Some call, c)) (map fst cs)
       /\ candidatesSent FromHandler es
          = map (fun c => (Some call, c)) (candidatesOf later)
       /\ pendingIceCandidates
            (setupRun
               (generatedEarly cs ++ JoinCallReturned call o :: later) w)
          = []
       /\ flushCursor
            (setupRun
               (generatedEarly cs ++ JoinCallReturned call o :: later) w)
          = None.
Proof.
  intros Hfalsy Hpend Hcur Hcall Hnojoin Hcount.
  rewrite (setupRun_queues cs w Hfalsy), Hpend. cbn [app].
  split; [done|]. split; [done|].
  unfold setupRun at 1 2 3. rewrite foldl_app.
  fold (setupRun (generatedEarly cs) w).
  rewrite (setupRun_queues cs w Hfalsy), Hpend. cbn [app foldl].
  set (before := set_pending (map fst cs) w).
  fold (setupRun later (setupStep before (JoinCallReturned call o))).
  destruct cs as [|[c0 o0] cs].
  - (* nothing was queued: [connect] goes on past the loop *)
    assert (E : setupStep before (JoinCallReturned call o)
                = set_callUuid (Some call) before).
    { cbv [setupStep connect_joined bind gets modify ret]. reflexivity. }
    rewrite E.
    destruct (setupRun_after_join call later Hcall
                (set_callUuid (Some call) before))
      as (es & He & Hq & Hh & Hp & Hc & _); [done|done| |].
    { cbn [set_callUuid flushCursor before set_pending]. by rewrite Hcur. }
    cbn [set_callUuid flushCursor before set_pending] in Hq.
    rewrite Hcur in Hq.
    exists es. by repeat split.
  - (* the loop starts with the first queued candidate *)
    destruct (connect_joined_nonempty call o before c0 (map fst cs))
      as (errs & Ejoin & Herrs); [done|].
    assert (E : setupStep before (JoinCallReturned call o)
                = set_flushCursor (Some 1%nat)
                    (add_effects
                       (ConsoleLog "Sending queued ICE candidates..."
                          :: PostNewCandidate FromQueue (Some call) c0
                          :: errs)
                       (set_callUuid (Some call) before))).
    { unfold setupStep. by rewrite Ejoin. }
    rewrite E.
    destruct (setupRun_after_join call later Hcall
                (set_flushCursor (Some 1%nat)
                   (add_effects
                      (ConsoleLog "Sending queued ICE candidates..."
                         :: PostNewCandidate FromQueue (Some call) c0
                         :: errs)
                      (set_callUuid (Some call) before))))
      as (es & He & Hq & Hh & Hp & Hc & _); [done|done| |].
    { subst before.
      cbn [set_flushCursor add_effects set_callUuid flushCursor
           pendingIceCandidates set_pending map fst length].
      rewrite length_map. cbn [length] in Hcount. lia. }
    subst before. cbn [map fst] in *.
    cbn [set_flushCursor add_effects set_callUuid flushCursor
         pendingIceCandidates effects set_pending drop]
      in He, Hq.
    eexists. split; [rewrite He; by rewrite <- !app_assoc|].
    rewrite !candidatesSent_app.
    change (candidatesSent FromHandler (_ :: _ :: errs))
      with (candidatesSent FromHandler errs).
    change (candidatesSent FromQueue (_ :: _ :: errs))
      with ((Some call, c0) :: candidatesSent FromQueue errs).
    rewrite !Herrs, Hq, Hh. by repeat split.
Qed.

(** C1 on two early candidates, a third one that arrives while the loop
    over the queue is waiting, and a send that fails. *)
Lemma C1_queued_candidates_witness :
  pendingIceCandidates
    (setupRun
       (generatedEarly [(Scenario.cand "a", Status 200);
                        (Scenario.cand "b", Status 200)]) Pexip.new)
  = map fst [(Scenario.cand "a", Status 200);
             (Scenario.cand "b", Status 200)]
  /\ effects
       (setupRun
          (generatedEarly [(Scenario.cand "a", Status 200);
                           (Scenario.cand "b", Status 200)]) Pexip.new)
     = effects Pexip.new
  /\ exists es,
       effects
         (setupRun
            (generatedEarly [(Scenario.cand "a", Status 200);
                             (Scenario.cand "b", Status 200)]
             ++ JoinCallReturned "call-1" (Status 200)
                  :: [LocalCandidate (Scenario.cand "c") (Status 200);
                      SendReturned NoResponse;
                      SendReturned (Status 200)]) Pexip.new)
       = effects Pexip.new ++ es
       /\ candidatesSent FromQueue es
          = map (fun c => (Some "call-1", c))
              (map fst [(Scenario.cand "a", Status 200);
                        (Scenario.cand "b", Status 200)])
       /\ candidatesSent FromHandler es
          = map (fun c => (Some "call-1", c))
              (candidatesOf
                 [LocalCandidate (Scenario.cand "c") (Status 200);
                  SendReturned NoResponse;
                  SendReturned (Status 200)])
       /\ pendingIceCandidates
            (setupRun
               (generatedEarly [(Scenario.cand "a", Status 200);
                                (Scenario.cand "b", Status 200)]
                ++ JoinCallReturned "call-1" (Status 200)
                     :: [LocalCandidate (Scenario.cand "c") (Status 200);
                         SendReturned NoResponse;
                         SendReturned (Status 200)]) Pexip.new)
          = []
       /\ flushCursor
            (setupRun
               (generatedEarly [(Scenario.cand "a", Status 200);
                                (Scenario.cand "b", Status 200)]
                ++ JoinCallReturned "call-1" (Status 200)
                     :: [LocalCandidate (Scenario.cand "c") (Status 200);
                         SendReturned NoResponse;
                         SendReturned (Status 200)]) Pexip.new)
          = None.
Proof.
  apply (C1_queued_candidates_sent_once_in_order Pexip.new
           [(Scenario.cand "a", Status 200); (Scenario.cand "b", Status 200)]
           "call-1" (Status 200)
           [LocalCandidate (Scenario.cand "c") (Status 200);
            SendReturned NoResponse; SendReturned (Status 200)]).
  - reflexivity.
  - reflexivity.
  - reflexivity.
  - discriminate.
  - reflexivity.
  - vm_compute. reflexivity.
Defined.

(** The same run, effect by effect: the two queued candidates
    go out in order from the loop, the candidate that arrives in between
    goes out from the handler, and the send that fails is only reported. *)
Example setup_trace :
  effects
    (setupRun
       (generatedEarly [(Scenario.cand "a", Status 200);
                        (Scenario.cand "b", Status 200)]
        ++ JoinCallReturned "call-1" (Status 200)
             :: [LocalCandidate (Scenario.cand "c") (Status 200);
                 SendReturned NoResponse;
                 SendReturned (Status 200)]) Pexip.new)
  = [ConsoleLog "Sending queued ICE candidates...";
     PostNewCandidate FromQueue (Some "call-1") (Scenario.cand "a");
     PostNewCandidate FromHandler (Some "call-1") (Scenario.cand "c");
     PostNewCandidate FromQueue (Some "call-1") (Scenario.cand "b");
     ConsoleError "Failed to send ICE candidate:"].
Proof. vm_compute. reflexivity. Qed.

(** The teardown of a connected session whose two cleanup requests are
    answered 403, effect by effect, and a second call. *)
Example disconnect_trace :
  effects (snd (disconnect (Status 403) (Status 403) Scenario.connected))
  = [ConsoleLog "Disconnecting from Pexip";
     ClearTimeout TokenRefreshTimer;
     ClearTimeout EventPollTimeout;
     WebrtcDisconnect;
     Sleep 100;
     PostDisconnect (Some "call-1");
     ConsoleLog "Call already disconnected";
     PostReleaseToken;
     ConsoleLog "Token already released";
     ConsoleLog "Disconnected from Pexip"]
  /\ effects
       (snd (disconnect (Status 200) (Status 200)
               (snd (disconnect (Status 403) (Status 403)
                       Scenario.connected))))
     = effects (snd (disconnect (Status 403) (Status 403)
                       Scenario.connected))
       ++ [ConsoleLog "Already disconnected"].
Proof. vm_compute. auto. Qed.

End PexipClaims.

(** * Further properties *)

(** ** The audio buffer on arbitrary frames *)

Section AudioBufferMore.

Import AudioBuffer.

Local Abbreviation len l := (Z.of_nat (length l)).

Lemma addSamples_totalSamples (now : Z) (f : list Z) (b : t) :
  totalSamples (stats (snd (addSamples now f b)))
  = totalSamples (stats b) + len f.
Proof.
  unfold addSamples, createChunk, splice0. cbn.
  by destruct (_ <=? _).
Qed.

(** Whatever the sizes of the frames: what a run of [addSamples] emits
    and what it keeps. *)
Lemma addSamplesAll_general (frames : list (Z * list Z)) :
  forall (b : t) cs b',
    addSamplesAll frames b = (cs, b') ->
    targetSamples b' = targetSamples b
    /\ Forall (fun c => len (samples c) = Z.max 0 (targetSamples b)
                        /\ isFinal c = false) cs
    /\ concat (map samples cs) ++ map JS.toInt16 (buffer b')
       = map JS.toInt16 (buffer b ++ concat (map snd frames))
    /\ map chunkNumber cs
       = map (fun i => chunksCreated (stats b) + 1 + Z.of_nat i)
           (seq 0 (length cs))
    /\ chunksCreated (stats b') = chunksCreated (stats b) + len cs
    /\ totalSamples (stats b')
       = totalSamples (stats b) + len (concat (map snd frames))
    /\ (length cs <= length frames)%nat.
Proof.
  induction frames as [|[now f] frames IH]; intros b cs b' Hrun.
  - cbn in Hrun. injection Hrun as <- <-. cbn.
    rewrite app_nil_r. repeat split; auto; lia.
  - cbn [addSamplesAll] in Hrun.
    pose proof (addSamples_totalSamples now f b) as Htot.
    destruct (Z.le_gt_cases (targetSamples b) (len (buffer b ++ f)))
      as [Hge|Hless].
    + destruct (addSamples_chunk now f b Hge)
        as (c & b1 & E & Hs & Hn & Hfin & Hb & Ht & Hc).
      rewrite E in Hrun, Htot. cbn [snd] in Htot.
      destruct (addSamplesAll frames b1) as [cs1 b2] eqn:E1.
      injection Hrun as <- <-.
      destruct (IH b1 cs1 b2 E1)
        as (H1 & H2 & H3 & H4 & H5 & H6 & H7).
      rewrite Ht in *.
      repeat split; auto.
      * constructor; [|done]. split; [|done].
        rewrite Hs, length_map, length_take. lia.
      * cbn [map concat]. rewrite <- app_assoc, H3, Hs, Hb.
        rewrite <- map_app, (app_assoc (take _ _)), take_drop.
        by rewrite <- app_assoc.
      * cbn [map length seq]. f_equal; [lia|].
        rewrite H4, <- seq_shift, map_map.
        apply map_ext. intros i. lia.
      * cbn [length]. lia.
      * cbn [map concat snd]. rewrite H6, Htot, length_app. lia.
      * cbn [length]. lia.
    + destruct (addSamples_none now f b) as (b1 & E & Hb & Ht & Hc); [lia|].
      rewrite E in Hrun, Htot. cbn [snd] in Htot.
      destruct (addSamplesAll frames b1) as [cs1 b2] eqn:E1.
      injection Hrun as <- <-.
      destruct (IH b1 cs1 b2 E1)
        as (H1 & H2 & H3 & H4 & H5 & H6 & H7).
      rewrite Ht in *.
      repeat split; auto.
      * rewrite H3, Hb. cbn [map concat snd]. by rewrite <- app_assoc.
      * by rewrite H4, Hc.
      * lia.
      * cbn [map concat snd]. rewrite H6, Htot, length_app. lia.
      * cbn [length]. lia.
Qed.

(** X1.  Whatever the sizes of the frames, a run of [addSamples] on a
    buffer with a chunk length [targetSamples >= 0] emits chunks of
    exactly [targetSamples] samples, at most one per call, none marked
    final, numbered consecutively from [chunksCreated + 1]; the chunks
    followed by what stays in the buffer are the old buffer followed by
    the frames, sample for sample; and [totalSamples] has grown by the
    number of samples received. *)
Theorem X1_addSamplesAll_conserves_samples
  (frames : list (Z * list Z)) (b : t) :
  0 <= targetSamples b ->
  Forall (fun c => len (samples c) = targetSamples b
                   /\ isFinal c = false)
    (fst (addSamplesAll frames b))
  /\ concat (map samples (fst (addSamplesAll frames b)))
     ++ map JS.toInt16 (buffer (snd (addSamplesAll frames b)))
     = map JS.toInt16 (buffer b ++ concat (map snd frames))
  /\ map chunkNumber (fst (addSamplesAll frames b))
     = map (fun i => chunksCreated (stats b) + 1 + Z.of_nat i)
         (seq 0 (length (fst (addSamplesAll frames b))))
  /\ (length (fst (addSamplesAll frames b)) <= length frames)%nat
  /\ totalSamples (stats (snd (addSamplesAll frames b)))
     = totalSamples (stats b) + len (concat (map snd frames)).
Proof.
  intros HT.
  destruct (addSamplesAll frames b) as [cs b'] eqn:E.
  destruct (addSamplesAll_general frames b cs b' E)
    as (H1 & H2 & H3 & H4 & H5 & H6 & H7).
  cbn [fst snd]. rewrite Z.max_r in H2 by done.
  by repeat split.
Qed.

(** X1 on one frame of five samples for a chunk length of 2. *)
Lemma X1_addSamplesAll_witness :
  Forall (fun c => len (samples c) = targetSamples Inputs.buffer2
                   /\ isFinal c = false)
    (fst (addSamplesAll Inputs.frames5 Inputs.buffer2))
  /\ concat (map samples (fst (addSamplesAll Inputs.frames5 Inputs.buffer2)))
     ++ map JS.toInt16
          (buffer (snd (addSamplesAll Inputs.frames5 Inputs.buffer2)))
     = map JS.toInt16
         (buffer Inputs.buffer2 ++ concat (map snd Inputs.frames5))
  /\ map chunkNumber (fst (addSamplesAll Inputs.frames5 Inputs.buffer2))
     = map (fun i => chunksCreated (stats Inputs.buffer2) + 1 + Z.of_nat i)
         (seq 0 (length (fst (addSamplesAll Inputs.frames5
                                 Inputs.buffer2))))
  /\ (length (fst (addSamplesAll Inputs.frames5 Inputs.buffer2))
      <= length Inputs.frames5)%nat
  /\ totalSamples (stats (snd (addSamplesAll Inputs.frames5 Inputs.buffer2)))
     = totalSamples (stats Inputs.buffer2)
       + len (concat (map snd Inputs.frames5)).
Proof.
  apply (X1_addSamplesAll_conserves_samples Inputs.frames5 Inputs.buffer2).
  vm_compute. discriminate.
Defined.

(** The run of X1's example: two chunks, the fifth sample stays. *)
Example addSamplesAll_frames5 :
  map samples (fst (addSamplesAll Inputs.frames5 Inputs.buffer2))
  = [[1; 2]; [3; 4]]
  /\ buffer (snd (addSamplesAll Inputs.frames5 Inputs.buffer2)) = [5].
Proof. vm_compute. auto. Qed.

(** X2.  Feeding any frames and then calling [flush] hands out every
    sample exactly once and in order: the chunks of the run followed by
    the chunk of [flush] (if any) are the old buffer followed by the
    frames, and the buffer is empty.  [flush] returns a chunk exactly
    when the run left something in the buffer, and that chunk is marked
    final. *)
Theorem X2_flush_after_any_run_drains
  (frames : list (Z * list Z)) (now : Z) (b : t) :
  match flush now (snd (addSamplesAll frames b)) with
  | (Some c, b') =>
      concat (map samples (fst (addSamplesAll frames b))) ++ samples c
      = map JS.toInt16 (buffer b ++ concat (map snd frames))
      /\ isFinal c = true
      /\ buffer (snd (addSamplesAll frames b)) <> []
      /\ buffer b' = []
  | (None, b') =>
      concat (map samples (fst (addSamplesAll frames b)))
      = map JS.toInt16 (buffer b ++ concat (map snd frames))
      /\ buffer (snd (addSamplesAll frames b)) = []
      /\ b' = snd (addSamplesAll frames b)
  end.
Proof.
  destruct (addSamplesAll frames b) as [cs b1] eqn:E.
  destruct (addSamplesAll_general frames b cs b1 E)
    as (_ & _ & H3 & _).
  cbn [fst snd]. unfold flush.
  destruct (buffer b1) as [|x l] eqn:Eb.
  - cbn. rewrite app_nil_r in H3. by repeat split.
  - cbn [length Z.of_nat Z.ltb Z.compare]. cbn [samples isFinal].
    repeat split; done.
Qed.

(** X3.  [flush] numbers its chunk [chunksCreated + 1] without counting
    it: the next chunk that [addSamples] emits from the same buffer
    carries the same chunk number as the flushed one. *)
Theorem X3_flush_does_not_advance_chunk_number
  (now now' : Z) (f : list Z) (b b' b'' : t) (c c2 : ChunkData) :
  flush now b = (Some c, b') ->
  addSamples now' f b' = (Some c2, b'') ->
  chunkNumber c2 = chunkNumber c.
Proof.
  unfold flush. destruct (0 <? len (buffer b)); [|discriminate].
  intros [= <- <-]. unfold addSamples, createChunk, splice0. cbn.
  destruct (_ <=? _); [|discriminate]. by intros [= <- <-].
Qed.

(** X3 on a buffer of chunk length 2 that holds one sample, flushed and
    fed two more samples. *)
Lemma X3_flush_chunk_number_witness :
  chunkNumber
    (default Inputs.noChunk
       (fst (addSamples 3 [8; 9]
               (snd (flush 2 (snd (addSamples 1 [7] Inputs.buffer2)))))))
  = chunkNumber
      (default Inputs.noChunk
         (fst (flush 2 (snd (addSamples 1 [7] Inputs.buffer2))))).
Proof.
  apply (X3_flush_does_not_advance_chunk_number 2 3 [8; 9]
           (snd (addSamples 1 [7] Inputs.buffer2))
           (snd (flush 2 (snd (addSamples 1 [7] Inputs.buffer2))))
           (snd (addSamples 3 [8; 9]
                   (snd (flush 2 (snd (addSamples 1 [7] Inputs.buffer2))))))).
  - vm_compute. reflexivity.
  - vm_compute. reflexivity.
Defined.

End AudioBufferMore.

(** ** The samples the resampler produces *)

Section ResamplerMore.

Import Resampler.

Lemma lookup_fillInt16 (n : Z) (f : Z -> Z) (i : nat) :
  fillInt16 n f !! i
  = if decide (i < Z.to_nat n)%nat
    then Some (JS.toInt16 (f (Z.of_nat i))) else None.
Proof.
  unfold fillInt16. rewrite list_lookup_fmap.
  destruct (decide (i < Z.to_nat n)%nat) as [Hlt|Hge].
  - by rewrite lookup_seq_lt.
  - by rewrite lookup_seq_ge by lia.
Qed.

Lemma sampleAt_lookup (s : list Z) (i : nat) (x : Z) :
  s !! i = Some x -> sampleAt s (Z.of_nat i) = x.
Proof.
  intros H. unfold sampleAt.
  destruct (Z.ltb_spec (Z.of_nat i) 0); [lia|].
  rewrite Nat2Z.id. by apply nth_lookup_Some with (d := 0) in H.
Qed.

Lemma sampleAt_Z (s : list Z) (z : Z) (x : Z) :
  0 <= z -> s !! Z.to_nat z = Some x -> sampleAt s z = x.
Proof.
  intros Hz H. rewrite <- (Z2Nat.id z) by done. by apply sampleAt_lookup.
Qed.

Lemma int16_lookup (s : list Z) (i : nat) (x : Z) :
  Forall JS.is_int16 s -> s !! i = Some x -> JS.is_int16 x.
Proof. intros Hs Hx. by apply (Forall_lookup_1 _ _ _ _ Hs Hx). Qed.

(** X4.  Downsampling 48000 Hz audio keeps every third sample (to
    16000 Hz) or every second sample (to 24000 Hz) of an array of 16-bit
    samples: the output has [floor (N / 3)] (resp. [floor (N / 2)])
    samples, its [i]-th sample is the input sample of index [3 * i]
    (resp. [2 * i]), and no read goes past the end of the input. *)
Theorem X4_downsampling_keeps_every_nth_sample (s : list Z) :
  Forall JS.is_int16 s ->
  length (downsample48to16 s) = (length s / 3)%nat
  /\ (forall i, (i < length s / 3)%nat ->
        is_Some (s !! (3 * i)%nat)
        /\ downsample48to16 s !! i = s !! (3 * i)%nat)
  /\ length (downsample48to24 s) = (length s / 2)%nat
  /\ (forall i, (i < length s / 2)%nat ->
        is_Some (s !! (2 * i)%nat)
        /\ downsample48to24 s !! i = s !! (2 * i)%nat).
Proof.
  intros Hs.
  assert (H3 : Z.to_nat (len s / 3) = (length s / 3)%nat).
  { unfold len. rewrite <- (Nat2Z.id (length s / 3)).
    f_equal. by rewrite Nat2Z.inj_div. }
  assert (H2 : Z.to_nat (len s / 2) = (length s / 2)%nat).
  { unfold len. rewrite <- (Nat2Z.id (length s / 2)).
    f_equal. by rewrite Nat2Z.inj_div. }
  repeat split.
  - unfold downsample48to16, fillInt16.
    by rewrite length_map, length_seq.
  - apply lookup_lt_is_Some.
    pose proof (Nat.Div0.mul_div_le (length s) 3). lia.
  - unfold downsample48to16. rewrite lookup_fillInt16, H3.
    destruct (decide _) as [_|]; [|lia].
    destruct (s !! (3 * i)%nat) as [x|] eqn:E.
    + replace (Z.of_nat i * 3) with (Z.of_nat (3 * i)) by lia.
      rewrite (sampleAt_lookup _ _ _ E).
      f_equal. apply toInt16_id. by apply (int16_lookup s (3 * i)).
    + apply lookup_ge_None in E.
      pose proof (Nat.Div0.mul_div_le (length s) 3). lia.
  - unfold downsample48to24, fillInt16.
    by rewrite length_map, length_seq.
  - apply lookup_lt_is_Some.
    pose proof (Nat.Div0.mul_div_le (length s) 2). lia.
  - unfold downsample48to24. rewrite lookup_fillInt16, H2.
    destruct (decide _) as [_|]; [|lia].
    destruct (s !! (2 * i)%nat) as [x|] eqn:E.
    + replace (Z.of_nat i * 2) with (Z.of_nat (2 * i)) by lia.
      rewrite (sampleAt_lookup _ _ _ E).
      f_equal. apply toInt16_id. by apply (int16_lookup s (2 * i)).
    + apply lookup_ge_None in E.
      pose proof (Nat.Div0.mul_div_le (length s) 2). lia.
Qed.

(** X4 on seven samples. *)
Lemma X4_downsampling_witness :
  length (downsample48to16 Inputs.samples7)
  = (length Inputs.samples7 / 3)%nat
  /\ (forall i, (i < length Inputs.samples7 / 3)%nat ->
        is_Some (Inputs.samples7 !! (3 * i)%nat)
        /\ downsample48to16 Inputs.samples7 !! i
           = Inputs.samples7 !! (3 * i)%nat)
  /\ length (downsample48to24 Inputs.samples7)
     = (length Inputs.samples7 / 2)%nat
  /\ (forall i, (i < length Inputs.samples7 / 2)%nat ->
        is_Some (Inputs.samples7 !! (2 * i)%nat)
        /\ downsample48to24 Inputs.samples7 !! i
           = Inputs.samples7 !! (2 * i)%nat).
Proof.
  apply (X4_downsampling_keeps_every_nth_sample
           Inputs.samples7).
  repeat constructor; vm_compute; discriminate.
Defined.

Lemma interpolate_between (a b r : Z) :
  0 <= r < 3 -> Z.min a b <= interpolate a b r <= Z.max a b.
Proof.
  intros Hr. unfold interpolate.
  assert (r = 0 \/ r = 1 \/ r = 2) as [-> | [-> | ->]] by lia;
    Z.to_euclidean_division_equations; lia.
Qed.

Lemma interpolate_0 (a b : Z) : interpolate a b 0 = a.
Proof. unfold interpolate. Z.to_euclidean_division_equations. lia. Qed.

Lemma int16_between (a b y : Z) :
  JS.is_int16 a -> JS.is_int16 b -> Z.min a b <= y <= Z.max a b ->
  JS.is_int16 y.
Proof. unfold JS.is_int16. lia. Qed.

(** The value the 16 kHz to 24 kHz branch stores at position [i]. *)
Lemma upsample16to24_lookup (s : list Z) (i : nat) :
  Forall JS.is_int16 s ->
  (i < length s * 3 / 2)%nat ->
  exists a b,
    s !! (2 * i / 3)%nat = Some a
    /\ s !! Nat.min (2 * i / 3 + 1) (length s - 1) = Some b
    /\ upsample16to24 s !! i
       = Some (if (2 * i / 3 <? length s - 1)%nat
               then interpolate a b (Z.of_nat ((2 * i) mod 3))
               else a).
Proof.
  intros Hs Hi.
  assert (Hlen : Z.to_nat (len s * 3 / 2) = (length s * 3 / 2)%nat).
  { unfold len. rewrite <- (Nat2Z.id (length s * 3 / 2)).
    f_equal. by rewrite Nat2Z.inj_div, Nat2Z.inj_mul. }
  assert (Hidx : (2 * i / 3 <= length s - 1)%nat
                 /\ (0 < length s)%nat).
  { pose proof (Nat.Div0.mul_div_le (length s * 3) 2).
    pose proof (Nat.Div0.div_mod (2 * i) 3).
    pose proof (Nat.mod_upper_bound (2 * i) 3). lia. }
  destruct Hidx as [Hidx Hpos].
  destruct (lookup_lt_is_Some_2 s (2 * i / 3)) as [a Ha]; [lia|].
  destruct (lookup_lt_is_Some_2 s (Nat.min (2 * i / 3 + 1) (length s - 1)))
    as [b Hb]; [lia|].
  exists a, b. split; [done|]. split; [done|].
  unfold upsample16to24. rewrite lookup_fillInt16, Hlen.
  destruct (decide _) as [_|]; [|lia].
  assert (Eidx : 2 * Z.of_nat i / 3 = Z.of_nat (2 * i / 3)).
  { by rewrite Nat2Z.inj_div, Nat2Z.inj_mul. }
  assert (Emod : (2 * Z.of_nat i) mod 3 = Z.of_nat ((2 * i) mod 3)).
  { by rewrite Nat2Z.inj_mod, Nat2Z.inj_mul. }
  rewrite Eidx, Emod. unfold len.
  pose proof (int16_lookup _ _ _ Hs Ha) as Hia.
  pose proof (int16_lookup _ _ _ Hs Hb) as Hib.
  destruct (Nat.ltb_spec (2 * i / 3) (length s - 1)) as [Hlt|Hge].
  - destruct (Z.ltb_spec (Z.of_nat (2 * i / 3)) (Z.of_nat (length s) - 1));
      [|lia].
    rewrite Nat.min_l in Hb by lia.
    rewrite (sampleAt_lookup _ _ _ Ha).
    replace (Z.of_nat (2 * i / 3) + 1) with (Z.of_nat (2 * i / 3 + 1))
      by lia.
    rewrite (sampleAt_lookup _ _ _ Hb).
    f_equal. apply toInt16_id.
    apply (int16_between a b); [done|done|].
    apply interpolate_between.
    pose proof (Nat.mod_upper_bound (2 * i) 3). lia.
  - destruct (Z.ltb_spec (Z.of_nat (2 * i / 3)) (Z.of_nat (length s) - 1));
      [lia|].
    assert (2 * i / 3 = length s - 1)%nat as E by lia.
    replace (Z.of_nat (length s) - 1) with (Z.of_nat (2 * i / 3)) by lia.
    rewrite (sampleAt_lookup _ _ _ Ha).
    f_equal. by apply toInt16_id.
Qed.

(** X5.  Upsampling an array of 16-bit samples from 16000 Hz to
    24000 Hz gives [floor (1.5 * N)] samples.  Each output sample lies
    between the two input samples it is interpolated from (the input
    samples of index [floor (2 i / 3)] and the next one, or the last
    one), so the interpolation never overshoots and never wraps around
    as a 16-bit value; and every third output sample is an input sample
    unchanged: the output of index [3 k] is the input of index [2 k]. *)
Theorem X5_upsampling_interpolates_between_neighbours (s : list Z) :
  Forall JS.is_int16 s ->
  length (upsample16to24 s) = (length s * 3 / 2)%nat
  /\ (forall i y,
        upsample16to24 s !! i = Some y ->
        exists a b,
          s !! (2 * i / 3)%nat = Some a
          /\ s !! Nat.min (2 * i / 3 + 1) (length s - 1) = Some b
          /\ Z.min a b <= y <= Z.max a b)
  /\ (forall k a, s !! (2 * k)%nat = Some a ->
                  upsample16to24 s !! (3 * k)%nat = Some a).
Proof.
  intros Hs.
  assert (Hlen : length (upsample16to24 s) = (length s * 3 / 2)%nat).
  { unfold upsample16to24, fillInt16. rewrite length_map, length_seq.
    unfold len. rewrite <- (Nat2Z.id (length s * 3 / 2)).
    f_equal. by rewrite Nat2Z.inj_div, Nat2Z.inj_mul. }
  split; [done|]. split.
  - intros i y Hy.
    pose proof (lookup_lt_Some _ _ _ Hy) as Hi. rewrite Hlen in Hi.
    destruct (upsample16to24_lookup s i Hs Hi) as (a & b & Ha & Hb & E).
    exists a, b. split; [done|]. split; [done|].
    rewrite E in Hy. injection Hy as <-.
    destruct (_ <? _)%nat; [|lia].
    apply interpolate_between.
    pose proof (Nat.mod_upper_bound (2 * i) 3). lia.
  - intros k a Ha.
    pose proof (lookup_lt_Some _ _ _ Ha) as Hk.
    assert (Hi : (3 * k < length s * 3 / 2)%nat).
    { pose proof (Nat.Div0.div_mod (length s * 3) 2).
      pose proof (Nat.mod_upper_bound (length s * 3) 2). lia. }
    destruct (upsample16to24_lookup s (3 * k) Hs Hi)
      as (a' & b & Ha' & Hb & E).
    replace (2 * (3 * k) / 3)%nat with (2 * k)%nat in *
      by (replace (2 * (3 * k))%nat with ((2 * k) * 3)%nat by lia;
          by rewrite Nat.div_mul).
    replace ((2 * (3 * k)) mod 3)%nat with 0%nat in E
      by (replace (2 * (3 * k))%nat with ((2 * k) * 3)%nat by lia;
          by rewrite Nat.Div0.mod_mul).
    rewrite Ha in Ha'. injection Ha' as <-.
    rewrite E, interpolate_0. by destruct (_ <? _)%nat.
Qed.

(** X5 on four samples. *)
Lemma X5_upsampling_witness :
  length (upsample16to24 Inputs.samples4)
  = (length Inputs.samples4 * 3 / 2)%nat
  /\ (forall i y,
        upsample16to24 Inputs.samples4 !! i = Some y ->
        exists a b,
          Inputs.samples4 !! (2 * i / 3)%nat = Some a
          /\ Inputs.samples4
               !! Nat.min (2 * i / 3 + 1) (length Inputs.samples4 - 1)
             = Some b
          /\ Z.min a b <= y <= Z.max a b)
  /\ (forall k a, Inputs.samples4 !! (2 * k)%nat = Some a ->
                  upsample16to24 Inputs.samples4 !! (3 * k)%nat = Some a).
Proof.
  apply (X5_upsampling_interpolates_between_neighbours Inputs.samples4).
  repeat constructor; vm_compute; discriminate.
Defined.

(** The output of X5's example. *)
Example upsample16to24_example :
  upsample16to24 Inputs.samples4 = [0; 20; 0; -60; 40; 90].
Proof. vm_compute. reflexivity. Qed.

Lemma decimate_lookup (s : list Z) (n : Z) (k i : nat) :
  (0 < k)%nat -> Z.to_nat n = (length s / k)%nat ->
  (i < length s / k)%nat ->
  fillInt16 n (fun j => sampleAt s (j * Z.of_nat k)) !! i
  = JS.toInt16 <$> s !! (k * i)%nat.
Proof.
  intros Hk Hn Hi. rewrite lookup_fillInt16, Hn.
  destruct (decide _) as [_|]; [|lia].
  destruct (s !! (k * i)%nat) as [x|] eqn:E.
  - replace (Z.of_nat i * Z.of_nat k) with (Z.of_nat (k * i)) by lia.
    by rewrite (sampleAt_lookup _ _ _ E).
  - apply lookup_ge_None in E.
    pose proof (Nat.Div0.mul_div_le (length s) k). nia.
Qed.

(** The last branch of [resampleAudio] towards a rate [k] times higher
    repeats every sample [k] times. *)
Lemma repeat_lookup (s : list Z) (fromRate : Z) (k j : nat) :
  0 < fromRate -> (0 < k)%nat ->
  Forall JS.is_int16 s ->
  (j < k * length s)%nat ->
  resampleGeneric s fromRate (Z.of_nat k * fromRate) !! j = s !! (j / k)%nat.
Proof.
  intros Hrate Hk Hs Hj.
  unfold resampleGeneric, genericOutputLength. rewrite lookup_fillInt16.
  replace (len s * (Z.of_nat k * fromRate))
    with (len s * Z.of_nat k * fromRate) by lia.
  rewrite Z.div_mul by lia.
  destruct (decide _) as [_|Hn]; [|unfold len in Hn; lia].
  replace (Z.of_nat j * fromRate / (Z.of_nat k * fromRate))
    with (Z.of_nat (j / k)).
  2:{ rewrite Nat2Z.inj_div. rewrite Z.div_mul_cancel_r by lia. done. }
  destruct (s !! (j / k)%nat) as [x|] eqn:E.
  - rewrite (sampleAt_lookup _ _ _ E). f_equal.
    apply toInt16_id. by apply (int16_lookup s (j / k)).
  - apply lookup_ge_None in E.
    assert (j / k < length s)%nat; [|lia].
    apply Nat.Div0.div_lt_upper_bound. lia.
Qed.

Lemma repeat_length (s : list Z) (fromRate : Z) (k : nat) :
  0 < fromRate ->
  length (resampleGeneric s fromRate (Z.of_nat k * fromRate))
  = (k * length s)%nat.
Proof.
  intros Hrate. unfold resampleGeneric, genericOutputLength, fillInt16.
  rewrite length_map, length_seq.
  replace (len s * (Z.of_nat k * fromRate))
    with (len s * Z.of_nat k * fromRate) by lia.
  rewrite Z.div_mul by lia. unfold len. lia.
Qed.

(** X6.  Going up to 48000 Hz and back is lossless on 16-bit samples:
    from 24000 Hz every sample is repeated twice and from 16000 Hz three
    times, and downsampling the result gives back the original array,
    sample for sample. *)
Theorem X6_up_to_48000_and_back_is_identity (s : list Z) :
  Forall JS.is_int16 s ->
  (forall j, (j < 2 * length s)%nat ->
             resampleAudio s 24000 48000 !! j = s !! (j / 2)%nat)
  /\ (forall j, (j < 3 * length s)%nat ->
                resampleAudio s 16000 48000 !! j = s !! (j / 3)%nat)
  /\ roundTrip s 24000 48000 = s
  /\ roundTrip s 16000 48000 = s.
Proof.
  intros Hs.
  assert (U2 : forall j, (j < 2 * length s)%nat ->
                 resampleAudio s 24000 48000 !! j = s !! (j / 2)%nat).
  { intros j Hj.
    change (resampleAudio s 24000 48000)
      with (resampleGeneric s 24000 (Z.of_nat 2 * 24000)).
    apply repeat_lookup; [lia|lia|done|lia]. }
  assert (U3 : forall j, (j < 3 * length s)%nat ->
                 resampleAudio s 16000 48000 !! j = s !! (j / 3)%nat).
  { intros j Hj.
    change (resampleAudio s 16000 48000)
      with (resampleGeneric s 16000 (Z.of_nat 3 * 16000)).
    apply repeat_lookup; [lia|lia|done|lia]. }
  assert (L2 : length (resampleAudio s 24000 48000) = (2 * length s)%nat).
  { change (resampleAudio s 24000 48000)
      with (resampleGeneric s 24000 (Z.of_nat 2 * 24000)).
    apply repeat_length; lia. }
  assert (L3 : length (resampleAudio s 16000 48000) = (3 * length s)%nat).
  { change (resampleAudio s 16000 48000)
      with (resampleGeneric s 16000 (Z.of_nat 3 * 16000)).
    apply repeat_length; lia. }
  split; [done|]. split; [done|]. split.
  - unfold roundTrip.
    change (resampleAudio (resampleAudio s 24000 48000) 48000 24000)
      with (downsample48to24 (resampleAudio s 24000 48000)).
    apply list_eq. intros i. unfold downsample48to24.
    destruct (decide (i < length s)%nat) as [Hi|Hi].
    + change 2 with (Z.of_nat 2).
      rewrite (decimate_lookup _ _ 2 i);
        [|lia| |rewrite L2; by rewrite Nat.mul_comm, Nat.div_mul by lia].
      * rewrite U2 by lia.
        rewrite Nat.mul_comm, Nat.div_mul by lia.
        destruct (s !! i) as [x|] eqn:E; [|done]. cbn. f_equal.
        apply toInt16_id. by apply (int16_lookup s i).
      * unfold len. rewrite L2, Nat2Z.inj_mul.
        rewrite Z.mul_comm, Z.div_mul by lia.
        rewrite Nat2Z.id. by rewrite Nat.mul_comm, Nat.div_mul by lia.
    + rewrite (lookup_ge_None_2 s) by lia.
      apply lookup_ge_None_2. unfold fillInt16.
      rewrite length_map, length_seq. unfold len.
      rewrite L2, Nat2Z.inj_mul, Z.mul_comm, Z.div_mul by lia. lia.
  - unfold roundTrip.
    change (resampleAudio (resampleAudio s 16000 48000) 48000 16000)
      with (downsample48to16 (resampleAudio s 16000 48000)).
    apply list_eq. intros i. unfold downsample48to16.
    destruct (decide (i < length s)%nat) as [Hi|Hi].
    + change 3 with (Z.of_nat 3).
      rewrite (decimate_lookup _ _ 3 i);
        [|lia| |rewrite L3; by rewrite Nat.mul_comm, Nat.div_mul by lia].
      * rewrite U3 by lia.
        rewrite Nat.mul_comm, Nat.div_mul by lia.
        destruct (s !! i) as [x|] eqn:E; [|done]. cbn. f_equal.
        apply toInt16_id. by apply (int16_lookup s i).
      * unfold len. rewrite L3, Nat2Z.inj_mul.
        rewrite Z.mul_comm, Z.div_mul by lia.
        rewrite Nat2Z.id. by rewrite Nat.mul_comm, Nat.div_mul by lia.
    + rewrite (lookup_ge_None_2 s) by lia.
      apply lookup_ge_None_2. unfold fillInt16.
      rewrite length_map, length_seq. unfold len.
      rewrite L3, Nat2Z.inj_mul, Z.mul_comm, Z.div_mul by lia. lia.
Qed.

(** X6 on four samples. *)
Lemma X6_up_and_back_witness :
  (forall j, (j < 2 * length Inputs.samples4)%nat ->
             resampleAudio Inputs.samples4 24000 48000 !! j
             = Inputs.samples4 !! (j / 2)%nat)
  /\ (forall j, (j < 3 * length Inputs.samples4)%nat ->
                resampleAudio Inputs.samples4 16000 48000 !! j
                = Inputs.samples4 !! (j / 3)%nat)
  /\ roundTrip Inputs.samples4 24000 48000 = Inputs.samples4
  /\ roundTrip Inputs.samples4 16000 48000 = Inputs.samples4.
Proof.
  apply (X6_up_to_48000_and_back_is_identity Inputs.samples4).
  repeat constructor; vm_compute; discriminate.
Defined.

(** The exact source indices of the last branch agree with their
    binary64 evaluation on every index up to 2048, in the three
    supported directions that take that branch. *)
Example genericSourceIndex_f64_agrees :
  forallb (fun i =>
             (ResamplerF64.genericSourceIndex_f64 i 16000 48000
              =? i * 16000 / 48000)
             && (ResamplerF64.genericSourceIndex_f64 i 24000 48000
                 =? i * 24000 / 48000)
             && (ResamplerF64.genericSourceIndex_f64 i 24000 16000
                 =? i * 24000 / 16000))
    (map Z.of_nat (seq 0 (Z.to_nat 2049))) = true.
Proof. vm_compute. reflexivity. Qed.

End ResamplerMore.

(** ** The audio validator *)

Section ValidatorMore.

Import AudioValidator.

Lemma foldl_max_ge (l : list Z) (x : Z) : x <= foldl Z.max x l.
Proof.
  revert x. induction l as [|y l IH]; intros x; cbn; [lia|].
  specialize (IH (Z.max x y)). lia.
Qed.

Lemma foldl_max_spec (l : list Z) (x m : Z) :
  m <= foldl Z.max x l <-> m <= x \/ exists y, In y l /\ m <= y.
Proof.
  revert x. induction l as [|y l IH]; intros x; cbn.
  - split; [auto|]. intros [H|(y & [] & _)]. done.
  - rewrite IH. split.
    + intros [H|(z & Hz & Hm)].
      * destruct (Z.max_spec x y) as [[_ E]|[_ E]]; rewrite E in H;
          [right; exists y; auto | auto].
      * right. exists z. auto.
    + intros [H|(z & [->|Hz] & Hm)]; [left; lia|left; lia|].
      right. exists z. auto.
Qed.

(** X7.  [validateAudio] answers [true] exactly when one of the first
    1000 samples has an absolute value of at least 10: it answers [false]
    for a missing or empty array, and whatever comes after the first 1000
    samples plays no part. *)
Theorem X7_validateAudio_looks_at_first_1000 (s : list Z) :
  validateAudio None = false
  /\ validateAudio (Some []) = false
  /\ (validateAudio (Some s) = true <->
      exists i x, (i < 1000)%nat /\ s !! i = Some x /\ 10 <= Z.abs x)
  /\ ((1000 <= length s)%nat ->
      forall s', validateAudio (Some (s ++ s')) = validateAudio (Some s)).
Proof.
  assert (Hmain : forall s : list Z,
            validateAudio (Some s) = true <->
            exists i x, (i < 1000)%nat /\ s !! i = Some x
                        /\ 10 <= Z.abs x).
  { clear s. intros s. unfold validateAudio.
    destruct s as [|x0 s]; [cbn; split; [done|]|].
    { intros (i & x & _ & H & _). by rewrite lookup_nil in H. }
    destruct (Z.eqb_spec (Z.of_nat (length (x0 :: s))) 0) as [E|_];
      [cbn in E; lia|].
    destruct (Z.to_nat (Z.min 1000 (Z.of_nat (length (x0 :: s)))))
      as [|n'] eqn:Hn; [cbn [length] in Hn; lia|].
    cbn [length] in Hn.
    cbn [take map mathMax].
    rewrite negb_true_iff, Z.ltb_ge, foldl_max_spec.
    split.
    - intros [H|(y & Hy & Hm)].
      + exists 0%nat, x0. split; [lia|]. by split.
      + apply in_map_iff in Hy as (x & <- & Hx).
        apply list_elem_of_In, list_elem_of_lookup in Hx as (i & Hi).
        apply lookup_take_Some in Hi as [Hi Hlt].
        exists (S i), x. split; [lia|]. by split.
    - intros (i & x & Hi & Hx & Hm).
      destruct i as [|i]; [left; cbn in Hx; by injection Hx as ->|].
      right. exists (Z.abs x). split; [|done].
      apply in_map, list_elem_of_In, list_elem_of_lookup.
      exists i. apply lookup_take_Some. split; [done|].
      apply lookup_lt_Some in Hx. cbn [length] in Hx. lia. }
  split; [done|]. split; [done|]. split; [apply Hmain|].
  intros Hlen s'.
  assert (Hiff : validateAudio (Some (s ++ s')) = true
                 <-> validateAudio (Some s) = true).
  { rewrite !Hmain. split; intros (i & x & Hi & Hx & Hm); exists i, x;
      (split; [done|]); (split; [|done]).
    - by rewrite lookup_app_l in Hx by lia.
    - by rewrite lookup_app_l by lia. }
  destruct (validateAudio (Some (s ++ s'))), (validateAudio (Some s));
    try done.
  - symmetry. by apply Hiff.
  - by apply Hiff.
Qed.

End ValidatorMore.

(** ** What the participant tracker keeps true *)

Section TrackerMore.

Import ParticipantTracker TrackerFacts.

Lemma inv_new (now : Z) : trackerInv (new now).
Proof.
  split; intros u p H; cbn in H; by rewrite lookup_empty in H.
Qed.

Lemma inv_addParticipant (now : Z) (d : ParticipantData) (tr : t) :
  pd_uuid d <> "" -> trackerInv tr -> trackerInv (addParticipant now d tr).
Proof.
  intros Hd [K S]. unfold addParticipant, set_participant. cbn.
  split; intros u p; cbn; rewrite lookup_insert;
    destruct (decide (pd_uuid d = u)) as [E|Hne].
  - intros [= <-]. cbn. by rewrite <- E.
  - apply K.
  - by intros [= <-].
  - apply S.
Qed.

Lemma inv_alter (f : Participant -> Participant) (u : string) (tr : t) :
  (forall p, uuid (f p) = uuid p /\ isSpeaking (f p) = isSpeaking p) ->
  trackerInv tr -> trackerInv (alter_participant f u tr).
Proof.
  intros Hf [K S]. unfold alter_participant.
  split; intros v q; cbn; rewrite lookup_alter;
    destruct (decide (u = v)) as [->|Hne]; try apply K; try apply S.
  - destruct (participants tr !! v) as [p|] eqn:E; [|done].
    intros [= <-]. destruct (Hf p) as [-> _]. by apply K.
  - destruct (participants tr !! v) as [p|] eqn:E; [|done].
    intros [= <-]. destruct (Hf p) as [_ ->]. by apply S.
Qed.

Lemma is_speaking_alter (f : Participant -> Participant) (u v : string)
  (tr : t) :
  (forall p, isSpeaking (f p) = isSpeaking p) ->
  is_speaking v (alter_participant f u tr) = is_speaking v tr.
Proof.
  intros Hf. unfold is_speaking, alter_participant. cbn.
  rewrite lookup_alter. destruct (decide (u = v)) as [->|]; [|done].
  destruct (participants tr !! v); [cbn; apply Hf|done].
Qed.

Lemma inv_onStopSpeaking (now : Z) (u : string) (tr : t) :
  trackerInv tr -> trackerInv (onStopSpeaking now u tr).
Proof.
  intros [K S]. unfold onStopSpeaking.
  destruct (participants tr !! u) as [p|] eqn:Ep; [|done].
  destruct (isSpeaking p) eqn:Esp; [|done]. cbn [negb].
  destruct (K u p Ep) as [Hu Hne].
  split; intros v q; cbn; rewrite lookup_insert;
    destruct (decide (u = v)) as [->|Hv].
  - intros [= <-]. cbn. by split.
  - apply K.
  - by intros [= <-].
  - intros Hq Hsq. pose proof (S v q Hq Hsq) as Hcur.
    rewrite Hcur, Hu. destruct (decide (Some v = Some u)); [|done].
    congruence.
Qed.

Lemma inv_onStartSpeaking (now : Z) (u : string) (tr : t) :
  trackerInv tr -> trackerInv (onStartSpeaking now u tr).
Proof.
  intros [K S]. unfold onStartSpeaking.
  destruct (participants tr !! u) as [p|] eqn:Ep; [|done].
  destruct (K u p Ep) as [Hu Hne]. rewrite Hu.
  set (p' := {| uuid := u; displayName := displayName p; role := role p;
                joinTime := joinTime p; isSpeaking := true;
                isMuted := isMuted p; lastSpokeAt := Some now;
                totalSpeakingTime := totalSpeakingTime p;
                speakingStartTime := Some now |}).
  set (tr1 := {| participants := <[u:=p']> (participants tr);
                 currentSpeaker := Some u;
                 speakingHistory := _; lastSpeakerChange := now |}).
  assert (K1 : keyed tr1).
  { intros v q. cbn. rewrite lookup_insert.
    destruct (decide (u = v)) as [->|Hv]; [by intros [= <-]|apply K]. }
  (* whoever else speaks in [tr1] is the previous speaker *)
  assert (S1 : forall v q, participants tr1 !! v = Some q ->
                 isSpeaking q = true -> v <> u ->
                 currentSpeaker tr = Some v
                 /\ participants tr !! v = Some q).
  { intros v q. cbn. rewrite lookup_insert.
    destruct (decide (u = v)) as [->|Hv]; [done|].
    intros Hq Hsq _. split; [by apply (S v q)|done]. }
  assert (Hplain : trackerInv tr1 \/
                   exists v q, currentSpeaker tr = Some v /\ v <> u
                               /\ participants tr !! v = Some q
                               /\ isSpeaking q = true).
  { destruct (currentSpeaker tr) as [v|] eqn:Ecur.
    - destruct (decide (v = u)) as [->|Hv].
      + left. split; [done|]. intros w q Hq Hsq.
        destruct (decide (w = u)) as [->|Hw]; [done|].
        destruct (S1 w q Hq Hsq Hw) as [[= ->] _]. done.
      + destruct (participants tr !! v) as [q|] eqn:Eq.
        * destruct (isSpeaking q) eqn:Esq.
          -- right. by exists v, q.
          -- left. split; [done|]. intros w q' Hq Hsq.
             destruct (decide (w = u)) as [->|Hw]; [done|].
             destruct (S1 w q' Hq Hsq Hw) as [[= ->] Hq'].
             congruence.
        * left. split; [done|]. intros w q' Hq Hsq.
          destruct (decide (w = u)) as [->|Hw]; [done|].
          destruct (S1 w q' Hq Hsq Hw) as [[= ->] Hq']. congruence.
    - left. split; [done|]. intros w q Hq Hsq.
      destruct (decide (w = u)) as [->|Hw]; [done|].
      by destruct (S1 w q Hq Hsq Hw) as [[=] _]. }
  destruct (currentSpeaker tr) as [prev|] eqn:Ecur.
  2:{ destruct Hplain as [H|(v & q & [=] & _)]. done. }
  destruct (JS.truthy (Some prev) && negb (String.eqb prev u)) eqn:Etest.
  2:{ destruct Hplain as [H|(v & q & Hc & Hv & Hq & Hsq)]; [done|].
      assert (v = prev) as -> by congruence.
      destruct (K prev q Hq) as [_ Hvne].
      rewrite (truthy_Some prev Hvne) in Etest. cbn in Etest.
      destruct (String.eqb_spec prev u); [done|discriminate]. }
  apply andb_true_iff in Etest as [_ Hpu].
  apply negb_true_iff in Hpu. apply String.eqb_neq in Hpu.
  assert (E1 : participants tr1 !! prev = participants tr !! prev).
  { cbn. by rewrite lookup_insert_ne. }
  rewrite E1.
  destruct (participants tr !! prev) as [pp|] eqn:Epp.
  2:{ destruct Hplain as [H|(v & q & Hc & Hv & Hq & Hsq)]; [done|].
      assert (v = prev) as -> by congruence. congruence. }
  destruct (isSpeaking pp) eqn:Espp.
  2:{ destruct Hplain as [H|(v & q & Hc & Hv & Hq & Hsq)]; [done|].
      assert (v = prev) as -> by congruence. congruence. }
  (* the previous speaker is stopped *)
  destruct (K prev pp Epp) as [Hpp Hprevne].
  unfold onStopSpeaking. rewrite E1, Espp. cbn [negb].
  split; intros w q; cbn; rewrite lookup_insert;
    destruct (decide (prev = w)) as [->|Hw].
  - intros [= <-]. cbn. by split.
  - apply K1.
  - by intros [= <-].
  - rewrite lookup_insert. destruct (decide (u = w)) as [->|Hwu].
    + intros _ _. rewrite Hpp.
      destruct (decide (Some w = Some prev)); [congruence|done].
    + intros Hq Hsq. pose proof (S w q Hq Hsq). congruence.
Qed.

Lemma inv_updateParticipant (now : Z) (d : ParticipantData) (tr : t) :
  pd_uuid d <> "" -> trackerInv tr ->
  trackerInv (updateParticipant now d tr).
Proof.
  intros Hd Hinv. unfold updateParticipant.
  destruct (participants tr !! pd_uuid d); [|by apply inv_addParticipant].
  set (tr1 := if JS.truthy (pd_display_name d) then _ else tr).
  assert (H1 : trackerInv tr1).
  { unfold tr1. destruct (JS.truthy _); [|done]. by apply inv_alter. }
  set (tr2 := match pd_vad d with Some _ => _ | None => tr1 end).
  assert (H2 : trackerInv tr2).
  { unfold tr2. destruct (pd_vad d) as [vad|]; [|done].
    destruct (_ && _); [by apply inv_onStartSpeaking|].
    destruct (_ && _); [by apply inv_onStopSpeaking|done]. }
  destruct (pd_is_muted d) as [m|]; [|done].
  assert (H3 : trackerInv (alter_participant (set_isMuted m) (pd_uuid d) tr2))
    by (by apply inv_alter).
  destruct (_ && _); [by apply inv_onStopSpeaking|done].
Qed.

Lemma inv_removeParticipant (now : Z) (d : ParticipantData) (tr : t) :
  trackerInv tr -> trackerInv (removeParticipant now d tr).
Proof.
  intros Hinv. unfold removeParticipant.
  destruct (participants tr !! pd_uuid d) as [p|]; [|done].
  set (tr1 := if isSpeaking p then _ else tr).
  assert (H1 : trackerInv tr1).
  { unfold tr1. destruct (isSpeaking p); [|done].
    by apply inv_onStopSpeaking. }
  destruct H1 as [K S].
  split; intros v q; cbn; rewrite lookup_delete;
    destruct (decide (pd_uuid d = v)); try done; [apply K|apply S].
Qed.

Lemma inv_updateStage (now : Z) (stage : list StageParticipant) (tr : t) :
  trackerInv tr -> trackerInv (updateStage now stage tr).
Proof.
  intros Hinv. unfold updateStage.
  destruct stage as [|activeSpeaker rest]; [done|].
  match goal with
  | |- trackerInv (foldl _ ?x _) => set (tr1 := x)
  end.
  assert (H1 : trackerInv tr1).
  { unfold tr1. destruct (_ && _); [|done]. by apply inv_onStartSpeaking. }
  clearbody tr1. generalize (activeSpeaker :: rest) as l.
  intros l. revert tr1 H1.
  induction l as [|sp l IH]; intros acc Hacc; [done|].
  cbn [foldl]. apply IH.
  destruct (participants acc !! sp_uuid sp) as [p|]; [|done].
  destruct (_ && _); [by apply inv_onStartSpeaking|].
  destruct (_ && _); [by apply inv_onStopSpeaking|done].
Qed.

Lemma inv_handleEvent (tr : t) (ev : Z * Event) :
  addedUuid ev <> Some "" -> trackerInv tr ->
  trackerInv (handleEvent tr ev).
Proof.
  destruct ev as [now [d|d|d|stage]]; cbn; intros Hu Hinv.
  - apply inv_addParticipant; [congruence|done].
  - apply inv_updateParticipant; [congruence|done].
  - by apply inv_removeParticipant.
  - by apply inv_updateStage.
Qed.

Lemma inv_run (t0 : Z) (evs : list (Z * Event)) :
  uuidsNotEmpty evs -> trackerInv (run t0 evs).
Proof.
  unfold run. generalize (inv_new t0). generalize (new t0).
  induction evs as [|ev evs IH]; intros tr Hinv Hevs; [done|].
  apply Forall_cons in Hevs as [Hev Hevs].
  cbn [foldl]. apply IH; [|done]. by apply inv_handleEvent.
Qed.

(** X8.  After any sequence of participant events in which no
    participant is added under an empty uuid: every participant object is
    filed under its own (non-empty) uuid; whoever is marked as speaking
    is the current speaker; hence at most one participant is marked as
    speaking. *)
Theorem X8_at_most_one_participant_is_speaking
  (t0 : Z) (evs : list (Z * Event)) :
  uuidsNotEmpty evs ->
  (forall u p, participants (run t0 evs) !! u = Some p ->
               uuid p = u /\ u <> "")
  /\ (forall u p, participants (run t0 evs) !! u = Some p ->
                  isSpeaking p = true ->
                  currentSpeaker (run t0 evs) = Some u)
  /\ (forall u v p q,
        participants (run t0 evs) !! u = Some p ->
        participants (run t0 evs) !! v = Some q ->
        isSpeaking p = true -> isSpeaking q = true -> u = v).
Proof.
  intros Hevs. destruct (inv_run t0 evs Hevs) as [K S].
  split; [done|]. split; [done|].
  intros u v p q Hp Hq Hsp Hsq.
  pose proof (S u p Hp Hsp). pose proof (S v q Hq Hsq). congruence.
Qed.

(** X8 on the run in which Bob starts to speak while Alice speaks. *)
Lemma X8_one_speaker_witness :
  (forall u p, participants (run 0 Scenario.twoSpeakers) !! u = Some p ->
               uuid p = u /\ u <> "")
  /\ (forall u p, participants (run 0 Scenario.twoSpeakers) !! u = Some p ->
                  isSpeaking p = true ->
                  currentSpeaker (run 0 Scenario.twoSpeakers) = Some u)
  /\ (forall u v p q,
        participants (run 0 Scenario.twoSpeakers) !! u = Some p ->
        participants (run 0 Scenario.twoSpeakers) !! v = Some q ->
        isSpeaking p = true -> isSpeaking q = true -> u = v).
Proof.
  apply (X8_at_most_one_participant_is_speaking 0 Scenario.twoSpeakers).
  repeat constructor; cbn; discriminate.
Defined.

(** Without the condition the property fails: a participant filed under
    the empty uuid is never stopped by the next speaker. *)
Example empty_uuid_two_speakers :
  is_speaking ""
    (run 0 [(1, Scenario.joined "" "Nobody"); (2, Scenario.joined "B" "Bob");
            (10, Scenario.vad "" 100); (20, Scenario.vad "B" 100)]) = true
  /\ is_speaking "B"
       (run 0 [(1, Scenario.joined "" "Nobody");
               (2, Scenario.joined "B" "Bob");
               (10, Scenario.vad "" 100); (20, Scenario.vad "B" 100)])
     = true.
Proof. vm_compute. auto. Qed.

Lemma closeLastEntry_snoc (now : Z) (u : string) (h : list HistoryEntry)
  (e : HistoryEntry) :
  closeLastEntry now u (h ++ [e])
  = if String.eqb (h_uuid e) u && negb (truthy_num (endTime e))
    then h ++ [{| h_uuid := h_uuid e; h_displayName := h_displayName e;
                  startTime := startTime e; endTime := Some now |}]
    else h ++ [e].
Proof.
  unfold closeLastEntry. rewrite last_snoc.
  destruct (_ && _); [|done]. by rewrite removelast_last.
Qed.

(** What [onStartSpeaking] leaves behind for the participant it starts. *)
Lemma onStartSpeaking_effect (now : Z) (u : string) (p : Participant)
  (tr : t) :
  keyed tr -> participants tr !! u = Some p ->
  participants (onStartSpeaking now u tr) !! u
  = Some {| uuid := u; displayName := displayName p; role := role p;
            joinTime := joinTime p; isSpeaking := true;
            isMuted := isMuted p; lastSpokeAt := Some now;
            totalSpeakingTime := totalSpeakingTime p;
            speakingStartTime := Some now |}
  /\ speakingHistory (onStartSpeaking now u tr)
     = speakingHistory tr
       ++ [{| h_uuid := u; h_displayName := displayName p;
              startTime := now; endTime := None |}]
  /\ currentSpeaker (onStartSpeaking now u tr) = Some u.
Proof.
  intros K Ep. unfold onStartSpeaking. rewrite Ep.
  destruct (K u p Ep) as [Hu Hne]. rewrite Hu.
  assert (Hbase : forall m h l,
            participants {| participants := <[u:=m]> (participants tr);
                            currentSpeaker := Some u;
                            speakingHistory := h;
                            lastSpeakerChange := l |} !! u = Some m).
  { intros. cbn. by rewrite lookup_insert_eq. }
  destruct (currentSpeaker tr) as [prev|]; [|by rewrite Hbase].
  destruct (_ && negb (String.eqb prev u)) eqn:Etest; [|by rewrite Hbase].
  apply andb_true_iff in Etest as [_ Hpu].
  apply negb_true_iff in Hpu. apply String.eqb_neq in Hpu.
  cbn [participants]. rewrite lookup_insert_ne by done.
  destruct (participants tr !! prev) as [pp|] eqn:Epp;
    [|by rewrite Hbase].
  destruct (isSpeaking pp) eqn:Espp; [|by rewrite Hbase].
  destruct (K prev pp Epp) as [Hpp _].
  unfold onStopSpeaking. cbn [participants].
  rewrite lookup_insert_ne, Epp, Espp by done. cbn [negb].
  cbn [participants speakingHistory currentSpeaker].
  rewrite lookup_insert_ne, lookup_insert_eq by done.
  rewrite closeLastEntry_snoc. cbn [h_uuid]. rewrite Hpp.
  destruct (String.eqb_spec u prev) as [->|_]; [done|]. cbn [andb].
  destruct (decide (Some u = Some prev)); [congruence|done].
Qed.

(** X9.  When a participant filed under its own uuid starts to speak at
    time [t1] (not 0) and stops at [t2] before anyone else starts, the
    interval that was appended to the history for it is closed with end
    time [t2], nobody is the current speaker afterwards, and the
    participant's total speaking time has grown by [t2 - t1]; this holds
    whoever was speaking before. *)
Theorem X9_start_then_stop_closes_the_interval
  (tr : t) (u : string) (p : Participant) (t1 t2 : Z) :
  keyed tr -> participants tr !! u = Some p -> t1 <> 0 ->
  speakingHistory (onStopSpeaking t2 u (onStartSpeaking t1 u tr))
  = speakingHistory tr
    ++ [{| h_uuid := u; h_displayName := displayName p;
           startTime := t1; endTime := Some t2 |}]
  /\ currentSpeaker (onStopSpeaking t2 u (onStartSpeaking t1 u tr)) = None
  /\ participants (onStopSpeaking t2 u (onStartSpeaking t1 u tr)) !! u
     = Some {| uuid := u; displayName := displayName p; role := role p;
               joinTime := joinTime p; isSpeaking := false;
               isMuted := isMuted p; lastSpokeAt := Some t1;
               totalSpeakingTime := totalSpeakingTime p + (t2 - t1);
               speakingStartTime := None |}.
Proof.
  intros K Ep Ht1.
  destruct (onStartSpeaking_effect t1 u p tr K Ep) as (Hp & Hh & Hc).
  unfold onStopSpeaking. rewrite Hp. cbn [isSpeaking negb].
  cbn [participants speakingHistory currentSpeaker uuid speakingStartTime
       truthy_num default totalSpeakingTime displayName role joinTime
       isMuted lastSpokeAt].
  destruct (Z.eqb_spec t1 0); [done|]. cbn [negb].
  rewrite Hh, Hc, closeLastEntry_snoc. cbn [h_uuid endTime truthy_num].
  rewrite String.eqb_refl. cbn [andb negb].
  rewrite lookup_insert_eq.
  destruct (decide (Some u = Some u)); done.
Qed.

(** X9 on Bob, who starts to speak while Alice does and stops at 30. *)
Lemma X9_start_then_stop_witness :
  speakingHistory
    (onStopSpeaking 30 "B"
       (onStartSpeaking 20 "B" (run 0 Inputs.oneSpeakerAndBob)))
  = speakingHistory (run 0 Inputs.oneSpeakerAndBob)
    ++ [{| h_uuid := "B";
           h_displayName := displayName Inputs.bob;
           startTime := 20; endTime := Some 30 |}]
  /\ currentSpeaker
       (onStopSpeaking 30 "B"
          (onStartSpeaking 20 "B" (run 0 Inputs.oneSpeakerAndBob)))
     = None
  /\ participants
       (onStopSpeaking 30 "B"
          (onStartSpeaking 20 "B" (run 0 Inputs.oneSpeakerAndBob)))
     !! "B"
     = Some {| uuid := "B"; displayName := displayName Inputs.bob;
               role := role Inputs.bob;
               joinTime := joinTime Inputs.bob; isSpeaking := false;
               isMuted := isMuted Inputs.bob; lastSpokeAt := Some 20;
               totalSpeakingTime :=
                 totalSpeakingTime Inputs.bob + (30 - 20);
               speakingStartTime := None |}.
Proof.
  apply (X9_start_then_stop_closes_the_interval
           (run 0 Inputs.oneSpeakerAndBob) "B" Inputs.bob 20 30).
  - apply inv_run. repeat constructor; cbn; discriminate.
  - vm_compute. reflexivity.
  - discriminate.
Defined.

Lemma continues_refl (h : list HistoryEntry) : continues h h.
Proof. intros i e He. by exists e. Qed.

Lemma continues_trans (h1 h2 h3 : list HistoryEntry) :
  continues h1 h2 -> continues h2 h3 -> continues h1 h3.
Proof.
  intros H12 H23 i e He.
  destruct (H12 i e He) as (e2 & He2 & Ho2 & Hc2).
  destruct (H23 i e2 He2) as (e3 & He3 & Ho3 & Hc3).
  exists e3. split; [done|]. split; [congruence|].
  intros Ht. rewrite <- (Hc2 Ht). apply Hc3. by rewrite (Hc2 Ht).
Qed.

Lemma continues_app (h l : list HistoryEntry) : continues h (h ++ l).
Proof.
  intros i e He. exists e. split; [|done].
  by apply lookup_app_l_Some.
Qed.

Lemma continues_closeLastEntry (now : Z) (u : string)
  (h : list HistoryEntry) :
  continues h (closeLastEntry now u h).
Proof.
  destruct (last h) as [e|] eqn:El.
  - apply last_Some in El as [h0 ->]. rewrite closeLastEntry_snoc.
    destruct (String.eqb (h_uuid e) u && negb (truthy_num (endTime e)))
      eqn:Etest; [|apply continues_refl].
    apply andb_true_iff in Etest as [_ Hopen].
    apply negb_true_iff in Hopen.
    intros i x Hx.
    destruct (decide (i < length h0)%nat) as [Hi|Hi].
    + rewrite lookup_app_l in Hx by done. exists x.
      by rewrite lookup_app_l by done.
    + rewrite lookup_app_r in Hx by lia.
      destruct (i - length h0)%nat as [|k] eqn:Ek; [|done].
      cbn in Hx. injection Hx as <-.
      eexists. rewrite lookup_app_r, Ek by lia. split; [done|].
      split; [done|]. by rewrite Hopen.
  - unfold closeLastEntry. rewrite El. apply continues_refl.
Qed.

Lemma continues_onStopSpeaking (now : Z) (u : string) (tr : t) :
  continues (speakingHistory tr)
    (speakingHistory (onStopSpeaking now u tr)).
Proof.
  unfold onStopSpeaking.
  destruct (participants tr !! u) as [p|]; [|apply continues_refl].
  destruct (isSpeaking p); [|apply continues_refl].
  apply continues_closeLastEntry.
Qed.

Lemma continues_onStartSpeaking (now : Z) (u : string) (tr : t) :
  continues (speakingHistory tr)
    (speakingHistory (onStartSpeaking now u tr)).
Proof.
  unfold onStartSpeaking.
  destruct (participants tr !! u) as [p|]; [|apply continues_refl].
  match goal with
  | |- context [onStopSpeaking _ _ ?x] => set (tr1 := x)
  end.
  assert (H1 : continues (speakingHistory tr) (speakingHistory tr1))
    by apply continues_app.
  destruct (currentSpeaker tr) as [prev|]; [|done].
  destruct (_ && _); [|done].
  destruct (participants tr1 !! prev) as [pp|]; [|done].
  destruct (isSpeaking pp); [|done].
  eapply continues_trans; [exact H1|apply continues_onStopSpeaking].
Qed.

Lemma continues_handleEvent (tr : t) (ev : Z * Event) :
  continues (speakingHistory tr) (speakingHistory (handleEvent tr ev)).
Proof.
  destruct ev as [now [d|d|d|stage]]; cbn [handleEvent].
  - apply continues_refl.
  - unfold updateParticipant.
    destruct (participants tr !! pd_uuid d); [|apply continues_refl].
    match goal with
    | |- context [set_displayName ?n] =>
        set (tr1 := if JS.truthy (pd_display_name d)
                    then alter_participant (set_displayName n)
                           (pd_uuid d) tr
                    else tr)
    end.
    assert (H1 : continues (speakingHistory tr) (speakingHistory tr1)).
    { unfold tr1. destruct (JS.truthy _); apply continues_refl. }
    match goal with
    | |- context [match pd_is_muted d with
                  | Some _ => _ | None => ?x end] => set (tr2 := x)
    end.
    assert (H2 : continues (speakingHistory tr) (speakingHistory tr2)).
    { unfold tr2. destruct (pd_vad d) as [vad|]; [|done].
      destruct (_ && _);
        [eapply continues_trans;
           [exact H1|apply continues_onStartSpeaking]|].
      destruct (_ && _); [|done].
      eapply continues_trans; [exact H1|apply continues_onStopSpeaking]. }
    destruct (pd_is_muted d) as [m|]; [|done].
    destruct (_ && _); [|done].
    eapply continues_trans; [exact H2|].
    apply (continues_onStopSpeaking now (pd_uuid d)
             (alter_participant (set_isMuted m) (pd_uuid d) tr2)).
  - unfold removeParticipant.
    destruct (participants tr !! pd_uuid d) as [p|]; [|apply continues_refl].
    cbn [speakingHistory].
    destruct (isSpeaking p);
      [apply continues_onStopSpeaking|apply continues_refl].
  - unfold updateStage.
    destruct stage as [|activeSpeaker rest]; [apply continues_refl|].
    match goal with
    | |- continues _ (speakingHistory (foldl _ ?x _)) => set (tr1 := x)
    end.
    assert (H1 : continues (speakingHistory tr) (speakingHistory tr1)).
    { unfold tr1. destruct (_ && _);
        [apply continues_onStartSpeaking|apply continues_refl]. }
    clearbody tr1. generalize (activeSpeaker :: rest) as l.
    intros l. revert tr1 H1.
    induction l as [|sp l IH]; intros acc Hacc; [done|].
    cbn [foldl]. apply IH. eapply continues_trans; [exact Hacc|].
    destruct (participants acc !! sp_uuid sp) as [p|];
      [|apply continues_refl].
    destruct (_ && _); [apply continues_onStartSpeaking|].
    destruct (_ && _);
      [apply continues_onStopSpeaking|apply continues_refl].
Qed.

(** X10.  The speaking history is an append-only log: whatever events
    follow, every interval stays at its position with the participant,
    the display name and the start time it was opened with, and an
    interval that has been closed (end time set, not 0) never changes
    again. *)
Theorem X10_history_is_append_only
  (t0 : Z) (evs more : list (Z * Event)) :
  forall i e,
    speakingHistory (run t0 evs) !! i = Some e ->
    exists e',
      speakingHistory (run t0 (evs ++ more)) !! i = Some e'
      /\ h_uuid e' = h_uuid e
      /\ h_displayName e' = h_displayName e
      /\ startTime e' = startTime e
      /\ (truthy_num (endTime e) = true -> e' = e).
Proof.
  assert (H : continues (speakingHistory (run t0 evs))
                (speakingHistory (run t0 (evs ++ more)))).
  { unfold run. rewrite foldl_app. generalize (foldl handleEvent (new t0) evs).
    induction more as [|ev more IH]; intros tr; [apply continues_refl|].
    cbn [foldl]. eapply continues_trans; [apply continues_handleEvent|].
    apply IH. }
  intros i e He. destruct (H i e He) as (e' & He' & Ho & Hc).
  exists e'. unfold opening in Ho. injection Ho as Hu Hd Hs.
  by repeat split.
Qed.

(** X10 on Alice's interval, open at the time of the first run and
    closed by the event that follows. *)
Lemma X10_history_witness :
  exists e',
    speakingHistory
      (run 0 (Scenario.oneSpeaker ++ [(20, Scenario.vad "A" 0)])) !! 0%nat
    = Some e'
    /\ h_uuid e' = h_uuid Inputs.aliceOpen
    /\ h_displayName e' = h_displayName Inputs.aliceOpen
    /\ startTime e' = startTime Inputs.aliceOpen
    /\ (truthy_num (endTime Inputs.aliceOpen) = true ->
        e' = Inputs.aliceOpen).
Proof.
  apply (X10_history_is_append_only 0 Scenario.oneSpeaker
           [(20, Scenario.vad "A" 0)] 0%nat Inputs.aliceOpen).
  vm_compute. reflexivity.
Defined.

End TrackerMore.

(** ** The audio processor: one buffer per track *)

Section ProcessorMore.

Import AudioProcessor.

Lemma mapGet_mapSet_eq {A} (k : string) (v : A) (m : list (string * A)) :
  mapGet k (mapSet k v m) = Some v.
Proof.
  induction m as [|[k' v'] m IH]; cbn.
  - by rewrite String.eqb_refl.
  - destruct (String.eqb_spec k' k) as [->|Hne]; cbn.
    + by rewrite String.eqb_refl.
    + by destruct (String.eqb_spec k' k).
Qed.

Lemma mapGet_mapSet_ne {A} (k k0 : string) (v : A) (m : list (string * A)) :
  k <> k0 -> mapGet k0 (mapSet k v m) = mapGet k0 m.
Proof.
  intros Hne. induction m as [|[k' v'] m IH]; cbn.
  - by destruct (String.eqb_spec k k0).
  - destruct (String.eqb_spec k' k) as [->|Hk]; cbn.
    + by destruct (String.eqb_spec k k0).
    + by rewrite IH.
Qed.

Lemma mapGet_mapDelete_eq {A} (k : string) (m : list (string * A)) :
  mapGet k (mapDelete k m) = None.
Proof.
  induction m as [|[k' v'] m IH]; cbn; [done|].
  destruct (String.eqb_spec k' k) as [->|Hk]; cbn; [done|].
  by destruct (String.eqb_spec k' k).
Qed.

Lemma mapGet_mapDelete_ne {A} (k k0 : string) (m : list (string * A)) :
  k <> k0 -> mapGet k0 (mapDelete k m) = mapGet k0 m.
Proof.
  intros Hne. unfold mapDelete.
  induction m as [|[k' v'] m IH]; cbn; [done|].
  destruct (String.eqb_spec k' k) as [->|Hk]; cbn.
  - by destruct (String.eqb_spec k k0).
  - by rewrite IH.
Qed.

Lemma mapGet_Some_In {A} (k : string) (v : A) (m : list (string * A)) :
  mapGet k m = Some v -> In k (map fst m).
Proof.
  induction m as [|[k' v'] m IH]; cbn; [done|].
  destruct (String.eqb_spec k' k) as [->|Hk]; [auto|].
  intros H. right. by apply IH.
Qed.

Lemma addSamples_trackId (now : Z) (f : list Z) (b : AudioBuffer.t) :
  AudioBuffer.trackId (snd (AudioBuffer.addSamples now f b))
  = AudioBuffer.trackId b
  /\ forall c, fst (AudioBuffer.addSamples now f b) = Some c ->
               AudioBuffer.chunk_trackId c = AudioBuffer.trackId b.
Proof.
  unfold AudioBuffer.addSamples, AudioBuffer.createChunk,
    AudioBuffer.splice0. cbn.
  destruct (_ <=? _); cbn; split; try done. by intros c [= <-].
Qed.

Lemma deliveredFor_deliver (id : string) (d : Delivered) (p : t) :
  onChunkReady p = true ->
  deliveredFor id (deliver d p)
  = deliveredFor id p
    ++ (if String.eqb (AudioBuffer.chunk_trackId (chunk d)) id
        then [chunk d] else []).
Proof.
  intros Hcb. unfold deliveredFor, deliver. cbn. rewrite Hcb.
  rewrite map_app, List.filter_app. cbn.
  by destruct (String.eqb _ id).
Qed.

(** One call of [processAudioData], seen from the track [id]. *)
Lemma processAudioData_track (now : Z)
  (tracker : option ParticipantTracker.t) (a : AudioData) (p : t)
  (id : string) :
  processorInv p ->
  let b :=
    default
      (AudioBuffer.new now
         {| AudioBuffer.cfg_sampleRate := Some (sampleRate a);
            AudioBuffer.cfg_targetDurationMs := Some (chunkDurationMs p);
            AudioBuffer.cfg_trackId := trackId a;
            AudioBuffer.cfg_saveToFile := saveRawPCM p |})
      (mapGet (trackId a) (buffers p)) in
  let p' := processAudioData now tracker a p in
  processorInv p'
  /\ chunkDurationMs p' = chunkDurationMs p
  /\ saveRawPCM p' = saveRawPCM p
  /\ (trackId a = id ->
      mapGet id (buffers p')
      = Some (snd (AudioBuffer.addSamples now (samples a) b))
      /\ deliveredFor id p'
         = deliveredFor id p
           ++ match fst (AudioBuffer.addSamples now (samples a) b) with
              | Some c => [c]
              | None => []
              end)
  /\ (trackId a <> id ->
      mapGet id (buffers p') = mapGet id (buffers p)
      /\ deliveredFor id p' = deliveredFor id p).
Proof.
  intros [Hcb Hkey]. cbn zeta. unfold processAudioData.
  set (fresh := AudioBuffer.new now _).
  assert (Hb : AudioBuffer.trackId
                 (default fresh (mapGet (trackId a) (buffers p)))
               = trackId a).
  { destruct (mapGet (trackId a) (buffers p)) as [b0|] eqn:E; cbn;
      [by apply Hkey|done]. }
  destruct (mapGet (trackId a) (buffers p)) as [b0|] eqn:Eget;
    cbn in Hb; cbn [default from_option Datatypes.id].
  - destruct (addSamples_trackId now (samples a) b0) as [Ht Hc].
    destruct (AudioBuffer.addSamples now (samples a) b0) as [oc b'] eqn:Eadd.
    cbn [fst snd] in *.
    assert (Hinv1 : forall k b, mapGet k (mapSet (trackId a) b' (buffers p))
                                = Some b -> AudioBuffer.trackId b = k).
    { intros k b. destruct (decide (trackId a = k)) as [<-|Hk].
      - rewrite mapGet_mapSet_eq. intros [= <-]. congruence.
      - rewrite mapGet_mapSet_ne by done. apply Hkey. }
    assert (Hget : trackId a = id ->
              mapGet id (mapSet (trackId a) b' (buffers p)) = Some b').
    { intros ->. apply mapGet_mapSet_eq. }
    assert (Hget' : trackId a <> id ->
              mapGet id (mapSet (trackId a) b' (buffers p))
              = mapGet id (buffers p)).
    { intros Hne. by apply mapGet_mapSet_ne. }
    destruct oc as [c|].
    + split; [done|]. split; [done|]. split; [done|]. split.
      * intros E. split; [unfold deliver; cbn [buffers]; by apply Hget|].
        subst id.
        rewrite deliveredFor_deliver by done. cbn.
        by rewrite (Hc c eq_refl), Hb, String.eqb_refl.
      * intros Hne. split; [unfold deliver; cbn [buffers]; by apply Hget'|].
        rewrite deliveredFor_deliver by done. cbn.
        rewrite (Hc c eq_refl), Hb.
        destruct (String.eqb_spec (trackId a) id); [done|].
        by rewrite app_nil_r.
    + split; [done|]. split; [done|]. split; [done|]. split.
      * intros E. split; [by apply Hget|]. by rewrite app_nil_r.
      * intros Hne. split; [by apply Hget'|done].
  - clear Hb. assert (Hb : AudioBuffer.trackId fresh = trackId a) by done.
    destruct (addSamples_trackId now (samples a) fresh) as [Ht Hc].
    destruct (AudioBuffer.addSamples now (samples a) fresh)
      as [oc b'] eqn:Eadd.
    cbn [fst snd] in *.
    assert (Hinv1 : forall k b, mapGet k (mapSet (trackId a) b' (buffers p))
                                = Some b -> AudioBuffer.trackId b = k).
    { intros k b. destruct (decide (trackId a = k)) as [<-|Hk].
      - rewrite mapGet_mapSet_eq. intros [= <-]. congruence.
      - rewrite mapGet_mapSet_ne by done. apply Hkey. }
    assert (Hget : trackId a = id ->
              mapGet id (mapSet (trackId a) b' (buffers p)) = Some b').
    { intros ->. apply mapGet_mapSet_eq. }
    assert (Hget' : trackId a <> id ->
              mapGet id (mapSet (trackId a) b' (buffers p))
              = mapGet id (buffers p)).
    { intros Hne. by apply mapGet_mapSet_ne. }
    destruct oc as [c|].
    + split; [done|]. split; [done|]. split; [done|]. split.
      * intros E. split; [unfold deliver; cbn [buffers]; by apply Hget|].
        subst id.
        rewrite deliveredFor_deliver by done. cbn.
        by rewrite (Hc c eq_refl), Hb, String.eqb_refl.
      * intros Hne. split; [unfold deliver; cbn [buffers]; by apply Hget'|].
        rewrite deliveredFor_deliver by done. cbn.
        rewrite (Hc c eq_refl), Hb.
        destruct (String.eqb_spec (trackId a) id); [done|].
        by rewrite app_nil_r.
    + split; [done|]. split; [done|]. split; [done|]. split.
      * intros E. split; [by apply Hget|]. by rewrite app_nil_r.
      * intros Hne. split; [by apply Hget'|done].
Qed.

Lemma processAll_cons (f : Z * option ParticipantTracker.t * AudioData)
  (frames : list (Z * option ParticipantTracker.t * AudioData)) (p : t) :
  processAll (f :: frames) p
  = processAll frames
      (processAudioData (fst (fst f)) (snd (fst f)) (snd f) p).
Proof. reflexivity. Qed.

Lemma framesOf_cons (id : string)
  (f : Z * option ParticipantTracker.t * AudioData)
  (frames : list (Z * option ParticipantTracker.t * AudioData)) :
  framesOf id (f :: frames)
  = if String.eqb (trackId (snd f)) id
    then (fst (fst f), samples (snd f)) :: framesOf id frames
    else framesOf id frames.
Proof. unfold framesOf. cbn. by destruct (String.eqb _ id). Qed.

(** A run of [processAudioData], seen from the track [id]: its buffer
    receives the frames of that track, and those only. *)
Lemma processAll_track
  (frames : list (Z * option ParticipantTracker.t * AudioData)) :
  forall (p : t) (id : string),
    processorInv p ->
    processorInv (processAll frames p)
    /\ match (match mapGet id (buffers p) with
              | Some b => Some b
              | None => bufferFor p id frames
              end) with
       | Some b0 =>
           mapGet id (buffers (processAll frames p))
           = Some (snd (AudioBuffer.addSamplesAll (framesOf id frames) b0))
           /\ deliveredFor id (processAll frames p)
              = deliveredFor id p
                ++ fst (AudioBuffer.addSamplesAll (framesOf id frames) b0)
       | None =>
           mapGet id (buffers (processAll frames p)) = None
           /\ deliveredFor id (processAll frames p) = deliveredFor id p
       end.
Proof.
  induction frames as [|[[now tracker] a] frames IH]; intros p id Hinv.
  - split; [done|]. cbn.
    destruct (mapGet id (buffers p)) eqn:E; cbn; [|done].
    by rewrite app_nil_r.
  - rewrite processAll_cons. cbn [fst snd].
    destruct (processAudioData_track now tracker a p id Hinv)
      as (Hinv1 & Hdur & Hraw & Hsame & Hother).
    destruct (IH (processAudioData now tracker a p) id Hinv1)
      as [Hinv' Htrack].
    split; [done|].
    destruct (decide (trackId a = id)) as [Ea|Ea].
    + destruct (Hsame Ea) as [Hget Hdel]. rewrite Hget in Htrack.
      clear Hsame Hother. subst id.
      destruct Htrack as [Hget' Hdel'].
      assert (Hstart :
                match mapGet (trackId a) (buffers p) with
                | Some b => Some b
                | None => bufferFor p (trackId a) ((now, tracker, a) :: frames)
                end
                = Some (default
                          (AudioBuffer.new now
                             {| AudioBuffer.cfg_sampleRate :=
                                  Some (sampleRate a);
                                AudioBuffer.cfg_targetDurationMs :=
                                  Some (chunkDurationMs p);
                                AudioBuffer.cfg_trackId := trackId a;
                                AudioBuffer.cfg_saveToFile := saveRawPCM p |})
                          (mapGet (trackId a) (buffers p)))).
      { destruct (mapGet (trackId a) (buffers p)); [done|].
        unfold bufferFor. cbn [List.filter snd fst].
        by rewrite String.eqb_refl. }
      rewrite Hstart.
      rewrite framesOf_cons. cbn [snd fst]. rewrite String.eqb_refl.
      cbn [AudioBuffer.addSamplesAll].
      destruct (AudioBuffer.addSamples now (samples a) _) as [oc b1].
      cbn [fst snd] in *.
      destruct (AudioBuffer.addSamplesAll (framesOf (trackId a) frames) b1)
        as [cs b2].
      cbn [fst snd] in *. split; [done|].
      rewrite Hdel', Hdel, <- app_assoc. by destruct oc.
    + destruct (Hother Ea) as [Hget Hdel]. rewrite Hget in Htrack.
      assert (Hbuf : bufferFor (processAudioData now tracker a p) id frames
                     = bufferFor p id ((now, tracker, a) :: frames)).
      { unfold bufferFor. cbn [List.filter snd].
        destruct (String.eqb_spec (trackId a) id); [done|].
        by rewrite Hdur, Hraw. }
      assert (Hfr : framesOf id ((now, tracker, a) :: frames)
                    = framesOf id frames).
      { rewrite framesOf_cons. cbn [snd].
        by destruct (String.eqb_spec (trackId a) id). }
      rewrite Hdel in Htrack. rewrite <- Hbuf, Hfr. exact Htrack.
Qed.

(** X11.  The processor routes every frame to the buffer of its track:
    the chunks the callback receives for a track are exactly the chunks
    an [AudioBuffer] of its own, created at the track's first frame with
    that frame's sample rate, emits on the frames of that track alone,
    however the frames of other tracks are interleaved; and nothing is
    delivered for a track that sent no frame. *)
Theorem X11_processor_routes_frames_per_track
  (now0 : Z) (cfg : Config)
  (frames : list (Z * option ParticipantTracker.t * AudioData))
  (id : string) :
  cfg_onChunkReady cfg = true ->
  match bufferFor (new now0 cfg) id frames with
  | Some b0 =>
      deliveredFor id (processAll frames (new now0 cfg))
      = fst (AudioBuffer.addSamplesAll (framesOf id frames) b0)
      /\ mapGet id (buffers (processAll frames (new now0 cfg)))
         = Some (snd (AudioBuffer.addSamplesAll (framesOf id frames) b0))
  | None =>
      deliveredFor id (processAll frames (new now0 cfg)) = []
      /\ mapGet id (buffers (processAll frames (new now0 cfg))) = None
  end.
Proof.
  intros Hcb.
  assert (Hinv : processorInv (new now0 cfg)) by (by split).
  destruct (processAll_track frames (new now0 cfg) id Hinv) as [_ H].
  cbn [new buffers mapGet] in H. fold (new now0 cfg) in H.
  destruct (bufferFor (new now0 cfg) id frames); by destruct H.
Qed.

Lemma X11_processor_routes_witness :
  deliveredFor "a" (processAll Inputs.twoTracks (new 0 Inputs.withCallback))
  = fst (AudioBuffer.addSamplesAll (framesOf "a" Inputs.twoTracks)
           Inputs.bufferA)
  /\ mapGet "a"
       (buffers (processAll Inputs.twoTracks (new 0 Inputs.withCallback)))
     = Some (snd (AudioBuffer.addSamplesAll (framesOf "a" Inputs.twoTracks)
                    Inputs.bufferA)).
Proof.
  exact (X11_processor_routes_frames_per_track 0 Inputs.withCallback
           Inputs.twoTracks "a" eq_refl).
Defined.

Lemma flush_trackId (now : Z) (b : AudioBuffer.t) (c : AudioBuffer.ChunkData) :
  fst (AudioBuffer.flush now b) = Some c ->
  AudioBuffer.chunk_trackId c = AudioBuffer.trackId b
  /\ AudioBuffer.samples c = map JS.toInt16 (AudioBuffer.buffer b)
  /\ AudioBuffer.isFinal c = true.
Proof.
  unfold AudioBuffer.flush. destruct (_ <? _); [|done].
  by intros [= <-].
Qed.

Lemma flush_None (now : Z) (b : AudioBuffer.t) :
  fst (AudioBuffer.flush now b) = None -> AudioBuffer.buffer b = [].
Proof.
  unfold AudioBuffer.flush.
  destruct (AudioBuffer.buffer b); [done|]. cbn. done.
Qed.

(** One call of [stopTrack], seen from the track [id]. *)
Lemma stopTrack_track (now : Z) (k id : string) (p : t) :
  processorInv p ->
  processorInv (stopTrack now k p)
  /\ (k = id ->
      mapGet id (buffers (stopTrack now k p)) = None
      /\ deliveredFor id (stopTrack now k p)
         = deliveredFor id p
           ++ match mapGet id (buffers p) with
              | Some b => option_list (fst (AudioBuffer.flush now b))
              | None => []
              end)
  /\ (k <> id ->
      mapGet id (buffers (stopTrack now k p)) = mapGet id (buffers p)
      /\ deliveredFor id (stopTrack now k p) = deliveredFor id p).
Proof.
  intros [Hcb Hkey]. unfold stopTrack.
  destruct (mapGet k (buffers p)) as [b|] eqn:Eget.
  2:{ split; [done|]. split.
      - intros <-. rewrite Eget. by rewrite app_nil_r.
      - done. }
  pose proof (Hkey k b Eget) as Hb.
  pose proof (flush_trackId now b) as Hfl.
  destruct (AudioBuffer.flush now b) as [oc b'] eqn:Efl. cbn [fst] in Hfl.
  assert (Hbuf : forall q, buffers q = buffers p ->
            forall k0 b0, mapGet k0 (mapDelete k (buffers q)) = Some b0 ->
                          AudioBuffer.trackId b0 = k0).
  { intros q -> k0 b0. destruct (decide (k = k0)) as [<-|Hne].
    - by rewrite mapGet_mapDelete_eq.
    - rewrite mapGet_mapDelete_ne by done. apply Hkey. }
  assert (Hdf : forall i q q', delivered q = delivered q' ->
            deliveredFor i q = deliveredFor i q').
  { intros i q q' E. unfold deliveredFor. by rewrite E. }
  destruct oc as [c|]; cbn [option_list].
  - destruct (Hfl c eq_refl) as (Hct & _).
    split; [split; [done|by apply Hbuf]|]. split.
    + intros <-. cbn [buffers deliver]. split; [apply mapGet_mapDelete_eq|].
      rewrite Eget, Efl. cbn [fst option_list].
      rewrite (Hdf k _ (deliver {| chunk := c; speaker := None |} p))
        by done.
      rewrite deliveredFor_deliver by done. cbn [chunk].
      by rewrite Hct, Hb, String.eqb_refl.
    + intros Hne. cbn [buffers deliver].
      split; [by apply mapGet_mapDelete_ne|].
      rewrite (Hdf id _ (deliver {| chunk := c; speaker := None |} p))
        by done.
      rewrite deliveredFor_deliver by done. cbn [chunk].
      rewrite Hct, Hb. destruct (String.eqb_spec k id); [done|].
      by rewrite app_nil_r.
  - split; [split; [done|by apply Hbuf]|]. split.
    + intros <-. cbn [buffers]. split; [apply mapGet_mapDelete_eq|].
      rewrite Eget, Efl. cbn [fst option_list]. rewrite app_nil_r.
      by apply Hdf.
    + intros Hne. cbn [buffers]. split; [by apply mapGet_mapDelete_ne|].
      by apply Hdf.
Qed.

Lemma stop_fold (now : Z) (keys : list string) :
  forall (p : t) (id : string),
    processorInv p ->
    processorInv (foldl (fun acc k => stopTrack now k acc) p keys)
    /\ (mapGet id (buffers p) = None ->
        mapGet id
          (buffers (foldl (fun acc k => stopTrack now k acc) p keys)) = None
        /\ deliveredFor id (foldl (fun acc k => stopTrack now k acc) p keys)
           = deliveredFor id p)
    /\ (forall b, mapGet id (buffers p) = Some b -> In id keys ->
        mapGet id
          (buffers (foldl (fun acc k => stopTrack now k acc) p keys)) = None
        /\ deliveredFor id (foldl (fun acc k => stopTrack now k acc) p keys)
           = deliveredFor id p
             ++ option_list (fst (AudioBuffer.flush now b))).
Proof.
  induction keys as [|k keys IH]; intros p id Hinv.
  - cbn. split; [done|]. split; [done|]. by intros b _ [].
  - cbn [foldl].
    destruct (stopTrack_track now k id p Hinv) as (Hinv1 & Hsame & Hother).
    destruct (IH (stopTrack now k p) id Hinv1) as (Hinv' & Hnone & Hsome).
    split; [done|]. split.
    + intros Hget. destruct (decide (k = id)) as [E|E].
      * destruct (Hsame E) as [Hg Hd]. destruct (Hnone Hg) as [Hg' Hd'].
        split; [done|]. by rewrite Hd', Hd, Hget, app_nil_r.
      * destruct (Hother E) as [Hg Hd]. rewrite Hget in Hg.
        destruct (Hnone Hg) as [Hg' Hd']. split; [done|]. by rewrite Hd', Hd.
    + intros b Hget Hin. destruct (decide (k = id)) as [E|E].
      * destruct (Hsame E) as [Hg Hd]. destruct (Hnone Hg) as [Hg' Hd'].
        split; [done|]. by rewrite Hd', Hd, Hget.
      * destruct (Hother E) as [Hg Hd]. rewrite Hget in Hg.
        destruct Hin as [Hin|Hin]; [done|].
        destruct (Hsome b Hg Hin) as [Hg' Hd']. split; [done|].
        by rewrite Hd', Hd.
Qed.

Lemma framesOf_nil_of_bufferFor (p : t) (id : string)
  (frames : list (Z * option ParticipantTracker.t * AudioData)) :
  bufferFor p id frames = None -> framesOf id frames = [].
Proof.
  unfold bufferFor. induction frames as [|f frames IH]; [done|].
  rewrite framesOf_cons. cbn [List.filter].
  destruct (String.eqb (trackId (snd f)) id); [done|apply IH].
Qed.

Lemma bufferFor_empty (p : t) (id : string)
  (frames : list (Z * option ParticipantTracker.t * AudioData))
  (b : AudioBuffer.t) :
  bufferFor p id frames = Some b -> AudioBuffer.buffer b = [].
Proof.
  unfold bufferFor. destruct (List.filter _ _); [done|]. by intros [= <-].
Qed.

(** X12.  After any frames and then [stop], the processor holds no buffer
    any more, and for every track the samples of the chunks the callback
    has received, put end to end, are the samples of the frames of that
    track, each exactly once and in order (stored as 16-bit integers):
    [stop] flushes what every buffer still holds. *)
Theorem X12_stop_delivers_every_sample
  (now0 now : Z) (cfg : Config)
  (frames : list (Z * option ParticipantTracker.t * AudioData)) :
  cfg_onChunkReady cfg = true ->
  buffers (stop now (processAll frames (new now0 cfg))) = []
  /\ forall id,
       concat (map AudioBuffer.samples
                 (deliveredFor id
                    (stop now (processAll frames (new now0 cfg)))))
       = map JS.toInt16 (concat (map snd (framesOf id frames))).
Proof.
  intros Hcb.
  assert (Hinv : processorInv (new now0 cfg)) by (by split).
  set (p := processAll frames (new now0 cfg)).
  assert (Hall : forall id,
            mapGet id (buffers (stop now p)) = None
            /\ concat (map AudioBuffer.samples (deliveredFor id (stop now p)))
               = map JS.toInt16 (concat (map snd (framesOf id frames)))).
  { intros id.
    destruct (processAll_track frames (new now0 cfg) id Hinv)
      as [Hinvp Htrack].
    fold p in Hinvp, Htrack. cbn [new buffers mapGet] in Htrack.
    fold (new now0 cfg) in Htrack.
    destruct (stop_fold now (map fst (buffers p)) p id Hinvp)
      as (_ & Hnone & Hsome).
    fold (stop now p) in Hnone, Hsome.
    destruct (bufferFor (new now0 cfg) id frames) as [b0|] eqn:Eb.
    - destruct Htrack as [Hget Hdel].
      destruct (Hsome _ Hget (mapGet_Some_In _ _ _ Hget)) as [Hget' Hdel'].
      split; [done|]. rewrite Hdel', Hdel. cbn [deliveredFor new delivered].
      cbn [map List.filter app].
      destruct (AudioBuffer.addSamplesAll (framesOf id frames) b0)
        as [cs b1] eqn:Erun.
      destruct (addSamplesAll_general _ _ _ _ Erun) as (_ & _ & Hcons & _).
      rewrite (bufferFor_empty _ _ _ _ Eb) in Hcons.
      cbn [fst snd app] in *. rewrite <- Hcons.
      rewrite map_app, concat_app. f_equal.
      destruct (fst (AudioBuffer.flush now b1)) as [c|] eqn:Efl.
      + destruct (flush_trackId _ _ _ Efl) as (_ & Hs & _).
        cbn. by rewrite Hs, app_nil_r.
      + by rewrite (flush_None _ _ Efl).
    - destruct Htrack as [Hget Hdel].
      destruct (Hnone Hget) as [Hget' Hdel'].
      split; [done|]. rewrite Hdel', Hdel.
      by rewrite (framesOf_nil_of_bufferFor _ _ _ Eb). }
  split; [|intros id; apply Hall].
  destruct (buffers (stop now p)) as [|[k b] rest] eqn:E; [done|].
  destruct (Hall k) as [Hk _]. cbn in Hk.
  by rewrite String.eqb_refl in Hk.
Qed.

Lemma X12_stop_delivers_witness :
  buffers (stop 9 (processAll Inputs.twoTracks (new 0 Inputs.withCallback)))
  = []
  /\ forall id,
       concat (map AudioBuffer.samples
                 (deliveredFor id
                    (stop 9 (processAll Inputs.twoTracks
                               (new 0 Inputs.withCallback)))))
       = map JS.toInt16 (concat (map snd (framesOf id Inputs.twoTracks))).
Proof.
  exact (X12_stop_delivers_every_sample 0 9 Inputs.withCallback
           Inputs.twoTracks eq_refl).
Defined.

(** The run of [Inputs.twoTracks], then [stop]: the chunks of both
    tracks in the order of the calls of the callback. *)
Example stop_twoTracks :
  map (fun d => (AudioBuffer.chunk_trackId (chunk d),
                 AudioBuffer.samples (chunk d),
                 AudioBuffer.isFinal (chunk d)))
    (delivered
       (stop 9 (processAll Inputs.twoTracks (new 0 Inputs.withCallback))))
  = [("a", [1; 2], false); ("a", [3; 4], false);
     ("a", [5], true); ("b", [7], true)].
Proof. vm_compute. reflexivity. Qed.

End ProcessorMore.

(** ** Properties of the WAV writer *)

Section WavMore.

Import Wav.

Lemma land_255 (v : Z) : Z.land v 255 = v mod 256.
Proof. change 255 with (Z.ones 8). by rewrite Z.land_ones. Qed.

Lemma byte_of (v : Z) (k : Z) :
  0 <= k -> Z.land (Z.shiftr v k) 255 = (v / 2 ^ k) mod 256.
Proof. intros Hk. by rewrite land_255, Z.shiftr_div_pow2. Qed.

Lemma isByte_land (v : Z) : isByte (Z.land v 255).
Proof.
  unfold isByte. rewrite land_255.
  pose proof (Z.mod_pos_bound v 256). lia.
Qed.

Lemma uint32LE_value (v : Z) :
  0 <= v <= 4294967295 ->
  exists b0 b1 b2 b3,
    uint32LE v = [b0; b1; b2; b3]
    /\ b0 + 256 * b1 + 65536 * b2 + 16777216 * b3 = v
    /\ isByte b0 /\ isByte b1 /\ isByte b2 /\ isByte b3.
Proof.
  intros Hv. unfold uint32LE.
  eexists _, _, _, _. split; [reflexivity|].
  split; [|repeat split; apply isByte_land].
  rewrite land_255, !byte_of by lia.
  change (2 ^ 8) with 256. change (2 ^ 16) with 65536.
  change (2 ^ 24) with 16777216.
  Z.to_euclidean_division_equations. lia.
Qed.

Lemma uint16LE_value (v : Z) :
  0 <= v <= 65535 ->
  exists b0 b1,
    uint16LE v = [b0; b1] /\ b0 + 256 * b1 = v /\ isByte b0 /\ isByte b1.
Proof.
  intros Hv. unfold uint16LE.
  eexists _, _. split; [reflexivity|].
  split; [|split; apply isByte_land].
  rewrite land_255, byte_of by lia. change (2 ^ 8) with 256.
  Z.to_euclidean_division_equations. lia.
Qed.

Lemma int16Bytes_value (x : Z) :
  JS.is_int16 x ->
  exists b0 b1,
    int16Bytes x = [b0; b1]
    /\ (let v := b0 + 256 * b1 in if 32768 <=? v then v - 65536 else v) = x
    /\ isByte b0 /\ isByte b1.
Proof.
  intros Hx. unfold int16Bytes.
  eexists _, _. split; [reflexivity|].
  split; [|split; apply isByte_land].
  rewrite land_255, byte_of by lia. change (2 ^ 8) with 256.
  cbv zeta. unfold JS.is_int16 in Hx.
  destruct (Z.leb_spec 32768 (x mod 256 + 256 * ((x / 256) mod 256)));
    Z.to_euclidean_division_equations; lia.
Qed.

Lemma length_pcmBuffer (pcm : list Z) :
  length (pcmBuffer pcm) = (2 * length pcm)%nat.
Proof.
  unfold pcmBuffer. induction pcm as [|x pcm IH]; [done|].
  cbn [map concat]. rewrite length_app, IH. cbn. lia.
Qed.

Lemma int16sFrom_pcmBuffer (pcm : list Z) :
  Forall JS.is_int16 pcm -> int16sFrom (pcmBuffer pcm) = pcm.
Proof.
  unfold pcmBuffer. induction 1 as [|x pcm Hx _ IH]; [done|].
  destruct (int16Bytes_value x Hx) as (b0 & b1 & E & Hv & _).
  cbn [map concat]. rewrite E. cbn [app int16sFrom].
  f_equal; [exact Hv|exact IH].
Qed.

Lemma isByte_pcmBuffer (pcm : list Z) : Forall isByte (pcmBuffer pcm).
Proof.
  unfold pcmBuffer. induction pcm as [|x pcm IH]; [constructor|].
  cbn [map concat]. apply Forall_app. split; [|done].
  repeat constructor; apply isByte_land.
Qed.

Lemma pcmToWav_eq (pcm : list Z) (rate : Z) :
  pcmToWav pcm rate
  = if fitsUInt32 (44 + Z.of_nat (length pcm) * 2 - 8) && fitsUInt16 1
       && fitsUInt32 rate && fitsUInt32 (rate * 2)
       && fitsUInt16 2 && fitsUInt16 16
       && fitsUInt32 (Z.of_nat (length pcm) * 2)
    then
      Some (tag "RIFF" ++ uint32LE (44 + Z.of_nat (length pcm) * 2 - 8)
            ++ tag "WAVE" ++ tag "fmt " ++ uint32LE 16 ++ uint16LE 1
            ++ uint16LE 1 ++ uint32LE rate ++ uint32LE (rate * 2)
            ++ uint16LE 2 ++ uint16LE 16 ++ tag "data"
            ++ uint32LE (Z.of_nat (length pcm) * 2)
            ++ take (Z.to_nat (Z.of_nat (length pcm) * 2)) (pcmBuffer pcm))
    else None.
Proof. reflexivity. Qed.

Lemma pcmToWav_negative (pcm : list Z) (r : Z) :
  r < 0 -> pcmToWav pcm r = None.
Proof.
  intros Hr. rewrite pcmToWav_eq. unfold fitsUInt32 at 2.
  replace (0 <=? r) with false by (symmetry; apply Z.leb_gt; lia).
  cbn [andb]. by rewrite !andb_false_r.
Qed.

(** X13.  For 16-bit samples and a sample rate below 2^31, [pcmToWav]
    returns a buffer of 44 + 2n bytes: a header that starts with the tag
    RIFF and holds, in little-endian fields, the size of what follows
    (36 + 2n) at offset 4, the sample rate at 24, the byte rate (twice the
    sample rate) at 28, the 16 bits per sample at 34 and the size of the
    data (2n) at 40; and, from offset 44 on, the samples themselves: read
    back as 16-bit little-endian integers they are the input.  A negative
    sample rate makes the header write throw. *)
Theorem X13_pcmToWav_header_and_round_trip (pcm : list Z) (rate : Z) :
  Forall JS.is_int16 pcm ->
  0 <= rate <= 2147483647 ->
  Z.of_nat (length pcm) <= 2147483629 ->
  exists wav,
    pcmToWav pcm rate = Some wav
    /\ length wav = (44 + 2 * length pcm)%nat
    /\ Forall isByte wav
    /\ take 4 wav = tag "RIFF"
    /\ readUInt32LE wav 4 = Some (36 + 2 * Z.of_nat (length pcm))
    /\ readUInt32LE wav 24 = Some rate
    /\ readUInt32LE wav 28 = Some (2 * rate)
    /\ readUInt16LE wav 34 = Some 16
    /\ readUInt32LE wav 40 = Some (2 * Z.of_nat (length pcm))
    /\ int16sFrom (drop 44 wav) = pcm
    /\ forall r, r < 0 -> pcmToWav pcm r = None.
Proof.
  intros Hpcm Hrate Hlen.
  rewrite pcmToWav_eq.
  set (n := Z.of_nat (length pcm)) in *.
  assert (Hfits : fitsUInt32 (44 + n * 2 - 8) && fitsUInt16 1
                  && fitsUInt32 rate && fitsUInt32 (rate * 2)
                  && fitsUInt16 2 && fitsUInt16 16
                  && fitsUInt32 (n * 2) = true).
  { unfold fitsUInt32, fitsUInt16.
    repeat (apply andb_true_intro; split); lia. }
  rewrite Hfits.
  destruct (uint32LE_value (44 + n * 2 - 8)) as (r0 & r1 & r2 & r3 & Er & Vr
                                                 & ? & ? & ? & ?); [lia|].
  destruct (uint32LE_value rate) as (s0 & s1 & s2 & s3 & Es & Vs
                                     & ? & ? & ? & ?); [lia|].
  destruct (uint32LE_value (rate * 2)) as (y0 & y1 & y2 & y3 & Ey & Vy
                                           & ? & ? & ? & ?); [lia|].
  destruct (uint32LE_value (n * 2)) as (d0 & d1 & d2 & d3 & Ed & Vd
                                        & ? & ? & ? & ?); [lia|].
  rewrite Er, Es, Ey, Ed.
  assert (Htake : take (Z.to_nat (n * 2)) (pcmBuffer pcm) = pcmBuffer pcm).
  { apply take_ge. rewrite length_pcmBuffer. subst n. lia. }
  rewrite Htake.
  eexists. split; [reflexivity|].
  split.
  { cbn [tag map String.list_ascii_of_string app length uint32LE uint16LE].
    rewrite length_pcmBuffer. lia. }
  split.
  { cbn [tag map String.list_ascii_of_string app].
    repeat (apply Forall_cons; split;
            [first [assumption | apply isByte_land
                   | (vm_compute; split; discriminate)]|]).
    apply isByte_pcmBuffer. }
  split; [reflexivity|].
  split; [cbn; f_equal; lia|].
  split; [cbn; f_equal; lia|].
  split; [cbn; f_equal; lia|].
  split; [reflexivity|].
  split; [cbn; f_equal; lia|].
  split; [cbn [tag map String.list_ascii_of_string app drop];
          by apply int16sFrom_pcmBuffer|].
  intros r Hr. by apply pcmToWav_negative.
Qed.

Lemma X13_pcmToWav_witness :
  exists wav,
    pcmToWav Inputs.samples4 16000 = Some wav
    /\ length wav = (44 + 2 * length Inputs.samples4)%nat
    /\ Forall isByte wav
    /\ take 4 wav = tag "RIFF"
    /\ readUInt32LE wav 4
       = Some (36 + 2 * Z.of_nat (length Inputs.samples4))
    /\ readUInt32LE wav 24 = Some 16000
    /\ readUInt32LE wav 28 = Some (2 * 16000)
    /\ readUInt16LE wav 34 = Some 16
    /\ readUInt32LE wav 40 = Some (2 * Z.of_nat (length Inputs.samples4))
    /\ int16sFrom (drop 44 wav) = Inputs.samples4
    /\ forall r, r < 0 -> pcmToWav Inputs.samples4 r = None.
Proof.
  apply (X13_pcmToWav_header_and_round_trip Inputs.samples4 16000).
  - repeat constructor; vm_compute; discriminate.
  - lia.
  - vm_compute. discriminate.
Defined.

(** The file written for two samples at 8000 Hz. *)
Example pcmToWav_example :
  pcmToWav [1; -2] 8000
  = Some [82; 73; 70; 70; 40; 0; 0; 0; 87; 65; 86; 69;
          102; 109; 116; 32; 16; 0; 0; 0; 1; 0; 1; 0;
          64; 31; 0; 0; 128; 62; 0; 0; 2; 0; 16; 0;
          100; 97; 116; 97; 4; 0; 0; 0;
          1; 0; 254; 255].
Proof. vm_compute. reflexivity. Qed.

End WavMore.

(** ** Properties of the audio sinks of the WebRTC handler *)

Section WebRTCMore.

Import WebRTCHandler.

Local Abbreviation mapGet := AudioProcessor.mapGet.
Local Abbreviation mapSet := AudioProcessor.mapSet.
Local Abbreviation mapDelete := AudioProcessor.mapDelete.

Lemma held_mapSet (k : string) (v x : nat) (m : list (string * nat)) :
  x ∈ (snd <$> mapSet k v m) -> x = v \/ x ∈ (snd <$> m).
Proof.
  induction m as [|[k' v'] m IH]; cbn.
  - rewrite list_elem_of_singleton. auto.
  - destruct (String.eqb k' k); cbn; rewrite !elem_of_cons; tauto.
Qed.

Lemma NoDup_mapSet (k : string) (v : nat) (m : list (string * nat)) :
  NoDup (snd <$> m) -> v ∉ (snd <$> m) -> NoDup (snd <$> mapSet k v m).
Proof.
  induction m as [|[k' v'] m IH]; cbn.
  - intros _ _. apply NoDup_singleton.
  - rewrite NoDup_cons, not_elem_of_cons. intros [Hv' Hm] [Hne Hv].
    destruct (String.eqb k' k); cbn; apply NoDup_cons.
    + done.
    + split; [|by apply IH].
      intros Hin. apply held_mapSet in Hin. by destruct Hin as [->|Hin].
Qed.

Lemma held_mapDelete (k : string) (x : nat) (m : list (string * nat)) :
  x ∈ (snd <$> mapDelete k m) -> x ∈ (snd <$> m).
Proof.
  unfold AudioProcessor.mapDelete.
  induction m as [|[k' v'] m IH]; cbn; [done|].
  destruct (negb (String.eqb k' k)); cbn; rewrite ?elem_of_cons; tauto.
Qed.

Lemma NoDup_mapDelete (k : string) (m : list (string * nat)) :
  NoDup (snd <$> m) -> NoDup (snd <$> mapDelete k m).
Proof.
  unfold AudioProcessor.mapDelete.
  induction m as [|[k' v'] m IH]; cbn; [done|].
  rewrite NoDup_cons. intros [Hv' Hm].
  destruct (negb (String.eqb k' k)); cbn; [|by apply IH].
  apply NoDup_cons. split; [|by apply IH].
  intros Hin. by apply held_mapDelete in Hin.
Qed.

Lemma mapGet_held (k : string) (v : nat) (m : list (string * nat)) :
  mapGet k m = Some v -> v ∈ (snd <$> m).
Proof.
  induction m as [|[k' v'] m IH]; cbn; [done|].
  destruct (String.eqb k' k); rewrite elem_of_cons.
  - intros [= ->]. by left.
  - intros H. right. by apply IH.
Qed.

Lemma mapGet_gone_mapDelete (k : string) (v : nat)
  (m : list (string * nat)) :
  NoDup (snd <$> m) -> mapGet k m = Some v -> v ∉ (snd <$> mapDelete k m).
Proof.
  unfold AudioProcessor.mapDelete.
  induction m as [|[k' v'] m IH]; cbn; [done|].
  rewrite NoDup_cons. intros [Hv' Hm].
  destruct (String.eqb k' k); cbn.
  - intros [= ->] Hin. apply Hv'. by apply (held_mapDelete k).
  - intros Hget. rewrite not_elem_of_cons. split; [|by apply IH].
    intros ->. apply Hv'. by apply (mapGet_held k).
Qed.

Lemma mapGet_gone_mapSet (k : string) (old v : nat)
  (m : list (string * nat)) :
  NoDup (snd <$> m) -> mapGet k m = Some old -> v <> old ->
  old ∉ (snd <$> mapSet k v m).
Proof.
  induction m as [|[k' v'] m IH]; cbn; [done|].
  rewrite NoDup_cons. intros [Hv' Hm].
  destruct (String.eqb k' k); cbn.
  - intros [= ->] Hne. rewrite not_elem_of_cons. split; [done|done].
  - intros Hget Hne. rewrite not_elem_of_cons. split; [|by apply IH].
    intros ->. apply Hv'. by apply (mapGet_held k).
Qed.

Lemma stopped_app (es1 es2 : list Effect) :
  stopped (es1 ++ es2) = stopped es1 ++ stopped es2.
Proof. apply omap_app. Qed.

Lemma made_app (es1 es2 : list Effect) :
  made (es1 ++ es2) = made es1 ++ made es2.
Proof. apply omap_app. Qed.

Lemma stopped_all (m : list (string * nat)) :
  stopped (map (fun kv => SinkStop (snd kv)) m) = snd <$> m.
Proof. induction m as [|[k v] m IH]; cbn; [done|]. by f_equal. Qed.

Lemma made_all (m : list (string * nat)) :
  made (map (fun kv => SinkStop (snd kv)) m) = [].
Proof. induction m as [|[k v] m IH]; cbn; done. Qed.

(** A call that stops no sink and leaves the map as it is keeps the
    invariant. *)
Lemma sinksInv_same (h h' : t) :
  sinksHeld h' = sinksHeld h ->
  stopped (effects h') = stopped (effects h) ->
  (sinksMade h <= sinksMade h')%nat ->
  sinksInv h -> sinksInv h'.
Proof.
  unfold sinksInv. intros -> -> Hle (H1 & H2 & H3 & H4).
  split; [done|]. split; [done|]. split.
  - intros n Hn. destruct (H3 n Hn). split; [lia|done].
  - intros n Hn. specialize (H4 n Hn). lia.
Qed.

Lemma sinksInv_log (es : list Effect) (h : t) :
  stopped es = [] -> sinksInv h -> sinksInv (log es h).
Proof.
  intros Hes. apply sinksInv_same; cbn; [done| |done].
  by rewrite stopped_app, Hes, app_nil_r.
Qed.

Lemma sinksInv_attachAudioSink (track : Track) (sinkOk : bool) (h : t) :
  sinksInv h -> sinksInv (attachAudioSink track sinkOk h).
Proof.
  intros Hinv. unfold attachAudioSink. destruct sinkOk.
  2:{ by do 2 (apply sinksInv_log; [done|]). }
  apply sinksInv_log; [done|].
  destruct Hinv as (H1 & H2 & H3 & H4).
  unfold sinksInv, sinksHeld. cbn [audioSinks effects sinksMade log].
  rewrite !stopped_app.
  change (stopped [ConsoleLog _]) with (@nil nat).
  change (stopped [NewAudioSink _ _]) with (@nil nat).
  rewrite !app_nil_r.
  assert (Hfresh : sinksMade h ∉ (snd <$> audioSinks h)).
  { intros Hin. destruct (H3 _ Hin). lia. }
  split; [by apply NoDup_mapSet|]. split; [done|]. split.
  - intros n Hn. apply held_mapSet in Hn as [->|Hn].
    + split; [lia|]. intros Hin. specialize (H4 _ Hin). lia.
    + destruct (H3 n Hn). split; [lia|done].
  - intros n Hn. specialize (H4 n Hn). lia.
Qed.

Lemma sinksInv_set_pendingAudioTrack (p : option Track) (h : t) :
  sinksInv h -> sinksInv (set_pendingAudioTrack p h).
Proof. by apply sinksInv_same. Qed.

Lemma sinksInv_set_pc (b : bool) (h : t) : sinksInv h -> sinksInv (set_pc b h).
Proof. by apply sinksInv_same. Qed.

Lemma sinksInv_cleanup (trackId : option string) (h : t) :
  sinksInv h -> sinksInv (cleanup trackId h).
Proof.
  intros (H1 & H2 & H3 & H4). unfold cleanup.
  destruct (JS.truthy trackId).
  - destruct (mapGet _ _) as [sink|] eqn:Eget; [|done].
    pose proof (mapGet_held _ _ _ Eget) as Hheld.
    destruct (H3 _ Hheld) as [Hlt Hns].
    unfold sinksInv, sinksHeld.
    cbn [audioSinks effects sinksMade log set_audioSinks].
    rewrite stopped_app. change (stopped [SinkStop sink]) with [sink].
    split; [by apply NoDup_mapDelete|]. split.
    { apply NoDup_app. split; [done|]. split; [|apply NoDup_singleton].
      intros x Hx. rewrite list_elem_of_singleton. by intros ->. }
    split.
    + intros n Hn. pose proof (held_mapDelete _ _ _ Hn) as Hn'.
      destruct (H3 n Hn'). split; [done|].
      rewrite elem_of_app, list_elem_of_singleton. intros [?| ->]; [done|].
      by apply (mapGet_gone_mapDelete _ _ _ H1 Eget).
    + intros n. rewrite elem_of_app, list_elem_of_singleton.
      intros [Hn| ->]; [by apply H4|done].
  - unfold sinksInv, sinksHeld.
    cbn [audioSinks effects sinksMade log set_audioSinks fmap list_fmap].
    rewrite stopped_app, stopped_all.
    split; [apply NoDup_nil_2|]. split.
    { apply NoDup_app. split; [done|]. split; [|done].
      intros x Hx Hheld. by destruct (H3 x Hheld). }
    split; [by intros n Hn%elem_of_nil|].
    intros n. rewrite elem_of_app. intros [Hn|Hn]; [by apply H4|].
    by destruct (H3 n Hn).
Qed.

Lemma sinksInv_step (h : t) (c : Call) : sinksInv h -> sinksInv (step h c).
Proof.
  intros Hinv. destruct c as [|track state ok|state ok|trackId|closeOk];
    cbn [step].
  - unfold createPeerConnection. apply sinksInv_log; [done|].
    by apply sinksInv_set_pc.
  - unfold ontrack. destruct (String.eqb _ _); [|done].
    destruct (isConnected _ _).
    + apply sinksInv_attachAudioSink. by apply sinksInv_log.
    + apply sinksInv_set_pendingAudioTrack.
      by do 2 (apply sinksInv_log; [done|]).
  - unfold oniceconnectionstatechange. destruct (negb (pc h)); [done|].
    destruct (String.eqb state "checking").
    { by do 2 (apply sinksInv_log; [done|]). }
    destruct (_ || _).
    { destruct (pendingAudioTrack _).
      - apply sinksInv_set_pendingAudioTrack, sinksInv_attachAudioSink.
        by do 3 (apply sinksInv_log; [done|]).
      - by do 2 (apply sinksInv_log; [done|]). }
    destruct (String.eqb state "failed").
    { by do 2 (apply sinksInv_log; [done|]). }
    destruct (String.eqb state "disconnected").
    { by do 2 (apply sinksInv_log; [done|]). }
    by apply sinksInv_log.
  - unfold onended. apply sinksInv_cleanup. by apply sinksInv_log.
  - unfold disconnect.
    assert (Hc : sinksInv
                   (cleanup None (log [ConsoleLog "WebRTC: Disconnecting..."]
                                    h))).
    { apply sinksInv_cleanup. by apply sinksInv_log. }
    destruct (pc _); [|done]. apply sinksInv_set_pc.
    destruct closeOk; by apply sinksInv_log.
Qed.

Lemma sinksInv_new : sinksInv new.
Proof.
  unfold sinksInv, sinksHeld. cbn.
  split; [apply NoDup_nil_2|]. split; [apply NoDup_nil_2|].
  split; by intros n Hn%elem_of_nil.
Qed.

Lemma sinksInv_run (cs : list Call) (h : t) :
  sinksInv h -> sinksInv (run cs h).
Proof.
  revert h. induction cs as [|c cs IH]; intros h Hinv; [done|].
  cbn. apply IH. by apply sinksInv_step.
Qed.

Lemma run_app (cs1 cs2 : list Call) (h : t) :
  run (cs1 ++ cs2) h = run cs2 (run cs1 h).
Proof. apply foldl_app. Qed.

Lemma run_cons (c : Call) (cs : list Call) (h : t) :
  run (c :: cs) h = run cs (step h c).
Proof. reflexivity. Qed.

(** Audio tracks that arrive while the connection is not established
    change nothing but the pending track, which is the last of them. *)
Lemma run_early (l : list (Track * string * bool)) :
  forall h,
    Forall early l ->
    pc (run (map arrivesEarly l) h) = pc h
    /\ audioSinks (run (map arrivesEarly l) h) = audioSinks h
    /\ sinksMade (run (map arrivesEarly l) h) = sinksMade h
    /\ made (effects (run (map arrivesEarly l) h)) = made (effects h)
    /\ stopped (effects (run (map arrivesEarly l) h)) = stopped (effects h)
    /\ pendingAudioTrack (run (map arrivesEarly l) h)
       = match last l with
         | Some a => Some (fst (fst a))
         | None => pendingAudioTrack h
         end.
Proof.
  induction l as [|[[track state] ok] l IH]; intros h Hall; [done|].
  apply Forall_cons in Hall as [[Hkind Hstate] Hall].
  cbn [fst snd] in Hkind, Hstate.
  cbn [map]. rewrite run_cons. cbn [arrivesEarly step fst snd].
  destruct (IH (ontrack track state ok h) Hall)
    as (E1 & E2 & E3 & E4 & E5 & E6).
  rewrite E1, E2, E3, E4, E5, E6.
  unfold ontrack, isConnected. rewrite Hkind, Hstate, andb_false_r.
  cbn [String.eqb Ascii.eqb Bool.eqb log set_pendingAudioTrack pc audioSinks
       sinksMade effects pendingAudioTrack].
  rewrite !made_app, !stopped_app, !app_nil_r.
  do 5 (split; [done|]).
  destruct l as [|x l']; [done|].
  change (last ((track, state, ok) :: x :: l')) with (last (x :: l')).
  destruct (last (x :: l')) eqn:E; [done|].
  by apply last_None in E.
Qed.

(** X14.  Audio tracks that arrive before the connection is established
    are not queued: each takes the place of the one before as the pending
    track.  When the ICE state becomes connected (or completed), one sink
    is made, for the last of them; the tracks before it never get a sink.
    No sink is stopped. *)
Theorem X14_only_the_last_early_track_gets_a_sink
  (h : t) (earlier : list (Track * string * bool))
  (a : Track * string * bool) (state : string) :
  pc h = true ->
  Forall early (earlier ++ [a]) ->
  state = "connected" \/ state = "completed" ->
  made (effects
          (run (map arrivesEarly (earlier ++ [a])
                ++ [OnIceConnectionStateChange state true]) h))
  = made (effects h) ++ [(sinksMade h, id (fst (fst a)))]
  /\ audioSinks
       (run (map arrivesEarly (earlier ++ [a])
             ++ [OnIceConnectionStateChange state true]) h)
     = AudioProcessor.mapSet (id (fst (fst a))) (sinksMade h) (audioSinks h)
  /\ pendingAudioTrack
       (run (map arrivesEarly (earlier ++ [a])
             ++ [OnIceConnectionStateChange state true]) h)
     = None
  /\ stopped (effects
                (run (map arrivesEarly (earlier ++ [a])
                      ++ [OnIceConnectionStateChange state true]) h))
     = stopped (effects h).
Proof.
  intros Hpc Hall Hstate. rewrite run_app.
  destruct (run_early (earlier ++ [a]) h Hall)
    as (E1 & E2 & E3 & E4 & E5 & E6).
  rewrite last_snoc in E6.
  set (h1 := run (map arrivesEarly (earlier ++ [a])) h) in *.
  unfold run. cbn [foldl step]. unfold oniceconnectionstatechange.
  rewrite E1, Hpc. cbn [negb].
  assert (Hs : String.eqb state "checking" = false
               /\ (String.eqb state "connected"
                   || String.eqb state "completed") = true)
    by (by destruct Hstate as [-> | ->]).
  destruct Hs as [-> ->].
  cbn [log pendingAudioTrack]. rewrite E6.
  unfold attachAudioSink.
  cbn [log set_pendingAudioTrack pc audioSinks sinksMade effects
       pendingAudioTrack].
  rewrite !made_app, !stopped_app, E2, E3, E4, E5.
  change (made [ConsoleLog _]) with (@nil (nat * string)).
  change (stopped [ConsoleLog _]) with (@nil nat).
  change (stopped [NewAudioSink _ _]) with (@nil nat).
  rewrite !app_nil_r. done.
Qed.

Lemma X14_last_early_track_witness :
  made (effects
          (run (map arrivesEarly
                  ([(Media.audioTrack "a", "new", true)]
                   ++ [(Media.audioTrack "b", "checking", true)])
                ++ [OnIceConnectionStateChange "connected" true])
             Media.created))
  = made (effects Media.created) ++ [(sinksMade Media.created, "b")]
  /\ audioSinks
       (run (map arrivesEarly
               ([(Media.audioTrack "a", "new", true)]
                ++ [(Media.audioTrack "b", "checking", true)])
             ++ [OnIceConnectionStateChange "connected" true])
          Media.created)
     = AudioProcessor.mapSet "b" (sinksMade Media.created)
         (audioSinks Media.created)
  /\ pendingAudioTrack
       (run (map arrivesEarly
               ([(Media.audioTrack "a", "new", true)]
                ++ [(Media.audioTrack "b", "checking", true)])
             ++ [OnIceConnectionStateChange "connected" true])
          Media.created)
     = None
  /\ stopped (effects
                (run (map arrivesEarly
                        ([(Media.audioTrack "a", "new", true)]
                         ++ [(Media.audioTrack "b", "checking", true)])
                      ++ [OnIceConnectionStateChange "connected" true])
                   Media.created))
     = stopped (effects Media.created).
Proof.
  apply (X14_only_the_last_early_track_gets_a_sink Media.created
           [(Media.audioTrack "a", "new", true)]
           (Media.audioTrack "b", "checking", true) "connected").
  - reflexivity.
  - repeat constructor.
  - by left.
Defined.

Lemma disconnect_spec (closeOk : bool) (h : t) :
  audioSinks (disconnect closeOk h) = []
  /\ pc (disconnect closeOk h) = false
  /\ sinksMade (disconnect closeOk h) = sinksMade h
  /\ pendingAudioTrack (disconnect closeOk h) = pendingAudioTrack h
  /\ stopped (effects (disconnect closeOk h))
     = stopped (effects h) ++ sinksHeld h
  /\ made (effects (disconnect closeOk h)) = made (effects h).
Proof.
  unfold disconnect, cleanup.
  cbn [JS.truthy log set_audioSinks pc audioSinks effects].
  destruct (pc h) eqn:Hpc; [destruct closeOk|];
    cbn [log set_pc set_audioSinks pc audioSinks sinksMade effects
         pendingAudioTrack];
    rewrite ?made_app, ?stopped_app, ?stopped_all, ?made_all;
    rewrite ?app_nil_r; done.
Qed.

(** X15.  Whatever calls a handler object has received, [disconnect]
    stops every sink the map holds and empties the map, and leaves no
    peer connection; over the whole life of the object no sink is stopped
    twice.  A second [disconnect] writes its first line to the console
    and does nothing else. *)
Theorem X15_disconnect_stops_the_sinks_of_the_map
  (cs : list Call) (closeOk again : bool) :
  audioSinks (disconnect closeOk (run cs new)) = []
  /\ pc (disconnect closeOk (run cs new)) = false
  /\ stopped (effects (disconnect closeOk (run cs new)))
     = stopped (effects (run cs new)) ++ sinksHeld (run cs new)
  /\ NoDup (stopped (effects (disconnect closeOk (run cs new))))
  /\ disconnect again (disconnect closeOk (run cs new))
     = log [ConsoleLog "WebRTC: Disconnecting..."]
         (disconnect closeOk (run cs new)).
Proof.
  destruct (disconnect_spec closeOk (run cs new))
    as (E1 & E2 & E3 & E4 & E5 & E6).
  split; [done|]. split; [done|]. split; [done|]. split.
  - pose proof (sinksInv_step (run cs new) (Disconnect closeOk)
                  (sinksInv_run cs new sinksInv_new)) as (_ & H & _).
    exact H.
  - clear E3 E4 E5 E6. revert E1 E2.
    generalize (disconnect closeOk (run cs new)) as h'.
    intros [p s pend n es]. cbn [audioSinks pc]. intros -> ->.
    unfold disconnect, cleanup, log, set_audioSinks.
    cbn [JS.truthy pc audioSinks effects map pendingAudioTrack sinksMade].
    by rewrite app_nil_r.
Qed.

Lemma lost_same (n : nat) (h h' : t) :
  sinksHeld h' = sinksHeld h ->
  stopped (effects h') = stopped (effects h) ->
  (sinksMade h <= sinksMade h')%nat ->
  lost n h -> lost n h'.
Proof. unfold lost. intros -> -> Hle (H1 & H2 & H3). split; [lia|done]. Qed.

Lemma lost_log (n : nat) (es : list Effect) (h : t) :
  stopped es = [] -> lost n h -> lost n (log es h).
Proof.
  intros Hes. apply lost_same; cbn; [done| |done].
  by rewrite stopped_app, Hes, app_nil_r.
Qed.

Lemma lost_attachAudioSink (n : nat) (track : Track) (sinkOk : bool)
  (h : t) :
  lost n h -> lost n (attachAudioSink track sinkOk h).
Proof.
  intros Hlost. unfold attachAudioSink. destruct sinkOk.
  2:{ by do 2 (apply lost_log; [done|]). }
  apply lost_log; [done|]. destruct Hlost as (H1 & H2 & H3).
  unfold lost, sinksHeld. cbn [audioSinks effects sinksMade log].
  rewrite !stopped_app.
  change (stopped [ConsoleLog _]) with (@nil nat).
  change (stopped [NewAudioSink _ _]) with (@nil nat).
  rewrite !app_nil_r.
  split; [lia|]. split; [|done].
  intros Hin. apply held_mapSet in Hin as [->|Hin]; [lia|done].
Qed.

Lemma lost_cleanup (n : nat) (trackId : option string) (h : t) :
  lost n h -> lost n (cleanup trackId h).
Proof.
  intros (H1 & H2 & H3). unfold cleanup. destruct (JS.truthy trackId).
  - destruct (AudioProcessor.mapGet _ _) as [sink|] eqn:Eget; [|done].
    pose proof (mapGet_held _ _ _ Eget) as Hheld.
    unfold lost, sinksHeld.
    cbn [audioSinks effects sinksMade log set_audioSinks].
    rewrite stopped_app. change (stopped [SinkStop sink]) with [sink].
    split; [done|]. split.
    + intros Hin. by apply held_mapDelete in Hin.
    + rewrite elem_of_app, list_elem_of_singleton.
      intros [?| ->]; done.
  - unfold lost, sinksHeld.
    cbn [audioSinks effects sinksMade log set_audioSinks fmap list_fmap].
    rewrite stopped_app, stopped_all.
    split; [done|]. split; [apply not_elem_of_nil|].
    rewrite elem_of_app. by intros [?|?].
Qed.

Lemma lost_set_pendingAudioTrack (n : nat) (p : option Track) (h : t) :
  lost n h -> lost n (set_pendingAudioTrack p h).
Proof. by apply lost_same. Qed.

Lemma lost_set_pc (n : nat) (b : bool) (h : t) :
  lost n h -> lost n (set_pc b h).
Proof. by apply lost_same. Qed.

Lemma lost_step (n : nat) (h : t) (c : Call) : lost n h -> lost n (step h c).
Proof.
  intros Hlost. destruct c as [|track state ok|state ok|trackId|closeOk];
    cbn [step].
  - unfold createPeerConnection. apply lost_log; [done|].
    by apply lost_set_pc.
  - unfold ontrack. destruct (String.eqb _ _); [|done].
    destruct (isConnected _ _).
    + apply lost_attachAudioSink. by apply lost_log.
    + apply lost_set_pendingAudioTrack. by do 2 (apply lost_log; [done|]).
  - unfold oniceconnectionstatechange. destruct (negb (pc h)); [done|].
    destruct (String.eqb state "checking").
    { by do 2 (apply lost_log; [done|]). }
    destruct (_ || _).
    { destruct (pendingAudioTrack _).
      - apply lost_set_pendingAudioTrack, lost_attachAudioSink.
        by do 3 (apply lost_log; [done|]).
      - by do 2 (apply lost_log; [done|]). }
    destruct (String.eqb state "failed").
    { by do 2 (apply lost_log; [done|]). }
    destruct (String.eqb state "disconnected").
    { by do 2 (apply lost_log; [done|]). }
    by apply lost_log.
  - unfold onended. apply lost_cleanup. by apply lost_log.
  - unfold disconnect.
    assert (Hc : lost n
                   (cleanup None (log [ConsoleLog "WebRTC: Disconnecting..."]
                                    h))).
    { apply lost_cleanup. by apply lost_log. }
    destruct (pc _); [|done]. apply lost_set_pc.
    destruct closeOk; by apply lost_log.
Qed.

Lemma lost_run (n : nat) (cs : list Call) (h : t) :
  lost n h -> lost n (run cs h).
Proof.
  revert h. induction cs as [|c cs IH]; intros h Hlost; [done|].
  rewrite run_cons. apply IH. by apply lost_step.
Qed.

(** X16.  When an audio track arrives on an established connection and
    the map already holds a sink under its id, the new sink takes the
    place of the old one, which is not stopped: whatever calls follow,
    [disconnect] included, the old sink is never stopped and never in
    the map again. *)
Theorem X16_a_replaced_sink_is_never_stopped
  (cs later : list Call) (track : Track) (state : string) (old : nat) :
  kind track = "audio" ->
  pc (run cs new) = true ->
  state = "connected" \/ state = "completed" ->
  AudioProcessor.mapGet (id track) (audioSinks (run cs new)) = Some old ->
  (old < sinksMade (run (OnTrack track state true :: later) (run cs new)))%nat
  /\ (old ∉ sinksHeld
               (run (OnTrack track state true :: later) (run cs new)))
  /\ (old ∉ stopped
               (effects (run (OnTrack track state true :: later)
                           (run cs new)))).
Proof.
  intros Hkind Hpc Hstate Hget.
  pose proof (sinksInv_run cs new sinksInv_new) as (N1 & N2 & N3 & N4).
  set (h := run cs new) in *.
  pose proof (mapGet_held _ _ _ Hget) as Hheld.
  destruct (N3 old Hheld) as [Hlt Hns].
  assert (Hs : (String.eqb state "connected"
                || String.eqb state "completed") = true)
    by (by destruct Hstate as [-> | ->]).
  assert (Hstep : lost old (step h (OnTrack track state true))).
  { cbn [step]. unfold ontrack, isConnected, attachAudioSink.
    rewrite Hkind. cbn [String.eqb Ascii.eqb Bool.eqb log pc].
    rewrite Hpc, Hs. cbn [andb].
    unfold lost, sinksHeld. cbn [log audioSinks sinksMade effects].
    rewrite !stopped_app.
    change (stopped [ConsoleLog _]) with (@nil nat).
    change (stopped [NewAudioSink _ _]) with (@nil nat).
    rewrite !app_nil_r.
    split; [lia|]. split; [|done].
    apply mapGet_gone_mapSet; [done|done|lia]. }
  rewrite run_cons. exact (lost_run old later _ Hstep).
Qed.

Lemma X16_replaced_sink_witness :
  (0 < sinksMade
         (run (OnTrack (Media.audioTrack "a") "completed" true
               :: [OnEnded "a"; Disconnect true])
            (run Media.trackOnConnected new)))%nat
  /\ (0%nat ∉ sinksHeld
                 (run (OnTrack (Media.audioTrack "a") "completed" true
                       :: [OnEnded "a"; Disconnect true])
                    (run Media.trackOnConnected new)))
  /\ (0%nat ∉ stopped
                 (effects
                    (run (OnTrack (Media.audioTrack "a") "completed" true
                          :: [OnEnded "a"; Disconnect true])
                       (run Media.trackOnConnected new)))).
Proof.
  apply (X16_a_replaced_sink_is_never_stopped Media.trackOnConnected
           [OnEnded "a"; Disconnect true] (Media.audioTrack "a")
           "completed" 0%nat).
  - reflexivity.
  - reflexivity.
  - by right.
  - reflexivity.
Defined.

(** The calls of that scenario: two sinks are made for the track [a],
    and only the second one is stopped. *)
Example replaced_sink_trace :
  let h := run (Media.trackOnConnected
                ++ [OnTrack (Media.audioTrack "a") "completed" true;
                    OnEnded "a"; Disconnect true]) new in
  made (effects h) = [(0%nat, "a"); (1%nat, "a")]
  /\ stopped (effects h) = [1%nat]
  /\ audioSinks h = [].
Proof. vm_compute. done. Qed.

End WebRTCMore.

(** ** Properties of the token refresh and of the event polling *)

Section PexipMore.

Import Pexip PexipSession.

Lemma refreshTimer_fired_spec (w : Connection) :
  refreshTimer_fired w
  = if negb (isRunning w) then (Return false, w)
    else if JS.truthy (token (api w))
    then (Return true, add_effects [ConsoleLog "Refreshing Pexip token..."] w)
    else (Return false, add_effects [ConsoleError "Token refresh failed:"] w).
Proof.
  cbv [refreshTimer_fired refreshToken_begin tryCatch bind gets emit modify
       ret throw].
  destruct (isRunning w); [|done]. cbn [negb].
  by destruct (JS.truthy (token (api w))).
Qed.

Lemma refreshTimer_returned_200 (result : RefreshResult) (w : Connection) :
  refreshTimer_returned (Status 200) result w
  = (Return tt,
     set_tokenRefreshTimer
       (Some (refreshInterval (default 120 (r_expires result))))
       (add_effects
          ([ConsoleLog "Token refreshed, expires in:";
            ConsoleLog "Token refreshed successfully"]
           ++ (if bool_decide (is_Some (tokenRefreshTimer w))
               then [ClearTimeout TokenRefreshTimer] else [])
           ++ [SetTimeout TokenRefreshTimer
                 (refreshInterval (default 120 (r_expires result)))])
          (set_api {| token := r_token result;
                      participantUuid := participantUuid (api w) |} w))).
Proof.
  destruct w as [a call poll run pend timer cur effs].
  cbv [refreshTimer_returned refreshToken_returned settled startTokenRefresh
       tryCatch bind gets emit modify ret throw when].
  change ((200 <=? 200) && (200 <? 300)) with true. cbv beta iota.
  change (negb (200 =? 200)) with false.
  cbv [set_api add_effects set_tokenRefreshTimer api callUuid
       eventPollTimeout isRunning pendingIceCandidates tokenRefreshTimer
       flushCursor effects].
  destruct timer as [d|].
  - rewrite bool_decide_eq_true_2 by done. cbn [app].
    by rewrite <- !app_assoc.
  - rewrite bool_decide_eq_false_2 by (by intros [? ?]). cbn [app].
    by rewrite <- !app_assoc.
Qed.

Lemma refreshTimer_returned_failure (o : HttpOutcome)
  (result : RefreshResult) (w : Connection) :
  o <> Status 200 ->
  refreshTimer_returned o result w
  = (Return tt,
     add_effects [ConsoleError "Token refresh failed:";
                  ConsoleError "Token refresh failed:"] w).
Proof.
  intros Ho.
  cbv [refreshTimer_returned refreshToken_returned settled tryCatch bind
       gets emit modify ret throw].
  destruct o as [c|].
  - destruct ((200 <=? c) && (c <? 300)).
    + destruct (Z.eqb_spec c 200) as [->|Hne]; [done|]. cbn [negb].
      by rewrite add_effects_add_effects.
    + by rewrite add_effects_add_effects.
  - by rewrite add_effects_add_effects.
Qed.

(** X17.  The callback of the refresh timer.  When the session is not
    running it does nothing.  When it runs and holds a token, it sends
    the refresh request; without a token it writes an error to the
    console.  When the request is answered with status 200, the token of
    the answer replaces the old one and the timer is armed again, once,
    with the delay computed from the expiry of the answer (from 120
    seconds if the answer has none).  On any other outcome the callback
    writes two errors to the console and returns normally: the token is
    kept and no timer is armed, so the token is not refreshed again. *)
Theorem X17_refresh_callback_rearms_only_on_success
  (w : Connection) (o : HttpOutcome) (result : RefreshResult) :
  (isRunning w = false -> refreshTimer_fired w = (Return false, w))
  /\ (isRunning w = true ->
      refreshTimer_fired w
      = if JS.truthy (token (api w))
        then (Return true,
              add_effects [ConsoleLog "Refreshing Pexip token..."] w)
        else (Return false,
              add_effects [ConsoleError "Token refresh failed:"] w))
  /\ fst (refreshTimer_returned o result w) = Return tt
  /\ (o = Status 200 ->
      token (api (snd (refreshTimer_returned o result w))) = r_token result
      /\ tokenRefreshTimer (snd (refreshTimer_returned o result w))
         = Some (refreshInterval (default 120 (r_expires result)))
      /\ List.filter isRefreshTimer
           (drop (length (effects w))
              (effects (snd (refreshTimer_returned o result w))))
         = [SetTimeout TokenRefreshTimer
              (refreshInterval (default 120 (r_expires result)))])
  /\ (o <> Status 200 ->
      api (snd (refreshTimer_returned o result w)) = api w
      /\ tokenRefreshTimer (snd (refreshTimer_returned o result w))
         = tokenRefreshTimer w
      /\ drop (length (effects w))
           (effects (snd (refreshTimer_returned o result w)))
         = [ConsoleError "Token refresh failed:";
            ConsoleError "Token refresh failed:"]).
Proof.
  split; [|split; [|split; [|split]]].
  - intros H. by rewrite refreshTimer_fired_spec, H.
  - intros H. by rewrite refreshTimer_fired_spec, H.
  - destruct o as [c|]; [destruct (Z.eq_dec c 200) as [->|Hne]|].
    + by rewrite refreshTimer_returned_200.
    + by rewrite refreshTimer_returned_failure by congruence.
    + by rewrite refreshTimer_returned_failure.
  - intros ->. rewrite refreshTimer_returned_200.
    cbn [snd set_tokenRefreshTimer add_effects set_api api token
         tokenRefreshTimer effects].
    split; [done|]. split; [done|].
    rewrite drop_app_length.
    by destruct (bool_decide (is_Some (tokenRefreshTimer w))).
  - intros Ho. rewrite refreshTimer_returned_failure by done.
    cbn [snd add_effects api tokenRefreshTimer effects].
    by rewrite drop_app_length.
Qed.

(** X18.  A refresh request that is under way when the session is
    disconnected is not cancelled.  The teardown leaves the session
    without a token and without a refresh timer; when the answer (status
    200) then arrives, the callback stores the token of the answer and
    arms the refresh timer again, although the session is not running.
    That timer fires to no effect. *)
Theorem X18_refresh_answered_after_disconnect
  (w : Connection) (o1 o2 : HttpOutcome) (result : RefreshResult) :
  isRunning w = true ->
  JS.truthy (token (api w)) = true ->
  fst (refreshTimer_fired w) = Return true
  /\ JS.truthy
       (token (api (snd (disconnect o1 o2 (snd (refreshTimer_fired w))))))
     = false
  /\ tokenRefreshTimer (snd (disconnect o1 o2 (snd (refreshTimer_fired w))))
     = None
  /\ isRunning
       (snd (refreshTimer_returned (Status 200) result
               (snd (disconnect o1 o2 (snd (refreshTimer_fired w))))))
     = false
  /\ token
       (api (snd (refreshTimer_returned (Status 200) result
                    (snd (disconnect o1 o2 (snd (refreshTimer_fired w)))))))
     = r_token result
  /\ tokenRefreshTimer
       (snd (refreshTimer_returned (Status 200) result
               (snd (disconnect o1 o2 (snd (refreshTimer_fired w))))))
     = Some (refreshInterval (default 120 (r_expires result)))
  /\ refreshTimer_fired
       (snd (refreshTimer_returned (Status 200) result
               (snd (disconnect o1 o2 (snd (refreshTimer_fired w))))))
     = (Return false,
        snd (refreshTimer_returned (Status 200) result
               (snd (disconnect o1 o2 (snd (refreshTimer_fired w)))))).
Proof.
  intros Hrun Htok.
  rewrite refreshTimer_fired_spec, Hrun, Htok. cbn [negb fst snd].
  set (w1 := add_effects [ConsoleLog "Refreshing Pexip token..."] w).
  assert (Hrun1 : isRunning w1 = true) by done.
  destruct (disconnect_begin_running w1 Hrun1) as (es1 & Eb & _).
  destruct (disconnect_running o1 o2 w1 Hrun1)
    as (wb & es1' & es2 & Eb' & Ed & _ & _ & _ & _ & _ & _ & Hrf & _ & _
        & Htf).
  rewrite Eb in Eb'. injection Eb' as <-.
  set (wb := {| api := api w1; callUuid := callUuid w1;
                eventPollTimeout := false; isRunning := false;
                pendingIceCandidates := pendingIceCandidates w1;
                tokenRefreshTimer := None; flushCursor := flushCursor w1;
                effects := effects w1 ++ es1 |}) in *.
  destruct (disconnect_finish_spec o1 o2 wb) as (es3 & Ef & _).
  rewrite Ed. set (w2 := snd (disconnect_finish o1 o2 wb)) in *.
  assert (Ht2 : tokenRefreshTimer w2 = None).
  { subst w2. rewrite Ef. by destruct (JS.truthy (token (api wb))). }
  split; [done|]. split; [done|]. split; [done|].
  rewrite refreshTimer_fired_spec, refreshTimer_returned_200.
  cbn [snd set_tokenRefreshTimer add_effects set_api api token isRunning
       tokenRefreshTimer effects].
  rewrite Hrf. done.
Qed.

Lemma X18_refresh_after_disconnect_witness :
  fst (refreshTimer_fired Scenario.connected) = Return true
  /\ JS.truthy
       (token (api (snd (disconnect (Status 200) (Status 200)
                           (snd (refreshTimer_fired Scenario.connected))))))
     = false
  /\ tokenRefreshTimer
       (snd (disconnect (Status 200) (Status 200)
               (snd (refreshTimer_fired Scenario.connected))))
     = None
  /\ isRunning
       (snd (refreshTimer_returned (Status 200)
               {| r_token := Some "token-2"; r_expires := None |}
               (snd (disconnect (Status 200) (Status 200)
                       (snd (refreshTimer_fired Scenario.connected))))))
     = false
  /\ token
       (api (snd (refreshTimer_returned (Status 200)
                    {| r_token := Some "token-2"; r_expires := None |}
                    (snd (disconnect (Status 200) (Status 200)
                            (snd (refreshTimer_fired
                                    Scenario.connected)))))))
     = r_token {| r_token := Some "token-2"; r_expires := None |}
  /\ tokenRefreshTimer
       (snd (refreshTimer_returned (Status 200)
               {| r_token := Some "token-2"; r_expires := None |}
               (snd (disconnect (Status 200) (Status 200)
                       (snd (refreshTimer_fired Scenario.connected))))))
     = Some (refreshInterval
               (default 120
                  (r_expires
                     {| r_token := Some "token-2"; r_expires := None |})))
  /\ refreshTimer_fired
       (snd (refreshTimer_returned (Status 200)
               {| r_token := Some "token-2"; r_expires := None |}
               (snd (disconnect (Status 200) (Status 200)
                       (snd (refreshTimer_fired Scenario.connected))))))
     = (Return false,
        snd (refreshTimer_returned (Status 200)
               {| r_token := Some "token-2"; r_expires := None |}
               (snd (disconnect (Status 200) (Status 200)
                       (snd (refreshTimer_fired Scenario.connected)))))).
Proof.
  apply (X18_refresh_answered_after_disconnect Scenario.connected
           (Status 200) (Status 200)
           {| r_token := Some "token-2"; r_expires := None |});
    reflexivity.
Defined.

(** A send of a candidate touches neither the state of the polling nor
    the timers. *)
Lemma sendIceCandidate_quiet (site : CallSite) (call : option string)
  (c : Candidate) (o : HttpOutcome) (w : Connection) :
  exists es,
    sendIceCandidate site call c o w = (Return tt, add_effects es w)
    /\ List.filter isPollTimer es = [].
Proof.
  cbv [sendIceCandidate tryCatch axiosPost bind emit modify ret throw].
  destruct o as [code|].
  - destruct ((200 <=? code) && (code <? 300)).
    + by eexists.
    + eexists. rewrite add_effects_add_effects. by split.
  - eexists. rewrite add_effects_add_effects. by split.
Qed.

Lemma setupStep_quiet (w : Connection) (ev : SetupEvent) :
  isRunning (setupStep w ev) = isRunning w
  /\ eventPollTimeout (setupStep w ev) = eventPollTimeout w
  /\ List.filter isPollTimer (effects (setupStep w ev))
     = List.filter isPollTimer (effects w).
Proof.
  assert (Hturn : forall i o w0,
            isRunning (snd (connect_flushTurn i o w0)) = isRunning w0
            /\ eventPollTimeout (snd (connect_flushTurn i o w0))
               = eventPollTimeout w0
            /\ List.filter isPollTimer
                 (effects (snd (connect_flushTurn i o w0)))
               = List.filter isPollTimer (effects w0)).
  { intros i o w0. cbv [connect_flushTurn bind gets modify ret].
    destruct (pendingIceCandidates w0 !! i) as [c|]; [|done].
    destruct (sendIceCandidate_quiet FromQueue (callUuid w0) c o w0)
      as (es & -> & Hes).
    cbn [snd set_flushCursor add_effects isRunning eventPollTimeout effects].
    by rewrite List.filter_app, Hes, app_nil_r. }
  destruct ev as [c o|call o|o]; unfold setupStep.
  - cbv [iceCandidateHandler bind gets modify ret].
    destruct (negb (JS.truthy (callUuid w))); [done|].
    destruct (sendIceCandidate_quiet FromHandler (callUuid w) c o w)
      as (es & -> & Hes).
    cbn [snd add_effects isRunning eventPollTimeout effects].
    by rewrite List.filter_app, Hes, app_nil_r.
  - cbv [connect_joined bind gets modify ret emit].
    cbn [set_callUuid pendingIceCandidates].
    destruct (0 <? Z.of_nat (length (pendingIceCandidates w))); [|done].
    destruct (Hturn 0%nat o
                (add_effects [ConsoleLog "Sending queued ICE candidates..."]
                   (set_callUuid (Some call) w))) as (H1 & H2 & H3).
    rewrite H1, H2, H3.
    cbn [add_effects set_callUuid isRunning eventPollTimeout effects].
    by rewrite List.filter_app, app_nil_r.
  - cbv [connect_sendReturned bind gets].
    destruct (flushCursor w) as [i|]; [apply Hturn|done].
Qed.

Lemma setupRun_quiet (evs : list SetupEvent) :
  forall w,
    isRunning (setupRun evs w) = isRunning w
    /\ eventPollTimeout (setupRun evs w) = eventPollTimeout w
    /\ List.filter isPollTimer (effects (setupRun evs w))
       = List.filter isPollTimer (effects w).
Proof.
  induction evs as [|ev evs IH]; intros w; [done|].
  rewrite setupRun_cons.
  destruct (IH (setupStep w ev)) as (-> & -> & ->).
  apply setupStep_quiet.
Qed.

(** X19.  On a new session, [connect] does not start the event polling.
    It calls [startEventPolling] while [isRunning] is still [false], as
    the constructor has set it: the polling function returns before its
    request, and sets no timer to run again.  So whatever token the
    bridge has answered with and whatever its expiry, and whatever
    happens to the ICE candidates during the setup, [connect] ends with a
    running session that has no request for events under way and no poll
    timer, and has never set one. *)
Theorem X19_connect_does_not_start_the_event_polling
  (result : TokenResult) (evs : list SetupEvent) :
  connect_acked
    (setupRun evs (snd (connect_tokenReturned result Pexip.new)))
  = (Return false,
     add_effects [ConsoleLog "Successfully connected to conference"]
       (set_isRunning true
          (setupRun evs (snd (connect_tokenReturned result Pexip.new)))))
  /\ isRunning
       (snd (connect_acked
               (setupRun evs
                  (snd (connect_tokenReturned result Pexip.new)))))
     = true
  /\ eventPollTimeout
       (snd (connect_acked
               (setupRun evs
                  (snd (connect_tokenReturned result Pexip.new)))))
     = false
  /\ List.filter isPollTimer
       (effects
          (snd (connect_acked
                  (setupRun evs
                     (snd (connect_tokenReturned result Pexip.new))))))
     = [].
Proof.
  destruct (setupRun_quiet evs
              (snd (connect_tokenReturned result Pexip.new)))
    as (Hrun & Hpoll & Heff).
  set (w := setupRun evs (snd (connect_tokenReturned result Pexip.new)))
    in *.
  change (isRunning w = false) in Hrun.
  change (eventPollTimeout w = false) in Hpoll.
  change (List.filter isPollTimer (effects w) = []) in Heff.
  assert (E : connect_acked w
              = (Return false,
                 add_effects
                   [ConsoleLog "Successfully connected to conference"]
                   (set_isRunning true w))).
  { cbv [connect_acked startEventPolling pollEvents_begin bind gets modify
         emit ret]. by rewrite Hrun. }
  rewrite E. cbn [snd add_effects set_isRunning isRunning eventPollTimeout
                  effects].
  split; [done|]. split; [done|]. split; [done|].
  by rewrite List.filter_app, Heff.
Qed.

(** The session [connect] leaves holds the token and the participant
    UUID of the answer, so that a later [disconnect] tells the bridge. *)
Example connect_stores_the_token :
  api (snd (connect_acked
              (setupRun [JoinCallReturned "call-1" (Status 200)]
                 (snd (connect_tokenReturned
                         {| t_token := Some "token-1";
                            t_participant_uuid := Some "participant-1";
                            t_expires := Some 120 |} Pexip.new)))))
  = {| token := Some "token-1"; participantUuid := Some "participant-1" |}.
Proof. vm_compute. reflexivity. Qed.

(** A session that is running when [startEventPolling] is called does
    poll: the request is sent, and the end of the polling function sets
    the timer for the next round. *)
Example polling_of_a_running_session :
  fst (startEventPolling Scenario.connected) = Return true
  /\ List.filter isPollTimer
       (effects (snd (pollEvents_end Scenario.connected)))
     = [SetTimeout EventPollTimeout 100].
Proof. vm_compute. done. Qed.

End PexipMore.

(** ** Properties of the statistics of the audio processor *)

Section ProcessorStats.

Import AudioProcessor ProcessorRun.

Lemma keys_mapSet_present {A} (k : string) (v v0 : A)
  (m : list (string * A)) :
  mapGet k m = Some v0 -> map fst (mapSet k v m) = map fst m.
Proof.
  induction m as [|[k' v'] m IH]; cbn; [done|].
  destruct (String.eqb k' k); cbn; [done|]. intros H. by rewrite IH.
Qed.

Lemma keys_mapSet_absent {A} (k : string) (v : A) (m : list (string * A)) :
  mapGet k m = None -> map fst (mapSet k v m) = map fst m ++ [k].
Proof.
  induction m as [|[k' v'] m IH]; cbn; [done|].
  destruct (String.eqb k' k); cbn; [done|]. intros H. by rewrite IH.
Qed.

Lemma keys_absent {A} (k : string) (m : list (string * A)) :
  mapGet k m = None -> existsb (String.eqb k) (map fst m) = false.
Proof.
  induction m as [|[k' v'] m IH]; cbn; [done|].
  rewrite (String.eqb_sym k k'). destruct (String.eqb k' k); [done|].
  intros H. by rewrite IH.
Qed.

Lemma keys_mapDelete {A} (k : string) (m : list (string * A)) :
  map fst (mapDelete k m) = setDelete k (map fst m).
Proof.
  unfold mapDelete, setDelete.
  induction m as [|[k' v'] m IH]; cbn; [done|].
  destruct (negb (String.eqb k' k)); cbn; by rewrite IH.
Qed.

Lemma addSamples_isFinal (now : Z) (f : list Z) (b : AudioBuffer.t)
  (c : AudioBuffer.ChunkData) :
  fst (AudioBuffer.addSamples now f b) = Some c ->
  AudioBuffer.isFinal c = false.
Proof.
  unfold AudioBuffer.addSamples, AudioBuffer.createChunk,
    AudioBuffer.splice0. cbn.
  destruct (_ <=? _); cbn; [|done]. by intros [= <-].
Qed.

(** What a call keeps true of the statistics. *)
Lemma step_stats (p : t) (c : Call) :
  activeTracks (stats p) = map fst (buffers p) ->
  activeTracks (stats (step p c)) = map fst (buffers (step p c))
  /\ totalDataReceived (stats (step p c))
     = totalDataReceived (stats p) + bytesReceived [c]
  /\ onChunkReady (step p c) = onChunkReady p
  /\ (onChunkReady p = true ->
      totalChunksCreated (stats (step p c))
      - Z.of_nat (length (fullChunks (step p c)))
      = totalChunksCreated (stats p) - Z.of_nat (length (fullChunks p))).
Proof.
  assert (HstopTrack : forall now id q,
            activeTracks (stats q) = map fst (buffers q) ->
            activeTracks (stats (stopTrack now id q))
            = map fst (buffers (stopTrack now id q))
            /\ totalDataReceived (stats (stopTrack now id q))
               = totalDataReceived (stats q)
            /\ onChunkReady (stopTrack now id q) = onChunkReady q
            /\ (onChunkReady q = true ->
                totalChunksCreated (stats (stopTrack now id q))
                - Z.of_nat (length (fullChunks (stopTrack now id q)))
                = totalChunksCreated (stats q)
                  - Z.of_nat (length (fullChunks q)))).
  { intros now id q Hq. unfold stopTrack.
    destruct (mapGet id (buffers q)) as [b|] eqn:Eget; [|done].
    pose proof (flush_trackId now b) as Hfl.
    destruct (AudioBuffer.flush now b) as [[fc|] b']; cbn [fst] in Hfl.
    - destruct (Hfl fc eq_refl) as (_ & _ & Hfinal).
      unfold fullChunks.
      cbn [deliver buffers stats activeTracks totalDataReceived
           totalChunksCreated onChunkReady delivered].
      rewrite keys_mapDelete, Hq. do 3 (split; [done|]).
      intros ->. rewrite List.filter_app. cbn [List.filter chunk].
      rewrite Hfinal. cbn [negb]. by rewrite app_nil_r.
    - unfold fullChunks.
      cbn [buffers stats activeTracks totalDataReceived
           totalChunksCreated onChunkReady delivered].
      by rewrite keys_mapDelete, Hq. }
  intros Hp. destruct c as [now tracker a|now id|now]; cbn [step].
  - unfold bytesReceived. cbn [foldr]. rewrite Z.add_0_r.
    unfold processAudioData.
    pose proof (addSamples_isFinal now (samples a)) as Hfinal.
    destruct (mapGet (trackId a) (buffers p)) as [b|] eqn:Eget.
    + specialize (Hfinal b).
      destruct (AudioBuffer.addSamples now (samples a) b) as [[ch|] b'];
        cbn [fst] in Hfinal; unfold fullChunks;
        cbn [deliver buffers stats activeTracks totalDataReceived
             totalChunksCreated onChunkReady delivered].
      * rewrite (keys_mapSet_present _ _ _ _ Eget). do 3 (split; [done|]).
        intros ->. rewrite List.filter_app. cbn [List.filter chunk].
        rewrite (Hfinal ch eq_refl). cbn [negb].
        rewrite length_app. cbn [length]. lia.
      * by rewrite (keys_mapSet_present _ _ _ _ Eget).
    + match goal with
      | |- context [AudioBuffer.addSamples now (samples a) ?fresh] =>
          specialize (Hfinal fresh);
          destruct (AudioBuffer.addSamples now (samples a) fresh)
            as [[ch|] b']
      end; cbn [fst] in Hfinal; unfold fullChunks, setAdd;
        cbn [deliver buffers stats activeTracks totalDataReceived
             totalChunksCreated onChunkReady delivered];
        rewrite Hp, (keys_absent _ _ Eget), (keys_mapSet_absent _ _ _ Eget).
      * do 3 (split; [done|]).
        intros ->. rewrite List.filter_app. cbn [List.filter chunk].
        rewrite (Hfinal ch eq_refl). cbn [negb].
        rewrite length_app. cbn [length]. lia.
      * done.
  - destruct (HstopTrack now id p Hp) as (H1 & H2 & H3 & H4).
    unfold bytesReceived. cbn [foldr]. rewrite Z.add_0_r. done.
  - unfold bytesReceived. cbn [foldr]. rewrite Z.add_0_r. unfold stop.
    generalize (map fst (buffers p)) as keys. intros keys.
    revert p Hp. induction keys as [|k keys IH]; intros p Hp; [done|].
    cbn [foldl].
    destruct (HstopTrack now k p Hp) as (H1 & H2 & H3 & H4).
    destruct (IH _ H1) as (I1 & I2 & I3 & I4).
    split; [done|]. split; [by rewrite I2, H2|].
    split; [by rewrite I3, H3|].
    intros Hcb. rewrite I4 by (by rewrite H3). by apply H4.
Qed.

Lemma bytesReceived_cons (c : Call) (cs : list Call) :
  bytesReceived (c :: cs) = bytesReceived [c] + bytesReceived cs.
Proof. unfold bytesReceived. cbn [foldr]. destruct c; lia. Qed.

Lemma run_stats (cs : list Call) :
  forall p,
    activeTracks (stats p) = map fst (buffers p) ->
    activeTracks (stats (run cs p)) = map fst (buffers (run cs p))
    /\ totalDataReceived (stats (run cs p))
       = totalDataReceived (stats p) + bytesReceived cs
    /\ onChunkReady (run cs p) = onChunkReady p
    /\ (onChunkReady p = true ->
        totalChunksCreated (stats (run cs p))
        - Z.of_nat (length (fullChunks (run cs p)))
        = totalChunksCreated (stats p) - Z.of_nat (length (fullChunks p))).
Proof.
  induction cs as [|c cs IH]; intros p Hp.
  { unfold bytesReceived. cbn. split; [done|]. split; [lia|done]. }
  change (run (c :: cs) p) with (run cs (step p c)).
  destruct (step_stats p c Hp) as (H1 & H2 & H3 & H4).
  destruct (IH _ H1) as (I1 & I2 & I3 & I4).
  split; [done|]. split; [rewrite I2, H2, (bytesReceived_cons c cs); lia|].
  split; [by rewrite I3, H3|].
  intros Hcb. rewrite I4 by (by rewrite H3). by apply H4.
Qed.

(** X20.  The statistics of a processor agree with what it has done,
    whatever calls of [processAudioData], [stopTrack] and [stop] it has
    received: the active tracks are the tracks that have a buffer, in the
    order of the map; the data received is two bytes for every sample
    handed in; and, when there is a callback, the chunks created are the
    chunks of full length the callback has received (the final chunks of
    [stopTrack] are not counted). *)
Theorem X20_processor_statistics_agree_with_the_run
  (now0 : Z) (cfg : Config) (cs : list Call) :
  activeTracks (stats (run cs (new now0 cfg)))
  = map fst (buffers (run cs (new now0 cfg)))
  /\ totalDataReceived (stats (run cs (new now0 cfg))) = bytesReceived cs
  /\ (cfg_onChunkReady cfg = true ->
      totalChunksCreated (stats (run cs (new now0 cfg)))
      = Z.of_nat (length (fullChunks (run cs (new now0 cfg))))).
Proof.
  destruct (run_stats cs (new now0 cfg) eq_refl) as (H1 & H2 & _ & H4).
  split; [done|]. split; [by rewrite H2|].
  intros Hcb. specialize (H4 Hcb). cbn in H4. lia.
Qed.

End ProcessorStats.

(** ** Properties of the speaking time *)

Section TrackerTimeMore.

Import ParticipantTracker TrackerTime.

Lemma accounted_later (now now' : Z) (p : Participant) :
  now <= now' -> accounted now p -> accounted now' p.
Proof.
  intros Hle [H1 H2]. split; [lia|].
  intros s Hs. destruct (H2 s Hs). lia.
Qed.

Lemma allAccounted_later (now now' : Z) (tr : t) :
  now <= now' -> allAccounted now tr -> allAccounted now' tr.
Proof.
  intros Hle H u p Hp. apply (accounted_later now); [done|]. by apply (H u).
Qed.

Lemma time_addParticipant (now : Z) (d : ParticipantData) (tr : t) :
  allAccounted now tr -> allAccounted now (addParticipant now d tr).
Proof.
  intros H u p. unfold addParticipant, set_participant. cbn.
  rewrite lookup_insert. destruct (decide (pd_uuid d = u)); [|apply H].
  intros [= <-]. split; cbn; [lia|done].
Qed.

Lemma time_alter (now : Z) (f : Participant -> Participant) (u : string)
  (tr : t) :
  (forall p, totalSpeakingTime (f p) = totalSpeakingTime p
             /\ speakingStartTime (f p) = speakingStartTime p
             /\ joinTime (f p) = joinTime p) ->
  allAccounted now tr -> allAccounted now (alter_participant f u tr).
Proof.
  intros Hf H v q. unfold alter_participant. cbn. rewrite lookup_alter.
  destruct (decide (u = v)) as [->|Hne]; [|apply H].
  destruct (participants tr !! v) as [p|] eqn:E; [|done].
  intros [= <-]. destruct (Hf p) as (E1 & E2 & E3).
  unfold accounted. rewrite E1, E2, E3. by apply (H v).
Qed.

Lemma time_onStopSpeaking (now : Z) (u : string) (tr : t) :
  allAccounted now tr -> allAccounted now (onStopSpeaking now u tr).
Proof.
  intros H. unfold onStopSpeaking.
  destruct (participants tr !! u) as [p|] eqn:Ep; [|done].
  destruct (isSpeaking p); [|done]. cbn [negb].
  intros v q. cbn. rewrite lookup_insert.
  destruct (decide (u = v)) as [->|Hv]; [|apply H].
  intros [= <-]. destruct (H v p Ep) as [H1 H2].
  unfold accounted. cbn.
  destruct (speakingStartTime p) as [s|] eqn:Es; cbn.
  - destruct (H2 s eq_refl) as [Hs Ht].
    destruct (s =? 0); cbn [negb]; (split; [lia|]); [|done].
    intros s' [= <-]. lia.
  - done.
Qed.

Lemma time_onStartSpeaking (now : Z) (u : string) (tr : t) :
  allAccounted now tr -> allAccounted now (onStartSpeaking now u tr).
Proof.
  intros H. unfold onStartSpeaking.
  destruct (participants tr !! u) as [p|] eqn:Ep; [|done].
  match goal with
  | |- allAccounted now
         match ?c with Some _ => _ | None => ?x end => set (tr1 := x)
  end.
  assert (H1 : allAccounted now tr1).
  { intros v q. cbn. rewrite lookup_insert.
    destruct (decide (u = v)) as [->|Hv]; [|apply H].
    intros [= <-]. destruct (H v p Ep) as [[H1 H2] _].
    split; cbn; [lia|]. intros s [= <-]. lia. }
  destruct (currentSpeaker tr) as [prev|]; [|done].
  destruct (_ && _); [|done].
  destruct (participants tr1 !! prev) as [pp|]; [|done].
  destruct (isSpeaking pp); [|done].
  by apply time_onStopSpeaking.
Qed.

Lemma time_updateParticipant (now : Z) (d : ParticipantData) (tr : t) :
  allAccounted now tr -> allAccounted now (updateParticipant now d tr).
Proof.
  intros H. unfold updateParticipant.
  destruct (participants tr !! pd_uuid d); [|by apply time_addParticipant].
  set (tr1 := if JS.truthy (pd_display_name d) then _ else tr).
  assert (H1 : allAccounted now tr1).
  { unfold tr1. destruct (JS.truthy _); [|done]. by apply time_alter. }
  set (tr2 := match pd_vad d with Some _ => _ | None => tr1 end).
  assert (H2 : allAccounted now tr2).
  { unfold tr2. destruct (pd_vad d) as [vad|]; [|done].
    destruct (_ && _); [by apply time_onStartSpeaking|].
    destruct (_ && _); [by apply time_onStopSpeaking|done]. }
  destruct (pd_is_muted d) as [m|]; [|done].
  assert (H3 : allAccounted now
                 (alter_participant (set_isMuted m) (pd_uuid d) tr2))
    by (by apply time_alter).
  destruct (_ && _); [by apply time_onStopSpeaking|done].
Qed.

Lemma time_removeParticipant (now : Z) (d : ParticipantData) (tr : t) :
  allAccounted now tr -> allAccounted now (removeParticipant now d tr).
Proof.
  intros H. unfold removeParticipant.
  destruct (participants tr !! pd_uuid d) as [p|]; [|done].
  set (tr1 := if isSpeaking p then _ else tr).
  assert (H1 : allAccounted now tr1).
  { unfold tr1. destruct (isSpeaking p); [|done].
    by apply time_onStopSpeaking. }
  intros v q. cbn. rewrite lookup_delete.
  destruct (decide (pd_uuid d = v)); [done|apply H1].
Qed.

Lemma time_updateStage (now : Z) (stage : list StageParticipant) (tr : t) :
  allAccounted now tr -> allAccounted now (updateStage now stage tr).
Proof.
  intros H. unfold updateStage.
  destruct stage as [|activeSpeaker rest]; [done|].
  match goal with
  | |- allAccounted now (foldl _ ?x _) => set (tr1 := x)
  end.
  assert (H1 : allAccounted now tr1).
  { unfold tr1. destruct (_ && _); [|done]. by apply time_onStartSpeaking. }
  clearbody tr1. generalize (activeSpeaker :: rest) as l.
  intros l. revert tr1 H1.
  induction l as [|sp l IH]; intros acc Hacc; [done|].
  cbn [foldl]. apply IH.
  destruct (participants acc !! sp_uuid sp) as [p|]; [|done].
  destruct (_ && _); [by apply time_onStartSpeaking|].
  destruct (_ && _); [by apply time_onStopSpeaking|done].
Qed.

Lemma time_handleEvent (tr : t) (ev : Z * Event) :
  allAccounted (fst ev) tr -> allAccounted (fst ev) (handleEvent tr ev).
Proof.
  destruct ev as [now [d|d|d|stage]]; cbn; intros H.
  - by apply time_addParticipant.
  - by apply time_updateParticipant.
  - by apply time_removeParticipant.
  - by apply time_updateStage.
Qed.

Lemma time_foldl (evs : list (Z * Event)) :
  forall now tr,
    clockAdvances now evs -> allAccounted now tr ->
    allAccounted (lastTime now evs) (foldl handleEvent tr evs).
Proof.
  induction evs as [|ev evs IH]; intros now tr Hclock H; [done|].
  destruct Hclock as [Hle Hclock]. cbn [foldl].
  replace (lastTime now (ev :: evs)) with (lastTime (fst ev) evs).
  2:{ unfold lastTime. destruct evs as [|x evs']; [done|]. cbn [map].
      change (last (fst ev :: fst x :: map fst evs'))
        with (last (fst x :: map fst evs')).
      destruct (last (fst x :: map fst evs')) eqn:E; [done|].
      by apply last_None in E. }
  apply IH; [done|]. apply time_handleEvent.
  by apply (allAccounted_later now).
Qed.

(** X21.  When the clock does not go back between the events, the total
    speaking time of every participant of the tracker is, after any
    sequence of events, not negative and not more than the time that has
    passed since the participant joined. *)
Theorem X21_speaking_time_is_within_the_time_since_joining
  (t0 : Z) (evs : list (Z * Event)) (u : string) (p : Participant) :
  clockAdvances t0 evs ->
  participants (run t0 evs) !! u = Some p ->
  0 <= totalSpeakingTime p <= lastTime t0 evs - joinTime p.
Proof.
  intros Hclock Hp.
  assert (H0 : allAccounted t0 (new t0)).
  { intros v q Hq. cbn in Hq. by rewrite lookup_empty in Hq. }
  destruct (time_foldl evs t0 (new t0) Hclock H0 u p Hp) as [H _].
  exact H.
Qed.

Lemma X21_speaking_time_witness :
  0 <= totalSpeakingTime Speakers.aliceAfterTalk
    <= lastTime 0 Scenario.oneSpeakerStopped
       - joinTime Speakers.aliceAfterTalk.
Proof.
  apply (X21_speaking_time_is_within_the_time_since_joining
           0 Scenario.oneSpeakerStopped "A" Speakers.aliceAfterTalk).
  - cbn. lia.
  - vm_compute. reflexivity.
Defined.

(** With a clock that goes back, the speaking time can be negative. *)
Example speaking_time_clock_goes_back :
  totalSpeakingTime
    <$> participants
          (run 0 [(1, Scenario.joined "A" "Alice");
                  (10, Scenario.vad "A" 100);
                  (4, Scenario.vad "A" 0)]) !! "A"
  = Some (-6).
Proof. vm_compute. reflexivity. Qed.

End TrackerTimeMore.
